(** * The Viper front-end ([viper/parser.py]): source AST to typed LLL.

    A shallow embedding of the translator and of the [LLLnode] tree it
    builds, followed by the properties of the specification that were
    checked against it.

    Conventions of the embedding:
    - a Python function that can raise returns [result A]; the
      exception classes are the constructors of [exn];
    - [None] in a nullable position is [option]'s [None];
    - a [dict] is a [gmap] (an association list where the source sorts or
      enumerates its keys), a [list] is a [list], an [int] is a [Z];
    - a [str] is a [string]; it stands for its UTF-8 bytes, so that
      [bytes(s, 'utf-8')] is the list of its characters;
    - the modules [viper/opcodes.py] and [viper/types.py] and the Keccak
      primitive are not part of [parser.py]: they are the interfaces
      [OpcodesModule], [TypesModule] and [HashModule]. *)

From Stdlib Require Import ZArith String Ascii List Bool Lia.
From Stdlib Require Floats.SpecFloat.
From stdpp Require Import base option list gmap strings.

Open Scope Z_scope.

Set Warnings "-register-all".

(** ** Exceptions and the error monad *)

(** Built-in Python exceptions that the translator can run into. *)
Inductive py_error :=
| Exception_          (* raise Exception("...") *)
| IndexError
| KeyError
| UnboundLocalError
| AttributeError
| TypeError
| AssertionError
| NameError
| RecursionError
| ValueError.         (* binascii.Error is a ValueError *)

(** What [viper/types.py] can raise: its own two classes and built-ins.
    The three classes that [parser.py] defines itself are out of its
    reach. *)
Inductive types_exn :=
| TInvalidType
| TTypeMismatch
| TPy (e : py_error).

Inductive exn :=
| InvalidTypeException
| TypeMismatchException
| VariableDeclarationException
| StructureException
| ConstancyViolationException
| PyError (e : py_error).

Definition exn_of_types (e : types_exn) : exn :=
  match e with
  | TInvalidType => InvalidTypeException
  | TTypeMismatch => TypeMismatchException
  | TPy e => PyError e
  end.

Inductive result (A : Type) : Type :=
| Ok (a : A)
| Err (e : exn).
Arguments Ok {A} a.
Arguments Err {A} e.

Definition bind {A B} (r : result A) (k : A -> result B) : result B :=
  match r with
  | Ok a => k a
  | Err e => Err e
  end.

Notation "'let*' p ':=' c 'in' k" := (bind c (fun p => k))
  (at level 10, p pattern, c at level 100, k at level 200, only parsing).

(** [raise_if c e]: [if c: raise e]. *)
Definition raise_if (c : bool) (e : exn) : result unit :=
  if c then Err e else Ok tt.

(** Results of [viper/types.py]. *)
Definition tresult (A : Type) : Type := sum types_exn A.

Definition lift {A} (r : tresult A) : result A :=
  match r with
  | inl e => Err (exn_of_types e)
  | inr a => Ok a
  end.

(** A comprehension [[f(x) for x in l]] whose body can raise. *)
Definition mapM {A B} (f : A -> result B) : list A -> result (list B) :=
  fix go (l : list A) : result (list B) :=
    match l with
    | [] => Ok []
    | x :: r => let* y := f x in let* ys := go r in Ok (y :: ys)
    end.

(** [l[i]] on a Python list, for [i >= 0]. *)
Definition index {A} (l : list A) (i : nat) : result A :=
  match nth_error l i with
  | Some x => Ok x
  | None => Err (PyError IndexError)
  end.

(** ** Strings *)

Definition upper_ascii (c : ascii) : ascii :=
  let n := nat_of_ascii c in
  if ((97 <=? n) && (n <=? 122))%nat then ascii_of_nat (n - 32) else c.

(** [str.upper()] (on ASCII text). *)
Fixpoint upper (s : string) : string :=
  match s with
  | EmptyString => EmptyString
  | String c r => String (upper_ascii c) (upper r)
  end.

Definition eqs (a b : string) : bool := String.eqb a b.

(** [sep.join(l)]. *)
Fixpoint join (sep : string) (l : list string) : string :=
  match l with
  | [] => ""
  | [x] => x
  | x :: r => x +:+ sep +:+ join sep r
  end.

(** [s in l] for a tuple of strings. *)
Definition in_strs (s : string) (l : list string) : bool :=
  existsb (eqs s) l.

(** ** Types of the source language

    Modelled from the spec: the classes of [viper/types.py], which is not
    under [src/]; the fields are the attributes that [parser.py] reads
    ([typ], [unit], [positional]; [subtype], [count]; [keytype],
    [valuetype]; [members]; [maxlen]). A unit is a dict from unit names
    to exponents, or [None]. *)

Abbreviation unit_t := (option (gmap string Z)).

Inductive NodeType :=
| BaseType (typ : string) (unit : unit_t) (positional : bool)
| ListType (subtype : option NodeType) (count : Z)
| MappingType (keytype : NodeType) (valuetype : NodeType)
| StructType (members : list (string * option NodeType))
| MixedType
| NullType
| ByteArrayType (maxlen : Z).

(** [isinstance(typ, BaseType) and typ.typ in btypes].
    Modelled from the spec: [is_base_type] of [viper/types.py]; the second
    argument is a kind or a tuple of kinds. *)
Definition is_base_type (t : option NodeType) (btypes : list string) : bool :=
  match t with
  | Some (BaseType k _ _) => in_strs k btypes
  | _ => false
  end.

(** Modelled from the spec: [is_numeric_type] of [viper/types.py]; the
    numeric kinds are [num] and [decimal], the two that the arithmetic
    branches of [parse_expr] tell apart. *)
Definition is_numeric_type (t : option NodeType) : bool :=
  is_base_type t ["num"; "decimal"].

(** Truth value of a unit: [None] and the empty dict are false. *)
Definition unit_truthy (u : unit_t) : bool :=
  match u with
  | Some m => negb (bool_decide (m = ∅))
  | None => false
  end.

(** [a or b] on units. *)
Definition unit_or (a b : unit_t) : unit_t :=
  if unit_truthy a then a else b.

(** ** The LLL tree *)

Inductive location_t := storage | memory | calldata.

Definition location_eqb (a b : location_t) : bool :=
  match a, b with
  | storage, storage | memory, memory | calldata, calldata => true
  | _, _ => false
  end.

(** Values a node can carry once built. *)
Inductive lll_value :=
| VInt (n : Z)
| VStr (s : string)
| VNone.

Inductive LLLnode := mkLLLnode {
  value : lll_value;
  args : list LLLnode;
  typ : option NodeType;
  location : option location_t;
  valency : Z
}.

(** What the constructor can be handed as [value]. *)
Inductive pyval :=
| PInt (n : Z)
| PStr (s : string)
| PNone
| POther.            (* a float, a list, a node, a tuple, ... *)

(** What [LLLnode.from_list] is handed: a node, a scalar, or a list of
    such. *)
Inductive pyobj :=
| OInt (n : Z)
| OStr (s : string)
| ONone
| OOther             (* a float, a tuple, ... *)
| ONode (n : LLLnode)
| OList (l : list pyobj).

Definition pyval_of (o : pyobj) : pyval :=
  match o with
  | OInt n => PInt n
  | OStr s => PStr s
  | ONone => PNone
  | _ => POther
  end.

(** The [typ] argument of [from_list]: a kind name, a type, or [None]. *)
Inductive typ_arg :=
| TStr (s : string)
| TTyp (t : option NodeType).

(** ** The Python AST, as far as the translator looks at it *)

Module ast.

Inductive operator := Add | Sub | Mult | Div | Mod | OtherOperator.
Inductive cmpop := Gt | GtE | LtE | Lt | Eq | NotEq | OtherCmpop.
Inductive boolop := And | Or.
Inductive unaryop := Not | USub | OtherUnaryop.

(** The [n] of an [ast.Num]: an [int], a [float] (a binary64 number) or
    a [complex]. *)
Inductive number :=
| Int (n : Z)
| Float (f : SpecFloat.spec_float)
| Complex.

(** The [value] of an [ast.NameConstant]. *)
Inductive constant := CTrue | CFalse | CNone.

(** Expressions. [Subscript] carries [inl v] for a slice [Index(v)] and
    [inr d] for a slice without a [value] field; [OtherExpr d] is any
    other expression; [d] is what [ast.dump] prints for it. [LLL] is a
    node already translated, which [parse_stmt] puts into a [BinOp] of
    its own making. *)
Inductive expr :=
| Num (n : number)
| Str (s : string)
| NameConstant (value : constant)
| Name (id : string)
| Attribute (value : expr) (attr : string)
| Subscript (value : expr) (slice : expr + string)
| BinOp (left : expr) (op : operator) (right : expr)
| Compare (left : expr) (ops : list cmpop) (comparators : list expr)
| BoolOp (op : boolop) (values : list expr)
| UnaryOp (op : unaryop) (operand : expr)
| Call (func : expr) (args : list expr)
| List (elts : list expr)
| Dict (keys : list expr) (values : list expr)
| OtherExpr (dump : string)
| LLL (n : LLLnode).

Inductive stmt :=
| Expr (value : expr)
| Pass
| AnnAssign (target : expr) (annotation : expr)
| Assign (targets : list expr) (value : expr)
| If (test : expr) (body : list stmt) (orelse : list stmt)
| Assert (test : expr)
| For (target : expr) (iter : expr) (body : list stmt)
| AugAssign (target : expr) (op : operator) (value : expr)
| Break
| Return (value : option expr)
| OtherStmt.

(** [ast.arg]: a parameter and its annotation, if any. *)
Record arg := mkarg {
  arg_ : string;
  annotation : option expr
}.

(** [ast.FunctionDef]; [args] is [code.args.args]. *)
Record FunctionDef := mkFunctionDef {
  name : string;
  args : list arg;
  returns : option expr;
  body : list stmt
}.

End ast.

(** One record of the opcode tables: [hex, arity, valency, gas]. *)
Record oprecord := mkOp {
  op_hex : option Z;
  op_arity : Z;
  op_valency : Z;
  op_gas : Z
}.

(** [viper/opcodes.py]. *)
Class OpcodesModule := {
  opcodes : gmap string oprecord;
  pseudo_opcodes : gmap string oprecord
}.

(** [viper/types.py], as far as its behaviour is left open here.
    [default_unit] is the unit that [BaseType(kind)] gets when none is
    given; [typ_eq_str] and [typ_ne] are the comparisons [t == 'kind']
    and [t1 != t2] on types (the class's [__eq__]). *)
Class TypesModule := {
  parse_type : ast.expr -> option location_t -> tresult NodeType;
  canonicalize_type : NodeType -> tresult string;
  get_size_of_type : option NodeType -> tresult Z;
  combine_units : unit_t -> unit_t -> bool -> unit_t;
  are_units_compatible : option NodeType -> option NodeType -> bool;
  set_default_units : option NodeType -> option NodeType;
  is_varname_valid : string -> bool;
  default_unit : unit_t;
  typ_eq_str : option NodeType -> string -> bool;
  typ_ne : option NodeType -> option NodeType -> bool
}.

(** The Keccak-256 primitive, [sha3_256]: bytes to digest. *)
Class HashModule := {
  sha3_256 : list Byte.byte -> list Byte.byte
}.

Definition len {A} (l : list A) : Z := Z.of_nat (length l).

Definition is_str (v : lll_value) : bool :=
  match v with VStr _ => true | _ => false end.

Definition is_int (v : lll_value) : bool :=
  match v with VInt _ => true | _ => false end.

Definition int_le0 (v : lll_value) : bool :=
  match v with VInt n => n <=? 0 | _ => false end.

(** [self.args[-1].valency if self.args else 0]. *)
Definition last_valency (l : list LLLnode) : Z :=
  match last l with
  | Some a => valency a
  | None => 0
  end.

Definition sum_valency (l : list LLLnode) : Z :=
  fold_right (fun a acc => valency a + acc) 0 l.

Definition location_of (n : LLLnode) : option location_t := location n.

Definition isinstance_NullType (t : option NodeType) : bool :=
  match t with Some NullType => true | _ => false end.

Section LLL.
Context `{OpcodesModule} `{TypesModule}.

(** [opcodes.get(k, pseudo_opcodes.get(k, None))]; it is looked up only
    when [k in opcodes or k in pseudo_opcodes]. *)
Definition lookup_op (k : string) : option oprecord :=
  match opcodes !! k with
  | Some r => Some r
  | None => pseudo_opcodes !! k
  end.

Definition raise_Exception {A} : result A := Err (PyError Exception_).

(** The arm [elif isinstance(self.value, str)] of [LLLnode.__init__]:
    the valency of a string-valued node after the checks on its
    children. *)
Definition str_valency (s : string) (self_args : list LLLnode) : result Z :=
  match lookup_op (upper s) with
  | Some record =>
      (* Opcodes and pseudo-opcodes (eg. clamp) *)
      let* _ := raise_if (negb (len self_args =? op_arity record)) (PyError Exception_) in
      let* _ := raise_if (existsb (fun arg => valency arg =? 0) self_args) (PyError Exception_) in
      Ok (op_valency record)
  | None =>
      (* If statements *)
      if eqs s "if" then
        let* _ := (if len self_args =? 3 then
                let* a1 := index self_args 1 in let* a2 := index self_args 2 in
                raise_if (negb (valency a1 =? valency a2)) (PyError Exception_)
              else Ok tt) in
        let* _ := (if len self_args =? 2 then
                let* a1 := index self_args 1 in
                raise_if (negb (valency a1 =? 0)) (PyError Exception_)
              else Ok tt) in
        let* a0 := index self_args 0 in
        let* _ := raise_if (valency a0 =? 0) (PyError Exception_) in
        let* _ := raise_if (negb ((len self_args =? 2) || (len self_args =? 3)))
               (PyError Exception_) in
        let* a1 := index self_args 1 in
        Ok (valency a1)
      (* With statements: with <var> <initial> <statement> *)
      else if eqs s "with" then
        let* _ := raise_if (negb (len self_args =? 3)) (PyError Exception_) in
        let* a0 := index self_args 0 in
        let* _ := raise_if (negb (len (args a0) =? 0) || negb (is_str (value a0)))
               (PyError Exception_) in
        let* a1 := index self_args 1 in
        let* _ := raise_if (valency a1 =? 0) (PyError Exception_) in
        let* a2 := index self_args 2 in
        Ok (valency a2)
      (* Repeat statements: repeat <index_memloc> <startval> <rounds> <body> *)
      else if eqs s "repeat" then
        let* a2 := index self_args 2 in
        let* _ := raise_if (negb (len (args a2) =? 0) || negb (is_int (value a2))
                       || int_le0 (value a2)) (PyError Exception_) in
        let* a0 := index self_args 0 in
        let* _ := raise_if (valency a0 =? 0) (PyError Exception_) in
        let* a1 := index self_args 1 in
        let* _ := raise_if (valency a1 =? 0) (PyError Exception_) in
        let* a3 := index self_args 3 in
        let* _ := raise_if (negb (valency a3 =? 0)) (PyError Exception_) in
        Ok 0
      (* Seq statements: seq <statement> <statement> ... *)
      else if eqs s "seq" then
        Ok (last_valency self_args)
      (* Multi statements: multi <expr> <expr> ... *)
      else if eqs s "multi" then
        let* _ := raise_if (existsb (fun arg => valency arg =? 0) self_args)
               (PyError Exception_) in
        Ok (sum_valency self_args)
      (* Variables *)
      else Ok 1
  end.

(** [LLLnode.__init__(self, value, args, typ, location)]. The assertion
    on [typ] holds by typing: [typ] is a [NodeType] or [None]. *)
Definition LLLnode_init (self_value : pyval) (self_args : list LLLnode)
    (self_typ : option NodeType) (self_location : option location_t)
    : result LLLnode :=
  match self_value with
  (* Numbers *)
  | PInt n => Ok (mkLLLnode (VInt n) self_args self_typ self_location 1)
  | PStr s =>
      let* v := str_valency s self_args in
      Ok (mkLLLnode (VStr s) self_args self_typ self_location v)
  | PNone =>
      if isinstance_NullType self_typ
      then Ok (mkLLLnode VNone self_args self_typ self_location 1)
      else raise_Exception
  | POther => raise_Exception
  end.

(** [BaseType(kind)] and [BaseType(kind, unit)].
    Modelled from the spec: the defaults of the constructor in
    [viper/types.py]; [positional] is a flag, false unless given. *)
Definition BaseType1 (kind : string) : NodeType :=
  BaseType kind default_unit false.
Definition BaseType2 (kind : string) (u : unit_t) : NodeType :=
  BaseType kind u false.

Definition typ_of_arg (t : typ_arg) : option NodeType :=
  match t with
  | TStr s => Some (BaseType1 s)
  | TTyp t => t
  end.

(** [LLLnode.from_list(obj, typ, location)]. *)
Fixpoint from_list (obj : pyobj) (typ : typ_arg) (location : option location_t)
    : result LLLnode :=
  let typ := typ_of_arg typ in
  match obj with
  | ONode n => Ok n
  | OList l =>
      match l with
      | [] => Err (PyError IndexError)
      | o0 :: rest =>
          let* xs := mapM (fun o => from_list o (TTyp None) None) rest in
          LLLnode_init (pyval_of o0) xs typ location
      end
  | _ => LLLnode_init (pyval_of obj) [] typ location
  end.

End LLL.

(** [to_list]: the value followed by the children's lists. *)
Inductive lll_list := LList (v : lll_value) (children : list lll_list).

Fixpoint to_list (n : LLLnode) : lll_list :=
  LList (value n) (map to_list (args n)).

(** ** Helpers and constants of [parser.py] *)

Definition byte_int (b : Byte.byte) : Z := Z.of_N (Byte.to_N b).

(** [bytes(s, 'utf-8')]. *)
Definition bytes_of (s : string) : list Byte.byte := String.list_byte_of_string s.

(** Converts four bytes to an integer. *)
Definition fourbytes_to_int (inp : list Byte.byte) : result Z :=
  let* b0 := index inp 0 in
  let* b1 := index inp 1 in
  let* b2 := index inp 2 in
  let* b3 := index inp 3 in
  Ok (Z.shiftl (byte_int b0) 24 + Z.shiftl (byte_int b1) 16
      + Z.shiftl (byte_int b2) 8 + byte_int b3).

Definition hex_digit (c : ascii) : option Z :=
  let n := Z.of_nat (nat_of_ascii c) in
  if (48 <=? n) && (n <=? 57) then Some (n - 48)
  else if (97 <=? n) && (n <=? 102) then Some (n - 87)
  else if (65 <=? n) && (n <=? 70) then Some (n - 55)
  else None.

(** [binascii.unhexlify]: pairs of hexadecimal digits to bytes. *)
Fixpoint unhexlify (s : string) : result (list Z) :=
  match s with
  | EmptyString => Ok []
  | String c1 (String c2 r) =>
      match hex_digit c1, hex_digit c2 with
      | Some h, Some l => let* bs := unhexlify r in Ok (16 * h + l :: bs)
      | _, _ => Err (PyError ValueError)
      end
  | String _ EmptyString => Err (PyError ValueError)
  end.

(** [inp[2:]] when [inp[:2] == '0x']. *)
Definition strip_0x (inp : string) : string :=
  match inp with
  | String "0" (String "x" r) => r
  | _ => inp
  end.

(** Converts a provided hex string to an integer. *)
Definition hex_to_int (inp : string) : result Z :=
  let* bytez := unhexlify (strip_0x inp) in
  Ok (fold_left (fun o b => o * 256 + b) bytez 0).

(** A decimal value can store multiples of 1/DECIMAL_DIVISOR *)
Definition DECIMAL_DIVISOR : Z := 10000000000.

(** Number of bytes in memory used for system purposes, not for variables *)
Definition RESERVED_MEMORY : Z := 256.
Definition ADDRSIZE_POS : Z := 32.
Definition MAXNUM_POS : Z := 64.
Definition MINNUM_POS : Z := 96.
Definition MAXDECIMAL_POS : Z := 128.
Definition MINDECIMAL_POS : Z := 160.

(** *** Float literals

    A Python [float] is a binary64 number. Comparison with an [int] is
    exact, [f * DECIMAL_DIVISOR] converts the integer (exactly) and
    rounds the product to nearest-even, [int(_)] truncates. *)

Definition float_sign (s : bool) (m : Z) : Z := if s then - m else m.

(** [f <= b] and [b <= f] for a float [f] and an integer [b]. *)
Definition float_le_int (f : SpecFloat.spec_float) (b : Z) : bool :=
  match f with
  | SpecFloat.S754_zero _ => 0 <=? b
  | SpecFloat.S754_infinity s => s
  | SpecFloat.S754_nan => false
  | SpecFloat.S754_finite s m e =>
      if 0 <=? e then float_sign s (Z.pos m * 2 ^ e) <=? b
      else float_sign s (Z.pos m) <=? b * 2 ^ (- e)
  end.

Definition int_le_float (b : Z) (f : SpecFloat.spec_float) : bool :=
  match f with
  | SpecFloat.S754_zero _ => b <=? 0
  | SpecFloat.S754_infinity s => negb s
  | SpecFloat.S754_nan => false
  | SpecFloat.S754_finite s m e =>
      if 0 <=? e then b <=? float_sign s (Z.pos m * 2 ^ e)
      else b * 2 ^ (- e) <=? float_sign s (Z.pos m)
  end.

(** [float(DECIMAL_DIVISOR)]: 10^10 = 10^10 * 2^19 * 2^-19, a 53-bit
    mantissa. *)
Definition DECIMAL_DIVISOR_float : SpecFloat.spec_float :=
  SpecFloat.S754_finite false 5242880000000000 (-19).

(** [int(f)] for a finite [f]; infinities and NaN raise. *)
Definition int_of_float (f : SpecFloat.spec_float) : result Z :=
  match f with
  | SpecFloat.S754_zero _ => Ok 0
  | SpecFloat.S754_finite s m e =>
      Ok (float_sign s (if 0 <=? e then Z.pos m * 2 ^ e else Z.pos m / 2 ^ (- e)))
  | _ => Err (PyError ValueError)
  end.

(** [int(expr.n * DECIMAL_DIVISOR)]. *)
Definition float_to_decimal (f : SpecFloat.spec_float) : result Z :=
  int_of_float (SpecFloat.SFmul 53 1024 f DECIMAL_DIVISOR_float).

(** ** The function binder *)

(** What [get_func_details] returns:
    [name, args, output_type, const, sig, method_id]. *)
Record func_details := mkFuncDetails {
  fd_name : string;
  fd_args : list (string * Z * NodeType);
  fd_output_type : option NodeType;
  fd_const : bool;
  fd_sig : string;
  fd_method_id : Z
}.

Definition is_const_name (e : ast.expr) : bool :=
  match e with
  | ast.Name id => eqs id "const"
  | _ => false
  end.

Definition isinstance_output (t : option NodeType) : bool :=
  match t with
  | None | Some (BaseType _ _ _) | Some (ByteArrayType _) => true
  | _ => false
  end.

Section Binder.
Context `{TypesModule} `{HashModule}.

(** The loop over [code.args.args]; [args] is the list built so far and
    [n_all] is [len(code.args.args)]. *)
Fixpoint bind_args (name : string) (n_all : Z) (todo : list ast.arg)
    (args : list (string * Z * NodeType)) : result (list (string * Z * NodeType)) :=
  match todo with
  | [] => Ok args
  | arg :: todo' =>
      match ast.annotation arg with
      | None => Err InvalidTypeException
      | Some typ =>
          let* _ := raise_if (negb (is_varname_valid (ast.arg_ arg)))
                      VariableDeclarationException in
          let* _ := raise_if (in_strs (ast.arg_ arg) (map (fun x => fst (fst x)) args))
                      VariableDeclarationException in
          let* t := lift (parse_type typ None) in
          let entry :=
            if eqs name "__init__"
            then (ast.arg_ arg, -32 * n_all + 32 * len args, t)
            else (ast.arg_ arg, 4 + 32 * len args, t) in
          bind_args name n_all todo' (args ++ [entry])
      end
  end.

(** The return annotation: the output type and the [const] flag. *)
Definition output_of (returns : option ast.expr) : result (option NodeType * bool) :=
  match returns with
  | None => Ok (None, false)
  | Some (ast.Call func args) =>
      let consts := filter (fun a => is_const_name a = true) args in
      let units := filter (fun a => is_const_name a = false) args in
      let* _ := raise_if ((1 <? len consts) || (1 <? len units)) InvalidTypeException in
      let const := len consts =? 1 in
      let typ := match units with [] => func | _ => ast.Call func units end in
      let* output_type := lift (parse_type typ None) in
      Ok (Some output_type, const)
  | Some ((ast.Name _ | ast.Compare _ _ _) as r) =>
      let* output_type := lift (parse_type r None) in
      Ok (Some output_type, false)
  | Some r =>
      let* _ := lift (parse_type r None) in
      Err InvalidTypeException
  end.

(** Get function details *)
Definition get_func_details (code : ast.FunctionDef) : result func_details :=
  let name := ast.name code in
  (* Determine the arguments *)
  let* args := bind_args name (len (ast.args code)) (ast.args code) [] in
  (* Determine the return type and whether or not it's constant *)
  let* (output_type, const) := output_of (ast.returns code) in
  (* Output type can only be base type or none *)
  let* _ := raise_if (negb (isinstance_output output_type)) (PyError AssertionError) in
  (* Get the four-byte method id *)
  let* canon :=
    mapM (fun arg =>
            match ast.annotation arg with
            | Some a => let* t := lift (parse_type a None) in lift (canonicalize_type t)
            | None => Err InvalidTypeException (* the loop above has raised *)
            end) (ast.args code) in
  let sig := name +:+ "(" +:+ join "," canon +:+ ")" in
  let* method_id := fourbytes_to_int (firstn 4 (sha3_256 (bytes_of sig))) in
  Ok (mkFuncDetails name args output_type const sig method_id).

End Binder.

(** ** [ast.dump] equality

    [ast.dump(a) != ast.dump(b)] compares two expressions by their
    printed structure: constructors and fields, without positions. A
    translated node inside prints as its [to_list]. *)

Definition list_eqb {A} (eqb : A -> A -> bool) : list A -> list A -> bool :=
  fix go (l1 l2 : list A) : bool :=
    match l1, l2 with
    | [], [] => true
    | x :: r1, y :: r2 => eqb x y && go r1 r2
    | _, _ => false
    end.

Definition value_eqb (a b : lll_value) : bool :=
  match a, b with
  | VInt x, VInt y => x =? y
  | VStr x, VStr y => eqs x y
  | VNone, VNone => true
  | _, _ => false
  end.

Fixpoint lll_list_eqb (a b : lll_list) : bool :=
  match a, b with
  | LList v1 c1, LList v2 c2 => value_eqb v1 v2 && list_eqb lll_list_eqb c1 c2
  end.

Definition float_eqb (a b : SpecFloat.spec_float) : bool :=
  match a, b with
  | SpecFloat.S754_zero s1, SpecFloat.S754_zero s2 => Bool.eqb s1 s2
  | SpecFloat.S754_infinity s1, SpecFloat.S754_infinity s2 => Bool.eqb s1 s2
  | SpecFloat.S754_nan, SpecFloat.S754_nan => true
  | SpecFloat.S754_finite s1 m1 e1, SpecFloat.S754_finite s2 m2 e2 =>
      Bool.eqb s1 s2 && (Z.pos m1 =? Z.pos m2) && (e1 =? e2)
  | _, _ => false
  end.

Definition number_eqb (a b : ast.number) : bool :=
  match a, b with
  | ast.Int x, ast.Int y => x =? y
  | ast.Float x, ast.Float y => float_eqb x y
  | ast.Complex, ast.Complex => true
  | _, _ => false
  end.

Definition constant_eqb (a b : ast.constant) : bool :=
  match a, b with
  | ast.CTrue, ast.CTrue | ast.CFalse, ast.CFalse | ast.CNone, ast.CNone => true
  | _, _ => false
  end.

Definition operator_eqb (a b : ast.operator) : bool :=
  match a, b with
  | ast.Add, ast.Add | ast.Sub, ast.Sub | ast.Mult, ast.Mult
  | ast.Div, ast.Div | ast.Mod, ast.Mod | ast.OtherOperator, ast.OtherOperator => true
  | _, _ => false
  end.

Definition cmpop_eqb (a b : ast.cmpop) : bool :=
  match a, b with
  | ast.Gt, ast.Gt | ast.GtE, ast.GtE | ast.LtE, ast.LtE | ast.Lt, ast.Lt
  | ast.Eq, ast.Eq | ast.NotEq, ast.NotEq | ast.OtherCmpop, ast.OtherCmpop => true
  | _, _ => false
  end.

Definition boolop_eqb (a b : ast.boolop) : bool :=
  match a, b with
  | ast.And, ast.And | ast.Or, ast.Or => true
  | _, _ => false
  end.

Definition unaryop_eqb (a b : ast.unaryop) : bool :=
  match a, b with
  | ast.Not, ast.Not | ast.USub, ast.USub
  | ast.OtherUnaryop, ast.OtherUnaryop => true
  | _, _ => false
  end.

Fixpoint dump_eqb (a b : ast.expr) {struct a} : bool :=
  match a, b with
  | ast.Num x, ast.Num y => number_eqb x y
  | ast.Str x, ast.Str y => eqs x y
  | ast.NameConstant x, ast.NameConstant y => constant_eqb x y
  | ast.Name x, ast.Name y => eqs x y
  | ast.Attribute v1 a1, ast.Attribute v2 a2 => dump_eqb v1 v2 && eqs a1 a2
  | ast.Subscript v1 s1, ast.Subscript v2 s2 =>
      dump_eqb v1 v2 &&
      match s1, s2 with
      | inl i1, inl i2 => dump_eqb i1 i2
      | inr d1, inr d2 => eqs d1 d2
      | _, _ => false
      end
  | ast.BinOp l1 o1 r1, ast.BinOp l2 o2 r2 =>
      dump_eqb l1 l2 && operator_eqb o1 o2 && dump_eqb r1 r2
  | ast.Compare l1 o1 c1, ast.Compare l2 o2 c2 =>
      dump_eqb l1 l2 && list_eqb cmpop_eqb o1 o2 && list_eqb dump_eqb c1 c2
  | ast.BoolOp o1 v1, ast.BoolOp o2 v2 => boolop_eqb o1 o2 && list_eqb dump_eqb v1 v2
  | ast.UnaryOp o1 e1, ast.UnaryOp o2 e2 => unaryop_eqb o1 o2 && dump_eqb e1 e2
  | ast.Call f1 a1, ast.Call f2 a2 => dump_eqb f1 f2 && list_eqb dump_eqb a1 a2
  | ast.List e1, ast.List e2 => list_eqb dump_eqb e1 e2
  | ast.Dict k1 v1, ast.Dict k2 v2 => list_eqb dump_eqb k1 k2 && list_eqb dump_eqb v1 v2
  | ast.OtherExpr d1, ast.OtherExpr d2 => eqs d1 d2
  | ast.LLL n1, ast.LLL n2 => lll_list_eqb (to_list n1) (to_list n2)
  | _, _ => false
  end.

(** ** The translation context *)

(** An entry of [Context.vars]: a variable's [(pos, typ)], or the
    integer kept under the key [_next_mem]. *)
Inductive var_entry :=
| VarSlot (pos : Z) (typ : option NodeType)
| NextMem (n : Z).

(** Contains arguments, variables, etc *)
Record Context := mkContext {
  ctx_args : gmap string (Z * NodeType);
  vars : gmap string var_entry;
  globals : gmap string (Z * NodeType);
  forvars : gmap string bool;
  return_type : option NodeType;
  is_constant : bool
}.

Definition set_vars (self : Context) (v : gmap string var_entry) : Context :=
  mkContext (ctx_args self) v (globals self) (forvars self)
            (return_type self) (is_constant self).

Definition set_forvars (self : Context) (f : gmap string bool) : Context :=
  mkContext (ctx_args self) (vars self) (globals self) f
            (return_type self) (is_constant self).

(** [k in d]. *)
Definition has_key {V} (d : gmap string V) (k : string) : bool :=
  match d !! k with Some _ => true | None => false end.

(** [get_next_mem]: [self.vars.get('_next_mem', RESERVED_MEMORY)], as
    the integer its callers add to. *)
Definition get_next_mem (self : Context) : result Z :=
  match vars self !! "_next_mem" with
  | None => Ok RESERVED_MEMORY
  | Some (NextMem n) => Ok n
  | Some (VarSlot _ _) => Err (PyError TypeError)
  end.

Definition pyval_of_value (v : lll_value) : pyval :=
  match v with
  | VInt n => PInt n
  | VStr s => PStr s
  | VNone => PNone
  end.

Fixpoint insert_sorted (s : string) (l : list string) : list string :=
  match l with
  | [] => [s]
  | x :: r => if String.leb s x then s :: l else x :: insert_sorted s r
  end.

(** [sorted(l)] on strings. *)
Definition sorted (l : list string) : list string :=
  fold_right insert_sorted [] l.

(** [d[k]] and [d.keys()] on the members of a struct. *)
Fixpoint members_get {V} (d : list (string * V)) (k : string) : option V :=
  match d with
  | [] => None
  | (k', v) :: r => if eqs k k' then Some v else members_get r k
  end.

Definition members_keys {V} (d : list (string * V)) : list string := map fst d.

(** [l.index(k)]. *)
Fixpoint list_index (l : list string) (k : string) : option nat :=
  match l with
  | [] => None
  | x :: r => if eqs x k then Some 0%nat
              else match list_index r k with Some i => Some (S i) | None => None end
  end.

(** The [key] of [add_variable_offset]: a member name or an index node. *)
Inductive offset_key :=
| KStr (s : string)
| KNode (n : LLLnode).

Definition isinstance_StructType (t : option NodeType) : bool :=
  match t with Some (StructType _) => true | _ => false end.

Section Translator.
Context `{OpcodesModule} `{TypesModule}.

Definition new_variable (self : Context) (name : string) (typ : option NodeType)
    : result (Z * Context) :=
  let* _ := raise_if (negb (is_varname_valid name)) VariableDeclarationException in
  let* _ := raise_if (has_key (vars self) name || has_key (ctx_args self) name
                      || has_key (globals self) name) VariableDeclarationException in
  let* pos := get_next_mem self in
  let vars1 := <[name := VarSlot pos typ]> (vars self) in
  let* size := lift (get_size_of_type typ) in
  let vars2 := <["_next_mem" := NextMem (pos + 32 * size)]> vars1 in
  Ok (pos, set_vars self vars2).

(** Unwrap location *)
Definition unwrap_location (orig : LLLnode) : result LLLnode :=
  match location orig with
  | Some memory => from_list (OList [OStr "mload"; ONode orig]) (TTyp (typ orig)) None
  | Some storage => from_list (OList [OStr "sload"; ONode orig]) (TTyp (typ orig)) None
  | Some calldata => from_list (OList [OStr "calldataload"; ONode orig]) (TTyp (typ orig)) None
  | None => Ok orig
  end.

(** Convert from one base type to another *)
Definition base_type_conversion (orig : LLLnode) (frm to : option NodeType)
    : result LLLnode :=
  let* orig := unwrap_location orig in
  match frm, to with
  | Some (BaseType _ _ _ | NullType), Some (BaseType to_typ to_unit to_positional) =>
      if is_base_type frm [to_typ] && are_units_compatible frm to then
        LLLnode_init (pyval_of_value (value orig)) (args orig) to None
      else if is_base_type frm ["num"] && is_base_type to ["decimal"]
              && are_units_compatible frm to then
        from_list (OList [OStr "mul"; ONode orig; OInt DECIMAL_DIVISOR])
                  (TTyp (Some (BaseType "decimal" to_unit to_positional))) None
      else if isinstance_NullType frm then
        let* _ := raise_if (negb (in_strs to_typ
                      ["num"; "bool"; "num256"; "address"; "bytes32"; "decimal"]))
                    TypeMismatchException in
        from_list (OInt 0) (TTyp to) None
      else Err TypeMismatchException
  | _, _ => Err TypeMismatchException
  end.

(** The memory offset of member [index] of a struct: the sizes of the
    members before it, in sorted order. *)
Fixpoint member_offset (members : list (string * option NodeType))
    (attrs : list string) (index : nat) : result Z :=
  match index, attrs with
  | O, _ => Ok 0
  | S i, a :: attrs' =>
      match members_get members a with
      | Some t =>
          let* size := lift (get_size_of_type t) in
          let* rest := member_offset members attrs' i in
          Ok (32 * size + rest)
      | None => Err (PyError KeyError)
      end
  | S _, [] => Err (PyError IndexError)
  end.

(** Take a value representing a storage location, and descend down to an
    element or member variable *)
Definition add_variable_offset (parent : LLLnode) (key : offset_key)
    : result LLLnode :=
  match typ parent with
  | Some (StructType members) =>
      match key with
      | KNode _ => Err TypeMismatchException
      | KStr key =>
          match members_get members key with
          | None => Err TypeMismatchException
          | Some subtype =>
              let attrs := sorted (members_keys members) in
              match list_index attrs key with
              | None => Err (PyError NameError)
              | Some index =>
                  match location parent with
                  | Some storage =>
                      from_list (OList [OStr "add"; OList [OStr "sha3_32"; ONode parent];
                                        OInt (Z.of_nat index)])
                                (TTyp subtype) (Some storage)
                  | Some memory =>
                      let* offset := member_offset members attrs index in
                      from_list (OList [OStr "add"; OInt offset; ONode parent])
                                (TTyp subtype) (Some memory)
                  | _ => Err TypeMismatchException
                  end
              end
          end
      end
  | Some ((ListType _ _ | MappingType _ _) as t) =>
      let* (subtype, sub) :=
        match t, key with
        | _, KStr _ => Err (PyError AttributeError)
        | ListType subtype count, KNode key =>
            let* idx := base_type_conversion key (typ key) (Some (BaseType1 "num")) in
            Ok (subtype, OList [OStr "uclamplt"; ONode idx; OInt count])
        | MappingType keytype valuetype, KNode key =>
            let* k := base_type_conversion key (typ key) (Some keytype) in
            Ok (Some valuetype, ONode k)
        | _, _ => Err TypeMismatchException
        end in
      match location parent with
      | Some storage =>
          from_list (OList [OStr "add"; OList [OStr "sha3_32"; ONode parent]; sub])
                    (TTyp subtype) (Some storage)
      | Some memory =>
          match t with
          | MappingType _ _ => Err TypeMismatchException
          | _ =>
              let* size := lift (get_size_of_type subtype) in
              let offset := 32 * size in
              from_list (OList [OStr "add"; OList [OStr "mul"; OInt offset; sub];
                                ONode parent])
                        (TTyp subtype) (Some memory)
          end
      | _ => Err TypeMismatchException
      end
  | _ => Err TypeMismatchException
  end.

(** *** Expressions *)

(** Numbers (integers or decimals) *)
Definition num_node (n : ast.number) : result LLLnode :=
  match n with
  | ast.Int n =>
      let* _ := raise_if (negb ((- 2 ^ 127 + 1 <=? n) && (n <=? 2 ^ 127 - 1)))
                  (PyError Exception_) in
      from_list (OInt n) (TTyp (Some (BaseType "num" None false))) None
  | ast.Float f =>
      let* _ := raise_if (negb (int_le_float (- 2 ^ 127 + 1) f
                                && float_le_int f (2 ^ 127 - 1)))
                  (PyError Exception_) in
      let* d := float_to_decimal f in
      from_list (OInt d) (TTyp (Some (BaseType "decimal" None false))) None
  | ast.Complex => Err (PyError UnboundLocalError)   (* no arm returns; [o] is unbound *)
  end.

(** Addresses and bytes32 objects *)
Definition str_node (s : string) : result LLLnode :=
  if (len (list_ascii_of_string s) =? 42) && String.prefix "0x" s then
    let* n := hex_to_int s in from_list (OInt n) (TStr "address") None
  else if (len (list_ascii_of_string s) =? 66) && String.prefix "0x" s then
    let* n := hex_to_int s in from_list (OInt n) (TStr "bytes32") None
  else Err (PyError Exception_).

(** True, False, None constants *)
Definition nameconstant_node (v : ast.constant) : result LLLnode :=
  match v with
  | ast.CTrue => from_list (OInt 1) (TStr "bool") None
  | ast.CFalse => from_list (OInt 0) (TStr "bool") None
  | ast.CNone => from_list ONone (TTyp (Some NullType)) None
  end.

Definition isinstance_ByteArrayType (t : NodeType) : bool :=
  match t with ByteArrayType _ => true | _ => false end.

(** Variable names *)
Definition name_node (id : string) (context : Context) : result LLLnode :=
  if eqs id "self" then from_list (OList [OStr "address"]) (TStr "address") None
  else if eqs id "true" then from_list (OInt 1) (TStr "bool") None
  else if eqs id "false" then from_list (OInt 0) (TStr "bool") None
  else if eqs id "null" then from_list ONone (TTyp (Some NullType)) None
  else
    match ctx_args context !! id with
    | Some (dataloc, typ) =>
        let data_decl :=
          if 0 <=? dataloc then OList [OStr "calldataload"; OInt dataloc]
          else OList [OStr "seq";
                      OList [OStr "codecopy"; OInt 192;
                             OList [OStr "sub"; OList [OStr "codesize"]; OInt (- dataloc)];
                             OInt 32];
                      OList [OStr "mload"; OInt 192]] in
        if is_base_type (Some typ) ["num"] then
          from_list (OList [OStr "clamp"; OList [OStr "mload"; OInt MINNUM_POS];
                            data_decl; OList [OStr "mload"; OInt MAXNUM_POS]])
                    (TTyp (Some typ)) None
        else if is_base_type (Some typ) ["bool"] then
          from_list (OList [OStr "uclamplt"; data_decl; OInt 2]) (TTyp (Some typ)) None
        else if is_base_type (Some typ) ["address"] then
          from_list (OList [OStr "uclamplt"; data_decl;
                            OList [OStr "mload"; OInt ADDRSIZE_POS]])
                    (TTyp (Some typ)) None
        else if is_base_type (Some typ) ["num256"; "signed256"; "bytes32"] then
          from_list data_decl (TTyp (Some typ)) None
        else if isinstance_ByteArrayType typ then
          from_list data_decl (TTyp (Some typ)) (Some calldata)
        else Err InvalidTypeException
    | None =>
        match vars context !! id with
        | Some (VarSlot dataloc typ) =>
            from_list (OInt dataloc) (TTyp typ) (Some memory)
        | Some (NextMem _) => Err (PyError TypeError)   (* an int does not unpack *)
        | None => Err VariableDeclarationException
        end
    end.

(** Reserved keywords: [msg.*], [block.*], [tx.*] *)
Definition keyword_node (key : string) : result LLLnode :=
  if eqs key "msg.sender" then from_list (OList [OStr "caller"]) (TStr "address") None
  else if eqs key "msg.value" then
    from_list (OList [OStr "callvalue"])
              (TTyp (Some (BaseType2 "num" (Some {[ "wei" := 1 ]})))) None
  else if eqs key "block.difficulty" then
    from_list (OList [OStr "difficulty"]) (TStr "num") None
  else if eqs key "block.timestamp" then
    from_list (OList [OStr "timestamp"])
              (TTyp (Some (BaseType "num" (Some {[ "sec" := 1 ]}) true))) None
  else if eqs key "block.coinbase" then
    from_list (OList [OStr "coinbase"]) (TStr "address") None
  else if eqs key "block.number" then
    from_list (OList [OStr "number"]) (TStr "num") None
  else if eqs key "tx.origin" then
    from_list (OList [OStr "origin"]) (TStr "address") None
  else Err (PyError Exception_).

(** [t.typ], [t.unit] and [t.positional] of a node's type; only a
    [BaseType] has them. *)
Definition typ_typ (t : option NodeType) : result string :=
  match t with Some (BaseType k _ _) => Ok k | _ => Err (PyError AttributeError) end.
Definition typ_unit (t : option NodeType) : result unit_t :=
  match t with Some (BaseType _ u _) => Ok u | _ => Err (PyError AttributeError) end.
Definition typ_positional (t : option NodeType) : result bool :=
  match t with Some (BaseType _ _ p) => Ok p | _ => Err (PyError AttributeError) end.

(** [a != b] on units. *)
Definition unit_ne (a b : unit_t) : bool := negb (bool_decide (a = b)).

Definition is_None {A} (o : option A) : bool :=
  match o with None => true | Some _ => false end.

(** Arithmetic operations: the arm [isinstance(expr, ast.BinOp)], after
    both operands have been translated, up to the node [o]. *)
Definition binop_node (op : ast.operator) (left right : LLLnode) : result LLLnode :=
  let* _ := raise_if (negb (is_numeric_type (typ left)) || negb (is_numeric_type (typ right)))
              (PyError UnboundLocalError) (* the message reads [typ], never assigned *) in
  let* ltyp := typ_typ (typ left) in
  let* rtyp := typ_typ (typ right) in
  let* lunit := typ_unit (typ left) in
  let* runit := typ_unit (typ right) in
  let* lpos := typ_positional (typ left) in
  let* rpos := typ_positional (typ right) in
  match op with
  | ast.Add | ast.Sub =>
      let* _ := raise_if (unit_ne lunit runit && negb (is_None lunit) && negb (is_None runit))
                  TypeMismatchException in
      let* _ := raise_if (lpos && rpos && match op with ast.Add => true | _ => false end)
                  TypeMismatchException in
      let new_unit := unit_or lunit runit in
      let new_positional := xorb lpos rpos in
        (* xor, as subtracting two positionals gives a delta *)
      let op := match op with ast.Add => "add" | _ => "sub" end in
      if eqs ltyp rtyp then
        from_list (OList [OStr op; ONode left; ONode right])
                  (TTyp (Some (BaseType ltyp new_unit new_positional))) None
      else if eqs ltyp "num" && eqs rtyp "decimal" then
        from_list (OList [OStr op; OList [OStr "mul"; ONode left; OInt DECIMAL_DIVISOR];
                          ONode right])
                  (TTyp (Some (BaseType "decimal" new_unit new_positional))) None
      else if eqs ltyp "decimal" && eqs rtyp "num" then
        from_list (OList [OStr op; ONode left;
                          OList [OStr "mul"; ONode right; OInt DECIMAL_DIVISOR]])
                  (TTyp (Some (BaseType "decimal" new_unit new_positional))) None
      else Err (PyError Exception_)
  | ast.Mult =>
      let* _ := raise_if (lpos || rpos) TypeMismatchException in
      let new_unit := combine_units lunit runit false in
      if eqs ltyp rtyp && eqs rtyp "num" then
        from_list (OList [OStr "mul"; ONode left; ONode right])
                  (TTyp (Some (BaseType2 "num" new_unit))) None
      else if eqs ltyp rtyp && eqs rtyp "decimal" then
        from_list
          (OList [OStr "with"; OStr "r"; ONode right;
             OList [OStr "with"; OStr "l"; ONode left;
               OList [OStr "with"; OStr "ans"; OList [OStr "mul"; OStr "l"; OStr "r"];
                 OList [OStr "seq";
                   OList [OStr "assert";
                     OList [OStr "or";
                       OList [OStr "eq"; OList [OStr "sdiv"; OStr "ans"; OStr "l"]; OStr "r"];
                       OList [OStr "not"; OStr "l"]]];
                   OList [OStr "sdiv"; OStr "ans"; OInt DECIMAL_DIVISOR]]]]])
          (TTyp (Some (BaseType2 "decimal" new_unit))) None
      else if (eqs ltyp "num" && eqs rtyp "decimal")
              || (eqs ltyp "decimal" && eqs rtyp "num") then
        from_list
          (OList [OStr "with"; OStr "r"; ONode right;
             OList [OStr "with"; OStr "l"; ONode left;
               OList [OStr "with"; OStr "ans"; OList [OStr "mul"; OStr "l"; OStr "r"];
                 OList [OStr "seq";
                   OList [OStr "assert";
                     OList [OStr "or";
                       OList [OStr "eq"; OList [OStr "sdiv"; OStr "ans"; OStr "l"]; OStr "r"];
                       OList [OStr "not"; OStr "l"]]];
                   OStr "ans"]]]])
          (TTyp (Some (BaseType2 "decimal" new_unit))) None
      else Err (PyError UnboundLocalError)   (* [o] is unbound *)
  | ast.Div =>
      let* _ := raise_if (lpos || rpos) TypeMismatchException in
      let new_unit := combine_units lunit runit true in
      if eqs rtyp "num" then
        from_list (OList [OStr "sdiv"; ONode left; OList [OStr "clamp_nonzero"; ONode right]])
                  (TTyp (Some (BaseType2 ltyp new_unit))) None
      else if eqs ltyp rtyp && eqs rtyp "decimal" then
        from_list
          (OList [OStr "with"; OStr "l"; ONode left;
             OList [OStr "with"; OStr "r"; OList [OStr "clamp_nonzero"; ONode right];
               OList [OStr "sdiv"; OList [OStr "mul"; OStr "l"; OInt DECIMAL_DIVISOR];
                      OStr "r"]]])
          (TTyp (Some (BaseType2 "decimal" new_unit))) None
      else if eqs ltyp "num" && eqs rtyp "decimal" then
        from_list (OList [OStr "sdiv";
                          OList [OStr "mul"; ONode left; OInt (DECIMAL_DIVISOR ^ 2)];
                          OList [OStr "clamp_nonzero"; ONode right]])
                  (TTyp (Some (BaseType2 "decimal" new_unit))) None
      else Err (PyError UnboundLocalError)
  | ast.Mod =>
      let* _ := raise_if (lpos || rpos) TypeMismatchException in
      let* _ := raise_if (unit_ne lunit runit && negb (is_None lunit) && negb (is_None runit))
                  TypeMismatchException in
      let new_unit := unit_or lunit runit in
      if eqs ltyp rtyp then
        from_list (OList [OStr "smod"; ONode left; OList [OStr "clamp_nonzero"; ONode right]])
                  (TTyp (Some (BaseType2 ltyp new_unit))) None
      else if eqs ltyp "decimal" && eqs rtyp "num" then
        from_list (OList [OStr "smod"; ONode left;
                          OList [OStr "mul"; OList [OStr "clamp_nonzero"; ONode right];
                                 OInt DECIMAL_DIVISOR]])
                  (TTyp (Some (BaseType2 "decimal" new_unit))) None
      else if eqs ltyp "num" && eqs rtyp "decimal" then
        from_list (OList [OStr "smod"; OList [OStr "mul"; ONode left; OInt DECIMAL_DIVISOR];
                          ONode right])
                  (TTyp (Some (BaseType2 "decimal" new_unit))) None
      else Err (PyError UnboundLocalError)
  | ast.OtherOperator => Err (PyError Exception_)
  end.

(** Comparison operations, after both operands have been translated. *)
Definition compare_node (ops : list ast.cmpop) (left right : LLLnode) : result LLLnode :=
  let* _ := raise_if (negb (are_units_compatible (typ left) (typ right))
                      && negb (are_units_compatible (typ right) (typ left)))
              TypeMismatchException in
  let* _ := raise_if (negb (len ops =? 1)) StructureException in
  let* op :=
    match ops with
    | ast.Gt :: _ => Ok "sgt"
    | ast.GtE :: _ => Ok "sge"
    | ast.LtE :: _ => Ok "sle"
    | ast.Lt :: _ => Ok "slt"
    | ast.Eq :: _ => Ok "eq"
    | ast.NotEq :: _ => Ok "ne"
    | _ => Err (PyError Exception_)
    end in
  let* _ := raise_if ((negb (is_numeric_type (typ left)) || negb (is_numeric_type (typ right)))
                      && negb (in_strs op ["eq"; "ne"]))
              (PyError UnboundLocalError) (* the message reads [typ], never assigned *) in
  let* ltyp := typ_typ (typ left) in
  let* rtyp := typ_typ (typ right) in
  if eqs ltyp rtyp then
    from_list (OList [OStr op; ONode left; ONode right]) (TStr "bool") None
  else if eqs ltyp "decimal" && eqs rtyp "num" then
    from_list (OList [OStr op; ONode left;
                      OList [OStr "mul"; ONode right; OInt DECIMAL_DIVISOR]])
              (TStr "bool") None
  else if eqs ltyp "num" && eqs rtyp "decimal" then
    from_list (OList [OStr op; OList [OStr "mul"; ONode left; OInt DECIMAL_DIVISOR];
                      ONode right])
              (TStr "bool") None
  else Err TypeMismatchException.

(** Boolean logical operations, after both operands have been translated. *)
Definition boolop_node (op : ast.boolop) (left right : LLLnode) : result LLLnode :=
  let* _ := raise_if (negb (is_base_type (typ left) ["bool"])
                      || negb (is_base_type (typ right) ["bool"]))
              TypeMismatchException in
  let op := match op with ast.And => "and" | ast.Or => "or" end in
  from_list (OList [OStr op; ONode left; ONode right]) (TStr "bool") None.

(** Unary operations (only "not" supported) *)
Definition unaryop_node (op : ast.unaryop) (operand : LLLnode) : result LLLnode :=
  match op with
  | ast.Not =>
      (* Note that in the case of bool, num, address, decimal, num256 AND bytes32,
         a zero entry represents false, all others represent true *)
      from_list (OList [OStr "iszero"; ONode operand]) (TStr "bool") None
  | ast.USub =>
      let* _ := raise_if (negb (is_numeric_type (typ operand))) TypeMismatchException in
      from_list (OList [OStr "sub"; OInt 0; ONode operand]) (TTyp (typ operand)) None
  | ast.OtherUnaryop => Err (PyError Exception_)
  end.

(** [floor(x)], [decimal(x)] and [as_number(x)], after [x] has been
    translated. *)
Definition floor_node (sub : LLLnode) : result LLLnode :=
  if is_base_type (typ sub) ["num"; "num256"; "signed256"] then Ok sub
  else if is_base_type (typ sub) ["decimal"] then
    let* u := typ_unit (typ sub) in
    let* p := typ_positional (typ sub) in
    from_list (OList [OStr "sdiv"; ONode sub; OInt DECIMAL_DIVISOR])
              (TTyp (Some (BaseType "num" u p))) None
  else Err TypeMismatchException.

Definition decimal_node (sub : LLLnode) : result LLLnode :=
  if is_base_type (typ sub) ["decimal"] then Ok sub
  else if is_base_type (typ sub) ["num"] then
    let* u := typ_unit (typ sub) in
    let* p := typ_positional (typ sub) in
    from_list (OList [OStr "mul"; ONode sub; OInt DECIMAL_DIVISOR])
              (TTyp (Some (BaseType "decimal" u p))) None
  else Err TypeMismatchException.

Definition as_number_node (sub : LLLnode) : result LLLnode :=
  if is_base_type (typ sub) ["num"; "decimal"] then
    let* k := typ_typ (typ sub) in
    LLLnode_init (pyval_of_value (value sub)) (args sub)
                 (Some (BaseType2 k (Some ∅))) None
  else Err TypeMismatchException.

(** The element type of a list literal: the running [out_type] while
    the elements [o] are appended; [seen] is [len(o)] so far. *)
Fixpoint list_out_type (seen : Z) (out_type : option NodeType) (o : list LLLnode)
    : option NodeType :=
  match o with
  | [] => out_type
  | n :: o' =>
      let seen := seen + 1 in
      let out_type :=
        if is_None out_type then typ n
        else if (1 <? seen) && typ_ne (typ n) out_type then Some MixedType
        else out_type in
      list_out_type seen out_type o'
  end.

(** Clamp based on variable type: the end of [parse_expr], reached by
    the arithmetic, comparison, boolean and unary arms with their node
    [o]. *)
Definition clamp_by_type (o : LLLnode) : result LLLnode :=
  if is_None (location o) && typ_eq_str (typ o) "bool" then Ok o
  else if is_None (location o) && typ_eq_str (typ o) "num" then
    from_list (OList [OStr "clamp"; OList [OStr "mload"; OInt MINNUM_POS]; ONode o;
                      OList [OStr "mload"; OInt MAXNUM_POS]])
              (TStr "num") None
  else if is_None (location o) && typ_eq_str (typ o) "decimal" then
    from_list (OList [OStr "clamp"; OList [OStr "mload"; OInt MINDECIMAL_POS]; ONode o;
                      OList [OStr "mload"; OInt MAXDECIMAL_POS]])
              (TStr "decimal") None
  else Ok o.

Definition is_Name_valid (key : ast.expr) : option string :=
  match key with
  | ast.Name id => if is_varname_valid id then Some id else None
  | _ => None
  end.

(** The loop over the items of a dict literal; [o] holds the members
    translated so far, in the order of the source. *)
Definition dict_loop (parse : ast.expr -> result LLLnode)
    : list ast.expr -> list ast.expr -> list (string * LLLnode)
      -> result (list (string * LLLnode)) :=
  fix loop (keys values : list ast.expr) (o : list (string * LLLnode))
      {struct values} : result (list (string * LLLnode)) :=
    match keys, values with
    | key :: keys', value :: values' =>
        match is_Name_valid key with
        | None => Err TypeMismatchException
        | Some id =>
            let* _ := raise_if (in_strs id (members_keys o)) TypeMismatchException in
            let* n := parse value in
            loop keys' values' (o ++ [(id, n)])
        end
    | _, _ => Ok o
    end.

(** Parse an expression *)
Fixpoint parse_expr (expr : ast.expr) (context : Context) {struct expr}
    : result LLLnode :=
  (* Parse an expression that results in a value *)
  let parse_value_expr e :=
    let* o := parse_expr e context in unwrap_location o in
  (* Parse an expression that represents an address in memory or storage *)
  let parse_variable_location e :=
    let* o := parse_expr e context in
    let* _ := raise_if (is_None (location o)) (PyError Exception_) in
    Ok o in
  match expr with
  | ast.LLL n => Ok n
  | ast.Num n => num_node n
  | ast.Str s => str_node s
  | ast.NameConstant v => nameconstant_node v
  | ast.Name id => name_node id context
  (* x.y or x[5] *)
  | ast.Attribute value attr =>
      let member :=
        let* sub := parse_variable_location value in
        match typ sub with
        | Some (StructType members) =>
            let attrs := sorted (members_keys members) in
            let* _ := raise_if (negb (in_strs attr attrs)) TypeMismatchException in
            add_variable_offset sub (KStr attr)
        | _ => Err TypeMismatchException
        end in
      (* x.balance: balance of address x *)
      if eqs attr "balance" then
        let* addr := parse_value_expr value in
        let* _ := raise_if (negb (is_base_type (typ addr) ["address"]))
                    TypeMismatchException in
        from_list (OList [OStr "balance"; ONode addr])
                  (TTyp (Some (BaseType2 "num" (Some {[ "wei" := 1 ]})))) None
      else
        match value with
        | ast.Name id =>
            (* self.x: global attribute *)
            if eqs id "self" then
              match globals context !! attr with
              | None => Err VariableDeclarationException
              | Some (pos, typ) => from_list (OInt pos) (TTyp (Some typ)) (Some storage)
              end
            (* Reserved keywords *)
            else if in_strs id ["msg"; "block"; "tx"] then
              keyword_node (id +:+ "." +:+ attr)
            (* Other variables *)
            else member
        | _ => member
        end
  | ast.Subscript value slice =>
      let* sub := parse_variable_location value in
      match slice with
      | inr _ => Err StructureException
      | inl v =>
          let* index := parse_value_expr v in
          add_variable_offset sub (KNode index)
      end
  (* Arithmetic operations *)
  | ast.BinOp l op r =>
      let* left_ := parse_value_expr l in
      let* right_ := parse_value_expr r in
      let* o := binop_node op left_ right_ in
      clamp_by_type o
  (* Comparison operations *)
  | ast.Compare l ops comparators =>
      let* left_ := parse_value_expr l in
      let* right_ :=
        match comparators with
        | c :: _ => parse_value_expr c
        | [] => Err (PyError IndexError)
        end in
      let* o := compare_node ops left_ right_ in
      clamp_by_type o
  (* Boolean logical operations *)
  | ast.BoolOp op values =>
      match values with
      | [l; r] =>
          let* left_ := parse_value_expr l in
          let* right_ := parse_value_expr r in
          let* o := boolop_node op left_ right_ in
          clamp_by_type o
      | _ => Err StructureException
      end
  | ast.UnaryOp op operand =>
      let* operand := parse_value_expr operand in
      let* o := unaryop_node op operand in
      clamp_by_type o
  (* Function calls *)
  | ast.Call func args =>
      match func with
      | ast.Name id =>
          if eqs id "floor" then
            match args with
            | [a] => let* sub := parse_value_expr a in floor_node sub
            | _ => Err StructureException
            end
          else if eqs id "decimal" then
            match args with
            | [a] => let* sub := parse_value_expr a in decimal_node sub
            | _ => Err StructureException
            end
          else if eqs id "as_number" then
            match args with
            | a :: _ => let* sub := parse_value_expr a in as_number_node sub
            | [] => Err (PyError IndexError)
            end
          else Err (PyError Exception_)
      | _ => Err (PyError Exception_)
      end
  | ast.List elts =>
      let* _ := raise_if (len elts =? 0) StructureException in
      let* o := mapM (fun elt => parse_expr elt context) elts in
      let out_type := list_out_type 0 None o in
      from_list (OList (OStr "multi" :: map ONode o))
                (TTyp (Some (ListType out_type (len o)))) None
  | ast.Dict keys values =>
      let* o := dict_loop (fun value => parse_expr value context) keys values [] in
      let members := map (fun kv => (fst kv, typ (snd kv))) o in
      let* nodes :=
        mapM (fun key => match members_get o key with
                         | Some n => Ok (ONode n)
                         | None => Err (PyError KeyError)
                         end) (sorted (members_keys o)) in
      from_list (OList (OStr "multi" :: nodes)) (TTyp (Some (StructType members))) None
  | ast.OtherExpr _ => Err (PyError Exception_)
  end.

(** Parse an expression that represents an address in memory or storage *)
Definition parse_variable_location (expr : ast.expr) (context : Context)
    : result LLLnode :=
  let* o := parse_expr expr context in
  let* _ := raise_if (is_None (location o)) (PyError Exception_) in
  Ok o.

(** Parse an expression that results in a value *)
Definition parse_value_expr (expr : ast.expr) (context : Context) : result LLLnode :=
  let* o := parse_expr expr context in
  unwrap_location o.

(** *** Setters *)

Definition obj_of (o : option LLLnode) : pyobj :=
  match o with
  | Some n => ONode n
  | None => ONone
  end.

(** [range(n)]. *)
Definition range (n : Z) : list Z := map Z.of_nat (seq 0 (Z.to_nat n)).

Definition value_is (n : LLLnode) (s : string) : bool :=
  match value n with VStr s' => eqs s' s | _ => false end.

(** Nesting depth of a type: the recursion of [make_setter] follows it. *)
Fixpoint type_depth (t : NodeType) : nat :=
  match t with
  | ListType (Some sub) _ => S (type_depth sub)
  | StructType members =>
      S ((fix go (l : list (string * option NodeType)) : nat :=
            match l with
            | [] => O
            | (_, Some t') :: r => Nat.max (type_depth t') (go r)
            | (_, None) :: r => go r
            end) members)
  | _ => O
  end.

(** Create an x=y statement, where the types may be compound. The
    function calls itself on the elements of [left], whose types are
    the components of [left.typ]; [fuel] bounds the depth of these
    calls. It returns [None] where the source falls off its last arm. *)
Fixpoint make_setter_fuel (fuel : nat) (left right : LLLnode)
    (location : option location_t) : result (option LLLnode) :=
  match fuel with
  | O => Err (PyError RecursionError)
  | S fuel =>
      let num_lit i := from_list (OInt i) (TStr "num") None in
      let null_lit := from_list ONone (TTyp (Some NullType)) None in
      match typ left with
      (* Basic types *)
      | Some (BaseType _ _ _) =>
          let* right := base_type_conversion right (typ right) (typ left) in
          match location with
          | Some storage =>
              let* n := from_list (OList [OStr "sstore"; ONode left; ONode right])
                          (TTyp None) None in Ok (Some n)
          | Some memory =>
              let* n := from_list (OList [OStr "mstore"; ONode left; ONode right])
                          (TTyp None) None in Ok (Some n)
          | _ => Ok None
          end
      (* Can't copy mappings *)
      | Some (MappingType _ _) => Err TypeMismatchException
      (* Arrays *)
      | Some (ListType _ left_count) =>
          (* Cannot do something like [a, b, c] = [1, 2, 3] *)
          let* _ := raise_if (value_is left "multi") (PyError Exception_) in
          let* right_count :=
            match typ right with
            | Some (ListType _ c) => Ok (Some c)
            | Some NullType => Ok None
            | _ => Err TypeMismatchException
            end in
          let* left_token := from_list (OStr "_L") (TTyp (typ left)) (location_of left) in
          (* Type checks *)
          let* _ := raise_if (match right_count with
                              | Some c => negb (left_count =? c)
                              | None => false
                              end) TypeMismatchException in
          (* If the right side is a literal *)
          if value_is right "multi" then
            let* _ := raise_if (negb (len (args right) =? left_count))
                        TypeMismatchException in
            let* subs :=
              mapM (fun i =>
                      let* k := num_lit i in
                      let* l := add_variable_offset left_token (KNode k) in
                      let* r := index (args right) (Z.to_nat i) in
                      make_setter_fuel fuel l r location) (range left_count) in
            let* n := from_list (OList [OStr "with"; OStr "_L"; ONode left;
                                        OList (OStr "seq" :: map obj_of subs)])
                        (TTyp None) None in Ok (Some n)
          (* If the right side is a null *)
          else if isinstance_NullType (typ right) then
            let* subs :=
              mapM (fun i =>
                      let* k := num_lit i in
                      let* l := add_variable_offset left_token (KNode k) in
                      let* r := null_lit in
                      make_setter_fuel fuel l r location) (range left_count) in
            let* n := from_list (OList [OStr "with"; OStr "_L"; ONode left;
                                        OList (OStr "seq" :: map obj_of subs)])
                        (TTyp None) None in Ok (Some n)
          (* If the right side is a variable *)
          else
            let* right_token := from_list (OStr "_R") (TTyp (typ right))
                                  (location_of right) in
            let* subs :=
              mapM (fun i =>
                      let* k := num_lit i in
                      let* l := add_variable_offset left_token (KNode k) in
                      let* k' := num_lit i in
                      let* r := add_variable_offset right_token (KNode k') in
                      make_setter_fuel fuel l r location) (range left_count) in
            let* n := from_list (OList [OStr "with"; OStr "_L"; ONode left;
                                   OList [OStr "with"; OStr "_R"; ONode right;
                                          OList (OStr "seq" :: map obj_of subs)]])
                        (TTyp None) None in Ok (Some n)
      (* Structs *)
      | Some (StructType left_members) =>
          let* _ := raise_if (value_is left "multi") (PyError Exception_) in
          let left_keys := sorted (members_keys left_members) in
          let* _ :=
            match typ right with
            | Some NullType => Ok tt
            | Some (StructType right_members) =>
                raise_if (negb (bool_decide
                                  (left_keys = sorted (members_keys right_members))))
                         TypeMismatchException
            | _ => Err TypeMismatchException
            end in
          let* left_token := from_list (OStr "_L") (TTyp (typ left)) (location_of left) in
          (* If the right side is a literal *)
          if value_is right "multi" then
            let* _ := raise_if (negb (len (args right) =? len (members_keys left_members)))
                        TypeMismatchException in
            let* subs :=
              mapM (fun it : nat * string =>
                      let* l := add_variable_offset left_token (KStr (snd it)) in
                      let* r := index (args right) (fst it) in
                      make_setter_fuel fuel l r location)
                   (imap (fun i typ => (i, typ)) left_keys) in
            let* n := from_list (OList [OStr "with"; OStr "_L"; ONode left;
                                        OList (OStr "seq" :: map obj_of subs)])
                        (TTyp None) None in Ok (Some n)
          (* If the right side is a null *)
          else if isinstance_NullType (typ right) then
            let* subs :=
              mapM (fun typ =>
                      let* l := add_variable_offset left_token (KStr typ) in
                      let* r := null_lit in
                      make_setter_fuel fuel l r location) left_keys in
            let* n := from_list (OList [OStr "with"; OStr "_L"; ONode left;
                                        OList (OStr "seq" :: map obj_of subs)])
                        (TTyp None) None in Ok (Some n)
          (* If the right side is a variable *)
          else
            let* right_token := from_list (OStr "_R") (TTyp (typ right))
                                  (location_of right) in
            let* subs :=
              mapM (fun typ =>
                      let* l := add_variable_offset left_token (KStr typ) in
                      let* r := add_variable_offset right_token (KStr typ) in
                      make_setter_fuel fuel l r location) left_keys in
            let* n := from_list (OList [OStr "with"; OStr "_L"; ONode left;
                                   OList [OStr "with"; OStr "_R"; ONode right;
                                          OList (OStr "seq" :: map obj_of subs)]])
                        (TTyp None) None in Ok (Some n)
      | _ => Ok None
      end
  end.

Definition make_setter (left right : LLLnode) (location : option location_t)
    : result (option LLLnode) :=
  make_setter_fuel
    (S (match typ left with Some t => type_depth t | None => O end))
    left right location.

(** *** Statements *)

(** Calls: the arm [isinstance(stmt, ast.Call)] of [parse_stmt]. It
    returns [None] for a call to any other name. *)
Definition call_stmt (func : ast.expr) (args : list ast.expr) (context : Context)
    : result (option LLLnode) :=
  match func with
  | ast.Name id =>
      if eqs id "send" then
        let* _ := raise_if (is_constant context) ConstancyViolationException in
        let* _ := raise_if (negb (len args =? 2)) (PyError Exception_) in
        let* a0 := index args 0 in
        let* to := parse_value_expr a0 context in
        let* _ := raise_if (negb (is_base_type (typ to) ["address"]))
                    TypeMismatchException in
        let* a1 := index args 1 in
        let* value := parse_value_expr a1 context in
        let* _ := raise_if (negb (is_base_type (typ value) ["num"; "num256"]))
                    TypeMismatchException in
        let* n := from_list (OList [OStr "pop";
                               OList [OStr "call"; OInt 0; ONode to; ONode value;
                                      OInt 0; OInt 0; OInt 0; OInt 0]])
                    (TTyp None) None in
        Ok (Some n)
      else if in_strs id ["suicide"; "selfdestruct"] then
        let* _ := raise_if (negb (len args =? 1)) (PyError Exception_) in
        let* _ := raise_if (is_constant context) ConstancyViolationException in
        let* a0 := index args 0 in
        let* sub := parse_value_expr a0 context in
        let* _ := raise_if (negb (is_base_type (typ sub) ["address"]))
                    TypeMismatchException in
        let* n := from_list (OList [OStr "selfdestruct"; ONode sub]) (TTyp None) None in
        Ok (Some n)
      else Ok None
  | _ => Err (PyError Exception_)
  end.

Definition is_storage (l : option location_t) : bool :=
  match l with Some storage => true | _ => false end.

(** Assignment (eg. x[4] = y) *)
Definition assign_stmt (targets : list ast.expr) (value : ast.expr) (context : Context)
    : result (option LLLnode * Context) :=
  let* _ := raise_if (negb (len targets =? 1)) StructureException in
  let* sub := parse_expr value context in
  let* target0 := index targets 0 in
  let old :=
    let* target := parse_variable_location target0 context in
    let* _ := raise_if (is_storage (location target) && is_constant context)
                ConstancyViolationException in
    let* o := make_setter target sub (location target) in
    Ok (o, context) in
  match target0 with
  | ast.Name id =>
      if negb (has_key (vars context) id) then
        let* (pos, context) := new_variable context id (set_default_units (typ sub)) in
        let* l := from_list (OInt pos) (TTyp (typ sub)) (Some memory) in
        let* o := make_setter l sub (Some memory) in
        Ok (o, context)
      else old
  | _ => old
  end.

Definition isinstance_BaseType (t : option NodeType) : bool :=
  match t with Some (BaseType _ _ _) => true | _ => false end.

(** Return statement *)
Definition return_stmt (value : option ast.expr) (context : Context)
    : result (option LLLnode) :=
  match return_type context, value with
  | None, Some _ => Err TypeMismatchException
  | None, None =>
      let* n := from_list (OList [OStr "return"; OInt 0; OInt 0]) (TTyp None) None in
      Ok (Some n)
  | Some _, None => Err TypeMismatchException
  | Some rt, Some value =>
      let* sub := parse_expr value context in
      match typ sub with
      (* Returning a value (most common case) *)
      | Some (BaseType _ _ _) =>
          match rt with
          | BaseType rt_typ _ _ =>
              let* sub := unwrap_location sub in
              if negb (are_units_compatible (typ sub) (Some rt)) then
                Err TypeMismatchException
              else if is_base_type (typ sub) [rt_typ]
                      || (is_base_type (typ sub) ["num"]
                          && is_base_type (Some rt) ["signed256"]) then
                let* n := from_list (OList [OStr "seq";
                                       OList [OStr "mstore"; OInt 0; ONode sub];
                                       OList [OStr "return"; OInt 0; OInt 32]])
                            (TTyp None) None in
                Ok (Some n)
              else if is_base_type (typ sub) ["num"]
                      && is_base_type (Some rt) ["num256"] then
                let* n := from_list (OList [OStr "seq";
                                       OList [OStr "mstore"; OInt 0; ONode sub];
                                       OList [OStr "assert";
                                         OList [OStr "iszero";
                                           OList [OStr "lt"; OList [OStr "mload"; OInt 0];
                                                  OInt 0]]];
                                       OList [OStr "return"; OInt 0; OInt 32]])
                            (TTyp None) None in
                Ok (Some n)
              else Err TypeMismatchException
          | _ => Err TypeMismatchException
          end
      (* Returning a byte array *)
      | Some (ByteArrayType sub_maxlen) =>
          match rt with
          | ByteArrayType rt_maxlen =>
              let* _ := raise_if (rt_maxlen <? sub_maxlen) TypeMismatchException in
              match location sub with
              | Some calldata =>
                  let* m1 := get_next_mem context in
                  let* m2 := get_next_mem context in
                  let* m3 := get_next_mem context in
                  let* n := from_list
                    (OList [OStr "with"; OStr "_pos"; OList [OStr "add"; OInt 4; ONode sub];
                       OList [OStr "with"; OStr "_len";
                         OList [OStr "ceil32";
                           OList [OStr "add"; OList [OStr "calldataload"; OStr "_pos"];
                                  OInt 32]];
                         OList [OStr "seq";
                           OList [OStr "assert"; OList [OStr "lt"; OStr "_len";
                                                        OInt sub_maxlen]];
                           OList [OStr "mstore"; OInt m1; OInt 32];
                           OList [OStr "calldatacopy"; OInt (m2 + 32); OStr "_pos";
                                  OStr "_len"];
                           OList [OStr "return"; OInt m3;
                                  OList [OStr "add"; OStr "_len"; OInt 32]]]]])
                    (TTyp None) None in
                  Ok (Some n)
              | Some memory =>
                  let* n := from_list
                    (OList [OStr "with"; OStr "_loc"; ONode sub;
                       OList [OStr "seq";
                         OList [OStr "mstore"; OList [OStr "sub"; OStr "_loc"; OInt 32];
                                OInt 32];
                         OList [OStr "return"; OList [OStr "sub"; OStr "_loc"; OInt 32];
                                OList [OStr "add"; OList [OStr "mload"; ONode sub];
                                       OInt 32]]]])
                    (TTyp None) None in
                  Ok (Some n)
              | Some storage => Err (PyError Exception_)
              | None => Err (PyError Exception_)
              end
          | _ => Err TypeMismatchException
          end
      | _ => Err TypeMismatchException
      end
  end.

(** [n] as the element of a list handed to [from_list], and [b - a]. *)
Definition number_obj (n : ast.number) : pyobj :=
  match n with ast.Int z => OInt z | _ => OOther end.
Definition number_sub (b a : ast.number) : pyobj :=
  match b, a with ast.Int y, ast.Int x => OInt (y - x) | _, _ => OOther end.

(** The head of a [for] statement: the loop variable, the start node
    and the rounds. *)
Definition for_range (target iter : ast.expr) (context : Context)
    : result (string * LLLnode * pyobj) :=
  match iter, target with
  | ast.Call (ast.Name f) args, ast.Name varname =>
      if negb (eqs f "range") || negb ((len args =? 1) || (len args =? 2)) then
        Err StructureException
      else
        match args with
        (* Type 1 for, eg. for i in range(10): ... *)
        | [ast.Num n] =>
            let* start := from_list (OInt 0) (TStr "num") None in
            Ok (varname, start, number_obj n)
        | [_] => Err StructureException
        (* Type 2 for, eg. for i in range(100, 110): ... *)
        | [ast.Num n0; ast.Num n1] =>
            let* start := from_list (number_obj n0) (TStr "num") None in
            let* rounds := from_list (number_sub n1 n0) (TStr "num") None in
            Ok (varname, start, ONode rounds)
        (* Type 3 for, eg. for i in range(x, x + 10): ... *)
        | [a0; ast.BinOp l ast.Add r] =>
            if negb (dump_eqb a0 l) then Err StructureException
            else
              match r with
              | ast.Num n =>
                  let* start := parse_value_expr a0 context in
                  Ok (varname, start, number_obj n)
              | _ => Err StructureException
              end
        | _ => Err StructureException
        end
  | _, _ => Err StructureException
  end.

Definition is_memory (l : option location_t) : bool :=
  match l with Some memory => true | _ => false end.

Definition is_arith (op : ast.operator) : bool :=
  match op with ast.OtherOperator => false | _ => true end.

(** [t op= e] *)
Definition augassign_stmt (target : ast.expr) (op : ast.operator) (value : ast.expr)
    (context : Context) : result (option LLLnode) :=
  let* target := parse_variable_location target context in
  let* sub := parse_value_expr value context in
  let* sub := base_type_conversion sub (typ sub) (typ target) in
  let* _ := raise_if (negb (is_arith op)) (PyError Exception_) in
  let* _ := raise_if (negb (isinstance_BaseType (typ target))) TypeMismatchException in
  if is_storage (location target) then
    let* _ := raise_if (is_constant context) ConstancyViolationException in
    let* l := from_list (OList [OStr "sload"; OStr "_addr"]) (TTyp (typ target)) None in
    let* o := parse_value_expr (ast.BinOp (ast.LLL l) op (ast.LLL sub)) context in
    let* c := base_type_conversion o (typ o) (typ target) in
    let* n := from_list (OList [OStr "with"; OStr "_addr"; ONode target;
                           OList [OStr "sstore"; OStr "_addr"; ONode c]])
                (TTyp None) None in
    Ok (Some n)
  else if is_memory (location target) then
    let* l := from_list (OList [OStr "mload"; OStr "_addr"]) (TTyp (typ target)) None in
    let* o := parse_value_expr (ast.BinOp (ast.LLL l) op (ast.LLL sub)) context in
    let* c := base_type_conversion o (typ o) (typ target) in
    let* n := from_list (OList [OStr "with"; OStr "_addr"; ONode target;
                           OList [OStr "mstore"; OStr "_addr"; ONode c]])
                (TTyp None) None in
    Ok (Some n)
  else Ok None.

(** The loop of [parse_body] over a list of statements. *)
Definition parse_stmts
    (parse_stmt : ast.stmt -> Context -> result (option LLLnode * Context))
    : list ast.stmt -> Context -> result (list (option LLLnode) * Context) :=
  fix go (code : list ast.stmt) (context : Context) :=
    match code with
    | [] => Ok ([], context)
    | stmt :: code' =>
        let* (o, context) := parse_stmt stmt context in
        let* (os, context) := go code' context in
        Ok (o :: os, context)
    end.

(** Parse a statement (usually one line of code but not always). The
    context is threaded through: a statement may declare variables. The
    result is [None] where the source falls off its last arm. *)
Fixpoint parse_stmt (stmt : ast.stmt) (context : Context) {struct stmt}
    : result (option LLLnode * Context) :=
  (* Parse a piece of code: [parse_body] on a list *)
  let parse_body code context :=
    let* (o, context) := parse_stmts parse_stmt code context in
    let* n := from_list (OList (OStr "seq" :: map obj_of o)) (TTyp None) None in
    Ok (n, context) in
  match stmt with
  | ast.Expr value =>
      (* [parse_stmt(stmt.value)]: of the expressions, only a call is a statement *)
      match value with
      | ast.Call func args =>
          let* o := call_stmt func args context in Ok (o, context)
      | _ => Err StructureException
      end
  | ast.Pass =>
      let* n := from_list (OStr "pass") (TTyp None) None in Ok (Some n, context)
  | ast.AnnAssign target annotation =>
      let* typ := lift (parse_type annotation (Some memory)) in
      let* varname := match target with
                      | ast.Name id => Ok id
                      | _ => Err (PyError AttributeError)
                      end in
      let* (pos, context) := new_variable context varname (Some typ) in
      let* n := from_list (OStr "pass") (TTyp None) None in
      Ok (Some n, context)
  | ast.Assign targets value => assign_stmt targets value context
  (* If statements *)
  | ast.If test body orelse =>
      match orelse with
      | orelse0 :: _ =>
          let* t := parse_value_expr test context in
          let* (b, context) := parse_body body context in
          let* (e, context) := parse_stmt orelse0 context in
          let* n := from_list (OList [OStr "if"; ONode t; ONode b; obj_of e])
                      (TTyp None) None in
          Ok (Some n, context)
      | [] =>
          let* t := parse_value_expr test context in
          let* (b, context) := parse_body body context in
          let* n := from_list (OList [OStr "if"; ONode t; ONode b]) (TTyp None) None in
          Ok (Some n, context)
      end
  | ast.Assert test =>
      let* t := parse_value_expr test context in
      let* n := from_list (OList [OStr "assert"; ONode t]) (TTyp None) None in
      Ok (Some n, context)
  (* for i in range(n): ... (note: n must be a nonzero positive constant integer) *)
  | ast.For target iter body =>
      let* (varname, start, rounds) := for_range target iter context in
      let* (pos, context) :=
        if has_key (forvars context) varname then
          match vars context !! varname with
          | Some (VarSlot pos _) => Ok (pos, context)
          | Some (NextMem _) => Err (PyError TypeError)
          | None => Err (PyError KeyError)
          end
        else new_variable context varname (Some (BaseType1 "num")) in
      let* (b, context) := parse_body body context in
      let* o := from_list (OList [OStr "repeat"; OInt pos; ONode start; rounds; ONode b])
                  (TTyp None) None in
      Ok (Some o, set_forvars context (<[varname := true]> (forvars context)))
  | ast.AugAssign target op value =>
      let* o := augassign_stmt target op value context in Ok (o, context)
  (* Break from a loop *)
  | ast.Break =>
      let* n := from_list (OStr "break") (TTyp None) None in Ok (Some n, context)
  | ast.Return value =>
      let* o := return_stmt value context in Ok (o, context)
  | ast.OtherStmt => Err StructureException
  end.

(** Parse a piece of code *)
Definition parse_body (code : list ast.stmt) (context : Context)
    : result (LLLnode * Context) :=
  let* (o, context) := parse_stmts parse_stmt code context in
  let* n := from_list (OList (OStr "seq" :: map obj_of o)) (TTyp None) None in
  Ok (n, context).

End Translator.

(** ** The VM's word arithmetic

    Modelled from the spec: the VM and the lowering of LLL to it are
    outside [parser.py] (spec, section 1: a stack machine with a fixed
    256-bit word). The opcodes that the properties below evaluate have
    the VM's meaning: [add], [sub] and [mul] wrap around; [sdiv] and
    [slt] read their operands as signed, [lt] as unsigned; [iszero] is
    the zero test and [not] the bitwise complement; [mload] reads a word
    of memory. [with] binds a name, [seq] runs its children in order,
    [assert] stops the run when its argument is zero. *)

Definition wrap (z : Z) : Z := z mod 2 ^ 256.

Definition signed (w : Z) : Z := if w <? 2 ^ 255 then w else w - 2 ^ 256.

Definition b2w (b : bool) : Z := if b then 1 else 0.

Inductive outcome :=
| Value (w : Z)      (* a word is left on the stack *)
| NoValue            (* ran to its end, nothing left *)
| Stopped            (* an [assert] failed *)
| Unsupported.       (* outside the fragment modelled here *)

Definition binary_word (s : string) (a b : Z) : option Z :=
  if eqs s "add" then Some (wrap (a + b))
  else if eqs s "sub" then Some (wrap (a - b))
  else if eqs s "mul" then Some (wrap (a * b))
  else if eqs s "sdiv" then
    Some (if b =? 0 then 0 else wrap (Z.quot (signed a) (signed b)))
  else if eqs s "eq" then Some (b2w (a =? b))
  else if eqs s "lt" then Some (b2w (a <? b))
  else if eqs s "slt" then Some (b2w (signed a <? signed b))
  else if eqs s "or" then Some (Z.lor a b)
  else if eqs s "and" then Some (Z.land a b)
  else None.

Definition unary_word (mem : Z -> Z) (s : string) (a : Z) : option Z :=
  if eqs s "iszero" then Some (b2w (a =? 0))
  else if eqs s "not" then Some (2 ^ 256 - 1 - a)
  else if eqs s "mload" then Some (mem a)
  else None.

Definition lookup_var (env : list (string * Z)) (s : string) : outcome :=
  match members_get env s with
  | Some w => Value w
  | None => Unsupported
  end.

(** [eval env mem n]: the outcome of running [n] with the [with]-bound
    names [env] and the memory [mem]. *)
Fixpoint eval (env : list (string * Z)) (mem : Z -> Z) (n : LLLnode) {struct n}
    : outcome :=
  match value n with
  | VInt k => match args n with [] => Value (wrap k) | _ => Unsupported end
  | VNone => Unsupported
  | VStr s =>
      match args n with
      | [] => lookup_var env s
      | [a] =>
          match eval env mem a with
          | Value w =>
              if eqs s "assert" then (if w =? 0 then Stopped else NoValue)
              else if eqs s "seq" then Value w
              else match unary_word mem s w with
                   | Some r => Value r
                   | None => Unsupported
                   end
          | Stopped => Stopped
          | NoValue => if eqs s "seq" then NoValue else Unsupported
          | Unsupported => Unsupported
          end
      | [a; b] =>
          if eqs s "seq" then
            match eval env mem a with
            | Value _ | NoValue => eval env mem b
            | o => o
            end
          else
            match eval env mem a, eval env mem b with
            | Value x, Value y =>
                match binary_word s x y with
                | Some r => Value r
                | None => Unsupported
                end
            | Stopped, _ => Stopped
            | Value _, Stopped => Stopped
            | _, _ => Unsupported
            end
      | [v; init; body] =>
          if eqs s "with" then
            match value v, args v, eval env mem init with
            | VStr name, [], Value w => eval ((name, w) :: env) mem body
            | _, _, Stopped => Stopped
            | _, _, _ => Unsupported
            end
          else Unsupported
      | _ => Unsupported
      end
  end.

(** ** A fixture for the interfaces

    The properties below hold for every opcode table and every types
    module that meet their stated hypotheses. The instances here are
    the ones they are exercised on. *)

Module Fixture.

Definition op (hex arity valency : Z) : oprecord := mkOp (Some hex) arity valency 0.
Definition pseudo (arity valency : Z) : oprecord := mkOp None arity valency 0.

(** Modelled from the spec: the registry of VM opcodes of
    [viper/opcodes.py] (mnemonic to [hex, arity, valency, gas], spec
    section 6), with the VM's arities; [gas] is not read by [parser.py]
    and is left at 0. *)
Definition opcodes_list : list (string * oprecord) :=
  [ ("STOP", op 0 0 0); ("ADD", op 1 2 1); ("MUL", op 2 2 1); ("SUB", op 3 2 1);
    ("DIV", op 4 2 1); ("SDIV", op 5 2 1); ("MOD", op 6 2 1); ("SMOD", op 7 2 1);
    ("LT", op 16 2 1); ("GT", op 17 2 1); ("SLT", op 18 2 1); ("SGT", op 19 2 1);
    ("EQ", op 20 2 1); ("ISZERO", op 21 1 1); ("AND", op 22 2 1); ("OR", op 23 2 1);
    ("XOR", op 24 2 1); ("NOT", op 25 1 1); ("SHA3", op 32 2 1);
    ("ADDRESS", op 48 0 1); ("BALANCE", op 49 1 1); ("ORIGIN", op 50 0 1);
    ("CALLER", op 51 0 1); ("CALLVALUE", op 52 0 1); ("CALLDATALOAD", op 53 1 1);
    ("CALLDATASIZE", op 54 0 1); ("CALLDATACOPY", op 55 3 0); ("CODESIZE", op 56 0 1);
    ("CODECOPY", op 57 3 0); ("COINBASE", op 65 0 1); ("TIMESTAMP", op 66 0 1);
    ("NUMBER", op 67 0 1); ("DIFFICULTY", op 68 0 1); ("POP", op 80 1 0);
    ("MLOAD", op 81 1 1); ("MSTORE", op 82 2 0); ("SLOAD", op 84 1 1);
    ("SSTORE", op 85 2 0); ("CALL", op 241 7 1); ("RETURN", op 243 2 0);
    ("SELFDESTRUCT", op 255 1 0) ].

(** Modelled from the spec: the registry of pseudo-opcodes of
    [viper/opcodes.py] (spec section 6: [clamp], [uclamplt],
    [clamp_nonzero], [sha3_32], [ceil32], [assert], [pass], [break]
    and the comparisons the VM lacks). The control forms [if], [with],
    [repeat], [seq] and [multi] are not in it: [LLLnode.__init__]
    gives each an arm of its own. *)
Definition pseudo_opcodes_list : list (string * oprecord) :=
  [ ("CLAMP", pseudo 3 1); ("UCLAMPLT", pseudo 2 1); ("CLAMP_NONZERO", pseudo 1 1);
    ("ASSERT", pseudo 1 0); ("PASS", pseudo 0 0); ("BREAK", pseudo 0 0);
    ("SHA3_32", pseudo 1 1); ("SLE", pseudo 2 1); ("SGE", pseudo 2 1);
    ("LE", pseudo 2 1); ("GE", pseudo 2 1); ("CEIL32", pseudo 1 1);
    ("NE", pseudo 2 1) ].

Definition opcodes_module : OpcodesModule :=
  {| opcodes := list_to_map opcodes_list;
     pseudo_opcodes := list_to_map pseudo_opcodes_list |}.

Definition kinds : list string :=
  ["num"; "decimal"; "bool"; "address"; "bytes32"; "num256"; "signed256"].

(** Modelled from the spec: [parse_type] of [viper/types.py] on the two
    simplest annotations, a kind name and a fixed-length list
    [kind[count]]. *)
Definition parse_type (a : ast.expr) (loc : option location_t) : tresult NodeType :=
  match a with
  | ast.Name k =>
      if in_strs k kinds then inr (BaseType k None false) else inl TInvalidType
  | ast.Subscript (ast.Name k) (inl (ast.Num (ast.Int n))) =>
      if in_strs k kinds && (0 <? n)
      then inr (ListType (Some (BaseType k None false)) n)
      else inl TInvalidType
  | _ => inl TInvalidType
  end.

(** Modelled from the spec: [canonicalize_type] of [viper/types.py]
    (spec 4.A: [num] is [int128], [decimal] is [real128x10]). *)
Definition canonicalize_type (t : NodeType) : tresult string :=
  match t with
  | BaseType k _ _ =>
      if eqs k "num" then inr "int128"
      else if eqs k "decimal" then inr "real128x10"
      else if eqs k "num256" then inr "uint256"
      else if eqs k "signed256" then inr "int256"
      else if in_strs k ["bool"; "address"; "bytes32"] then inr k
      else inl TInvalidType
  | _ => inl TInvalidType
  end.

(** Modelled from the spec: [get_size_of_type] of [viper/types.py] (spec
    4.A: base 1, list count times the element, struct the sum of its
    members, mapping an error). *)
Fixpoint size_of (t : NodeType) : tresult Z :=
  match t with
  | BaseType _ _ _ => inr 1
  | ListType (Some sub) count =>
      match size_of sub with inr n => inr (count * n) | inl e => inl e end
  | StructType members =>
      (fix go (l : list (string * option NodeType)) : tresult Z :=
         match l with
         | [] => inr 0
         | (_, Some t') :: r =>
             match size_of t', go r with
             | inr a, inr b => inr (a + b)
             | inl e, _ | _, inl e => inl e
             end
         | (_, None) :: _ => inl TInvalidType
         end) members
  | _ => inl TInvalidType
  end.

Definition get_size_of_type (t : option NodeType) : tresult Z :=
  match t with Some t => size_of t | None => inl TInvalidType end.

(** Modelled from the spec: [combine_units] of [viper/types.py] (spec
    4.A: exponents add, or subtract under [div]; a result with all
    exponents zero is absent). *)
Definition combine_units (u1 u2 : unit_t) (div : bool) : unit_t :=
  let m1 : gmap string Z := default ∅ u1 in
  let m2 : gmap string Z := default ∅ u2 in
  let m2' : gmap string Z := if div then Z.opp <$> m2 else m2 in
  let o : gmap string Z :=
    filter (fun kv => snd kv ≠ 0) (union_with (fun a b => Some (a + b)) m1 m2') in
  if bool_decide (o = ∅) then None else Some o.

Definition unit_of (t : option NodeType) : unit_t :=
  match t with Some (BaseType _ u _) => u | _ => None end.

(** Modelled from the spec: [are_units_compatible] of [viper/types.py]
    (spec 4.A: the units are equal, or the source has none). *)
Definition are_units_compatible (frm to : option NodeType) : bool :=
  is_None (unit_of frm) || bool_decide (unit_of frm = unit_of to).

(** Modelled from the spec: [set_default_units] of [viper/types.py] (spec
    4.G: a type without a unit becomes unit-less). *)
Definition set_default_units (t : option NodeType) : option NodeType :=
  match t with
  | Some (BaseType k None p) => Some (BaseType k (Some ∅) p)
  | _ => t
  end.

(** Modelled from the spec: [is_varname_valid] of [viper/types.py] (spec
    4.A: opcode mnemonics and names beginning with an underscore are
    reserved). *)
Definition is_varname_valid (s : string) : bool :=
  negb (String.prefix "_" s) && negb (eqs s "")
  && negb (in_strs (upper s) (map fst opcodes_list ++ map fst pseudo_opcodes_list)).

Fixpoint NodeType_eqb (a b : NodeType) {struct a} : bool :=
  match a, b with
  | BaseType k1 u1 p1, BaseType k2 u2 p2 =>
      eqs k1 k2 && bool_decide (u1 = u2) && Bool.eqb p1 p2
  | ListType s1 c1, ListType s2 c2 =>
      match s1, s2 with
      | Some x, Some y => NodeType_eqb x y
      | None, None => true
      | _, _ => false
      end && (c1 =? c2)
  | MappingType k1 v1, MappingType k2 v2 => NodeType_eqb k1 k2 && NodeType_eqb v1 v2
  | StructType m1, StructType m2 =>
      (fix go (l1 l2 : list (string * option NodeType)) : bool :=
         match l1, l2 with
         | [], [] => true
         | (k1, t1) :: r1, (k2, t2) :: r2 =>
             eqs k1 k2
             && match t1, t2 with
                | Some x, Some y => NodeType_eqb x y
                | None, None => true
                | _, _ => false
                end
             && go r1 r2
         | _, _ => false
         end) m1 m2
  | MixedType, MixedType | NullType, NullType => true
  | ByteArrayType a, ByteArrayType b => a =? b
  | _, _ => false
  end.

(** Modelled from the spec: the comparison of a type with a kind name at
    the end of [parse_expr] (spec 4.F: a node that is [num] or
    [decimal] is wrapped in its range clamp, a [bool] passes), and the
    inequality of two types. *)
Definition typ_eq_str (t : option NodeType) (s : string) : bool :=
  is_base_type t [s].

Definition typ_ne (a b : option NodeType) : bool :=
  match a, b with
  | Some x, Some y => negb (NodeType_eqb x y)
  | None, None => false
  | _, _ => true
  end.

Definition types_module : TypesModule :=
  Build_TypesModule parse_type canonicalize_type get_size_of_type combine_units
    are_units_compatible set_default_units is_varname_valid None typ_eq_str typ_ne.

Definition empty_context : Context :=
  mkContext ∅ ∅ ∅ ∅ None false.

End Fixture.


(** ** Vocabulary of the properties *)

Section Vocabulary.
Context {Ops : OpcodesModule}.

(** The tables register [name] (a mnemonic, upper case) with this arity
    and valency. *)
Definition has_op (name : string) (arity valency : Z) : bool :=
  match lookup_op name with
  | Some r => (op_arity r =? arity) && (op_valency r =? valency)
  | None => false
  end.

(** The tables do not register [name]. *)
Definition no_op (name : string) : bool := is_None (lookup_op name).

End Vocabulary.

Section Invariants.
Context {Ops : OpcodesModule}.

Definition nonzero_valency (a : LLLnode) : Prop := valency a <> 0.

(** The condition on the children of an [if] node: two or three
    arguments, a test that is not zerovalent, a zerovalent body when
    there is no else-branch, and branches of equal valency otherwise. *)
Definition if_arguments (xs : list LLLnode) : Prop :=
  exists test body rest,
    xs = test :: body :: rest
    /\ nonzero_valency test
    /\ (rest = [] /\ valency body = 0
        \/ exists orelse, rest = [orelse] /\ valency body = valency orelse).

(** The valency invariants of a single node (spec, section 3), with
    "not zerovalent" where a child has to leave something on the
    stack. *)
Definition node_invariant (n : LLLnode) : Prop :=
  match value n with
  | VInt _ | VNone => valency n = 1
  | VStr s =>
      match lookup_op (upper s) with
      | Some r =>
          len (args n) = op_arity r
          /\ Forall nonzero_valency (args n)
          /\ valency n = op_valency r
      | None =>
          if eqs s "if" then
            if_arguments (args n)
            /\ exists body, nth_error (args n) 1 = Some body /\ valency n = valency body
          else if eqs s "with" then
            exists v init body,
              args n = [v; init; body]
              /\ args v = [] /\ is_str (value v) = true
              /\ nonzero_valency init
              /\ valency n = valency body
          else if eqs s "repeat" then
            exists memloc start rounds body rest,
              args n = memloc :: start :: rounds :: body :: rest
              /\ args rounds = []
              /\ (exists k, value rounds = VInt k /\ 0 < k)
              /\ nonzero_valency memloc /\ nonzero_valency start
              /\ valency body = 0
              /\ valency n = 0
          else if eqs s "seq" then
            valency n = last_valency (args n)
          else if eqs s "multi" then
            Forall nonzero_valency (args n) /\ valency n = sum_valency (args n)
          else valency n = 1
      end
  end.

(** A tree all of whose nodes satisfy the invariants. *)
Inductive well_formed : LLLnode -> Prop :=
| well_formed_node (n : LLLnode) :
    node_invariant n -> Forall well_formed (args n) -> well_formed n.

(** The nodes inside an object handed to [from_list] are well formed. *)
Inductive obj_well_formed : pyobj -> Prop :=
| owf_int n : obj_well_formed (OInt n)
| owf_str s : obj_well_formed (OStr s)
| owf_none : obj_well_formed ONone
| owf_other : obj_well_formed OOther
| owf_node n : well_formed n -> obj_well_formed (ONode n)
| owf_list l : Forall obj_well_formed l -> obj_well_formed (OList l).

End Invariants.

Section Embedded.
Context {Ops : OpcodesModule}.

(** The translated nodes that an expression carries (none, in a source
    program) are well formed. *)
Inductive expr_ok : ast.expr -> Prop :=
| ok_Num n : expr_ok (ast.Num n)
| ok_Str s : expr_ok (ast.Str s)
| ok_NameConstant c : expr_ok (ast.NameConstant c)
| ok_Name id : expr_ok (ast.Name id)
| ok_Attribute v a : expr_ok v -> expr_ok (ast.Attribute v a)
| ok_Subscript_index v i : expr_ok v -> expr_ok i -> expr_ok (ast.Subscript v (inl i))
| ok_Subscript_other v d : expr_ok v -> expr_ok (ast.Subscript v (inr d))
| ok_BinOp l op r : expr_ok l -> expr_ok r -> expr_ok (ast.BinOp l op r)
| ok_Compare l ops cs : expr_ok l -> Forall expr_ok cs -> expr_ok (ast.Compare l ops cs)
| ok_BoolOp op vs : Forall expr_ok vs -> expr_ok (ast.BoolOp op vs)
| ok_UnaryOp op o : expr_ok o -> expr_ok (ast.UnaryOp op o)
| ok_Call f xs : Forall expr_ok xs -> expr_ok (ast.Call f xs)
| ok_List elts : Forall expr_ok elts -> expr_ok (ast.List elts)
| ok_Dict keys values : Forall expr_ok values -> expr_ok (ast.Dict keys values)
| ok_OtherExpr d : expr_ok (ast.OtherExpr d)
| ok_LLL n : well_formed n -> expr_ok (ast.LLL n).

Inductive stmt_ok : ast.stmt -> Prop :=
| ok_Expr v : expr_ok v -> stmt_ok (ast.Expr v)
| ok_Pass : stmt_ok ast.Pass
| ok_AnnAssign t a : stmt_ok (ast.AnnAssign t a)
| ok_Assign ts v : Forall expr_ok ts -> expr_ok v -> stmt_ok (ast.Assign ts v)
| ok_If t b e : expr_ok t -> Forall stmt_ok b -> Forall stmt_ok e -> stmt_ok (ast.If t b e)
| ok_Assert t : expr_ok t -> stmt_ok (ast.Assert t)
| ok_For t i b : expr_ok i -> Forall stmt_ok b -> stmt_ok (ast.For t i b)
| ok_AugAssign t op v : expr_ok t -> expr_ok v -> stmt_ok (ast.AugAssign t op v)
| ok_Break : stmt_ok ast.Break
| ok_Return v : (forall e, v = Some e -> expr_ok e) -> stmt_ok (ast.Return v)
| ok_OtherStmt : stmt_ok ast.OtherStmt.

End Embedded.

(** The result is anything but a constancy violation. *)
Definition no_cv {A} (r : result A) : Prop := r <> Err ConstancyViolationException.

(** [isinstance(target, ast.Name) and target.id not in context.vars]:
    the assignment introduces [target] as a new variable. *)
Definition introduces_variable (target : ast.expr) (context : Context) : bool :=
  match target with
  | ast.Name id => negb (has_key (vars context) id)
  | _ => false
  end.

(** *** The trees of the arithmetic arm *)

(** An untyped node, as [from_list] builds the inner ones. *)
Definition node (s : string) (xs : list LLLnode) (v : Z) : LLLnode :=
  mkLLLnode (VStr s) xs None None v.

Definition var (s : string) : LLLnode := node s [] 1.

Definition int_literal (n : Z) : LLLnode := mkLLLnode (VInt n) [] None None 1.

(** The translation of the integer literal [n]. *)
Definition num_literal (n : Z) : LLLnode :=
  mkLLLnode (VInt n) [] (Some (BaseType "num" None false)) None 1.

(** What [decimal(n)] and [floor(decimal(n))] are translated to. *)
Definition decimal_of_literal (n : Z) : LLLnode :=
  mkLLLnode (VStr "mul") [num_literal n; int_literal DECIMAL_DIVISOR]
            (Some (BaseType "decimal" None false)) None 1.

Definition floor_of_decimal (n : Z) : LLLnode :=
  mkLLLnode (VStr "sdiv") [decimal_of_literal n; int_literal DECIMAL_DIVISOR]
            (Some (BaseType "num" None false)) None 1.

(** The guard of a multiplication with a decimal:
    [assert(or(eq(sdiv(ans, l), r), not(l)))]. *)
Definition mul_guard : LLLnode :=
  node "assert"
    [node "or" [node "eq" [node "sdiv" [var "ans"; var "l"] 1; var "r"] 1;
                node "not" [var "l"] 1] 1] 0.

(** [with r right (with l left (with ans (mul l r) (seq guard tail)))]. *)
Definition guarded_mul (left right tail : LLLnode) (t : option NodeType) : LLLnode :=
  mkLLLnode (VStr "with")
    [var "r"; right;
     node "with"
       [var "l"; left;
        node "with"
          [var "ans"; node "mul" [var "l"; var "r"] 1;
           node "seq" [mul_guard; tail] (valency tail)]
          (valency tail)]
       (valency tail)]
    t None (valency tail).

(** The end of a guarded multiplication: the product scaled down, or
    the product as it is. *)
Definition scaled_tail : LLLnode :=
  node "sdiv" [var "ans"; int_literal DECIMAL_DIVISOR] 1.
Definition unscaled_tail : LLLnode := var "ans".

(** The check on the value returned as [num256]:
    [assert(iszero(lt(mload(0), 0)))]. *)
Definition nonnegative_guard : LLLnode :=
  node "assert"
    [node "iszero"
       [node "lt" [node "mload" [int_literal 0] 1; int_literal 0] 1] 1] 0.

Section Tables.
Context {Ops : OpcodesModule}.

(** What the tables have to say for the tree of a guarded
    multiplication to be built. *)
Definition mul_tables : Prop :=
  has_op "MUL" 2 1 = true /\ has_op "SDIV" 2 1 = true /\ has_op "EQ" 2 1 = true
  /\ has_op "OR" 2 1 = true /\ has_op "NOT" 1 1 = true /\ has_op "ASSERT" 1 0 = true
  /\ no_op "WITH" = true /\ no_op "SEQ" = true
  /\ no_op "R" = true /\ no_op "L" = true /\ no_op "ANS" = true.

End Tables.

(** A function body with two decimal variables in memory. *)
Definition decimal_xy : Context :=
  mkContext ∅
    (<["x" := VarSlot 256 (Some (BaseType "decimal" None false))]>
       (<["y" := VarSlot 288 (Some (BaseType "decimal" None false))]> ∅))
    ∅ ∅ None false.

(** The value of a variable in memory, as [parse_value_expr] reads it. *)
Definition mload_var (pos : Z) (t : option NodeType) : LLLnode :=
  mkLLLnode (VStr "mload") [mkLLLnode (VInt pos) [] t (Some memory) 1] t None 1.

(** Modelled from the spec: the guard of a multiplication as the
    specification words it, [(ans / l == r) or (l == 0)]; [parser.py]
    writes [not(l)] where this has the zero test. *)
Definition spec_mul_guard : LLLnode :=
  node "assert"
    [node "or" [node "eq" [node "sdiv" [var "ans"; var "l"] 1; var "r"] 1;
                node "iszero" [var "l"] 1] 1] 0.

(** A function body that returns [return_type] and has a [num] variable
    in memory. *)
Definition returning (return_type : string) : Context :=
  mkContext ∅ (<["x" := VarSlot 256 (Some (BaseType "num" None false))]> ∅)
    ∅ ∅ (Some (BaseType return_type None false)) false.

(** Modelled from the spec: the check of a returned [num] as the
    specification words it, "asserts non-negativity": the stored word,
    read as signed, is not below zero. [parser.py] writes the unsigned
    [lt] where this has [slt]. *)
Definition spec_nonnegative_guard : LLLnode :=
  node "assert"
    [node "iszero"
       [node "slt" [node "mload" [int_literal 0] 1; int_literal 0] 1] 1] 0.

(** [seq(mstore(0, sub), return(0, 32))] and the same with a check in
    between. *)
Definition store_and_return (sub : LLLnode) (check : list LLLnode) : LLLnode :=
  node "seq"
    ([node "mstore" [int_literal 0; sub] 0] ++ check
     ++ [node "return" [int_literal 0; int_literal 32] 0]) 0.

(** [not [1, 2]]: the list is a [multi] of valency 2. *)
Definition not_of_a_list : ast.expr :=
  ast.UnaryOp ast.Not (ast.List [ast.Num (ast.Int 1); ast.Num (ast.Int 2)]).

(** *** The address of a list element *)

(** [uclamplt(index, count)]. *)
Definition clamped_index (index : LLLnode) (count : Z) : LLLnode :=
  node "uclamplt" [index; int_literal count] 1.

(** [add(sha3_32(base), sub)], in storage. *)
Definition storage_element (base sub : LLLnode) (t : option NodeType) : LLLnode :=
  mkLLLnode (VStr "add") [node "sha3_32" [base] 1; sub] t (Some storage) 1.

(** [add(mul(offset, sub), base)], in memory. *)
Definition memory_element (base sub : LLLnode) (offset : Z) (t : option NodeType)
    : LLLnode :=
  mkLLLnode (VStr "add") [node "mul" [int_literal offset; sub] 1; base] t
            (Some memory) 1.

Section ListTables.
Context {Ops : OpcodesModule}.

Definition list_tables : Prop :=
  has_op "UCLAMPLT" 2 1 = true /\ has_op "ADD" 2 1 = true
  /\ has_op "SHA3_32" 1 1 = true /\ has_op "MUL" 2 1 = true.

End ListTables.

(** A function body with the variable [v : num[10]] in memory. *)
Definition list_in_memory : Context :=
  mkContext ∅
    (<["v" := VarSlot 256 (Some (ListType (Some (BaseType "num" None false)) 10))]> ∅)
    ∅ ∅ None false.

(** *** Sample programs *)

(** [if true: pass / else: pass; break]. *)
Definition if_with_long_else : ast.stmt :=
  ast.If (ast.NameConstant ast.CTrue) [ast.Pass] [ast.Pass; ast.Break].

(** The body of a constant function of a contract with the storage
    variable [x : num]. *)
Definition constant_context : Context :=
  mkContext ∅ ∅ (<["x" := (0, BaseType "num" None false)]> ∅) ∅ None true.

(** [self.x]. *)
Definition self_x : ast.expr := ast.Attribute (ast.Name "self") "x".



(** ** Keccak-256

    Modelled from the spec: the hash behind [sha3_256] is the
    pre-standard Keccak-256 (spec, section 8), computed by an imported
    library. This is the sponge over Keccak-f[1600] with rate 136 bytes
    and the padding that starts with 0x01; a lane is a 64-bit word and
    the state is the 25 lanes, lane [(x, y)] at index [x + 5 y]. *)

Module Keccak.

Definition lane_mask : Z := 2 ^ 64 - 1.

Definition rot (w : Z) (n : Z) : Z :=
  Z.land (Z.lor (Z.shiftl w n) (Z.shiftr w (64 - n))) lane_mask.

Definition lane (st : list Z) (x y : nat) : Z :=
  nth ((x mod 5) + 5 * (y mod 5))%nat st 0.

Definition coords : list (nat * nat) :=
  flat_map (fun y => map (fun x => (x, y)) (seq 0 5)) (seq 0 5).

Definition theta (st : list Z) : list Z :=
  let c x := fold_right Z.lxor 0 (map (fun y => lane st x y) (seq 0 5)) in
  let d x := Z.lxor (c (x + 4)%nat) (rot (c (x + 1)%nat) 1) in
  map (fun p => Z.lxor (lane st (fst p) (snd p)) (d (fst p))) coords.

Definition offsets : list Z :=
  [ 0;  1; 62; 28; 27;
   36; 44;  6; 55; 20;
    3; 10; 43; 25; 39;
   41; 45; 15; 21;  8;
   18;  2; 61; 56; 14].

(** The lane that ends at [(X, Y)] starts at [x = X + 3 Y], [y = X]. *)
Definition rho_pi (st : list Z) : list Z :=
  map (fun p =>
         let x := ((fst p + 3 * snd p) mod 5)%nat in
         let y := fst p in
         rot (lane st x y) (nth (x + 5 * y) offsets 0)) coords.

Definition chi (st : list Z) : list Z :=
  map (fun p =>
         let x := fst p in
         let y := snd p in
         Z.lxor (lane st x y)
                (Z.land (Z.lxor (lane st (x + 1) y) lane_mask) (lane st (x + 2) y)))
      coords.

Definition iota (rc : Z) (st : list Z) : list Z :=
  match st with
  | a :: r => Z.lxor a rc :: r
  | [] => []
  end.

Definition round_constants : list Z :=
  [0x0000000000000001; 0x0000000000008082; 0x800000000000808A; 0x8000000080008000;
   0x000000000000808B; 0x0000000080000001; 0x8000000080008081; 0x8000000000008009;
   0x000000000000008A; 0x0000000000000088; 0x0000000080008009; 0x000000008000000A;
   0x000000008000808B; 0x800000000000008B; 0x8000000000008089; 0x8000000000008003;
   0x8000000000008002; 0x8000000000000080; 0x000000000000800A; 0x800000008000000A;
   0x8000000080008081; 0x8000000000008080; 0x0000000080000001; 0x8000000080008008].

Definition keccak_f (st : list Z) : list Z :=
  fold_left (fun s rc => iota rc (chi (rho_pi (theta s)))) round_constants st.

Definition rate : nat := 136.

Definition pad (msg : list Z) : list Z :=
  let q := (rate - length msg mod rate)%nat in
  if (q =? 1)%nat then msg ++ [0x81]
  else msg ++ [0x01] ++ repeat 0 (q - 2) ++ [0x80].

Fixpoint lane_of_bytes (bs : list Z) : Z :=
  match bs with
  | [] => 0
  | b :: r => b + 256 * lane_of_bytes r
  end.

Fixpoint lanes_of_bytes (n : nat) (bs : list Z) : list Z :=
  match n with
  | O => []
  | S n' => lane_of_bytes (firstn 8 bs) :: lanes_of_bytes n' (skipn 8 bs)
  end.

Fixpoint xor_into (st blk : list Z) : list Z :=
  match st, blk with
  | a :: st', b :: blk' => Z.lxor a b :: xor_into st' blk'
  | _, _ => st
  end.

Fixpoint absorb (blocks : nat) (st : list Z) (bs : list Z) : list Z :=
  match blocks with
  | O => st
  | S n => absorb n (keccak_f (xor_into st (lanes_of_bytes 17 (firstn rate bs))))
                  (skipn rate bs)
  end.

Fixpoint bytes_of_lane (n : nat) (w : Z) : list Z :=
  match n with
  | O => []
  | S n' => (w mod 256) :: bytes_of_lane n' (w / 256)
  end.

Definition keccak_256 (msg : list Z) : list Z :=
  let p := pad msg in
  let st := absorb (length p / rate) (repeat 0 25%nat) p in
  flat_map (bytes_of_lane 8) (firstn 4 st).

Definition byte_of (z : Z) : Byte.byte :=
  match Byte.of_N (Z.to_N z) with
  | Some b => b
  | None => Byte.x00
  end.

Definition digest (msg : list Byte.byte) : list Byte.byte :=
  map byte_of (keccak_256 (map byte_int msg)).

Definition hash_module : HashModule := {| sha3_256 := digest |}.

End Keccak.

(** [def transfer(to: address, value: num256)] and
    [def __init__(a: num, b: num, c: num)], with empty bodies. *)
Definition transfer_def : ast.FunctionDef :=
  ast.mkFunctionDef "transfer"
    [ast.mkarg "to" (Some (ast.Name "address"));
     ast.mkarg "value" (Some (ast.Name "num256"))] None [].

Definition init_def : ast.FunctionDef :=
  ast.mkFunctionDef "__init__"
    [ast.mkarg "a" (Some (ast.Name "num")); ast.mkarg "b" (Some (ast.Name "num"));
     ast.mkarg "c" (Some (ast.Name "num"))] None [].

(** The offset of the [k]-th of [n_all] parameters of the function
    [name]. *)
Definition param_offset (name : string) (n_all : Z) (k : Z) : Z :=
  if eqs name "__init__" then -32 * n_all + 32 * k else 4 + 32 * k.

Section Canonical.
Context {Types : TypesModule}.

(** The canonical name of the annotated type of a parameter. *)
Definition canonical_of (a : ast.arg) (c : string) : Prop :=
  exists annotation t,
    ast.annotation a = Some annotation
    /\ parse_type annotation None = inr t
    /\ canonicalize_type t = inr c.

End Canonical.

(** ** The module level of [parser.py] *)

(** An item of a module's body: a function definition, or any other
    statement. *)
Inductive toplevel :=
| TopStmt (s : ast.stmt)
| TopDef (d : ast.FunctionDef).

(** An entry of the ABI that [mk_full_signature] returns; [outputs] and
    [inputs] list the pairs of ["type"] and ["name"]. *)
Record abi_entry := mkAbiEntry {
  abi_name : string;
  abi_outputs : list (string * string);
  abi_inputs : list (string * string);
  abi_constant : bool;
  abi_type : string
}.

Section ModuleLevel.
Context `{OpcodesModule} `{TypesModule} `{HashModule}.

(** The loop of [get_defs_and_globals] over the items, with the lists
    built so far. *)
Fixpoint defs_and_globals_loop (code : list toplevel)
    (_defs : list ast.FunctionDef) (_globals : gmap string (Z * NodeType))
    : result (list ast.FunctionDef * gmap string (Z * NodeType)) :=
  match code with
  | [] => Ok (_defs, _globals)
  | TopStmt (ast.AnnAssign target annotation) :: code' =>
      match target with
      | ast.Name id =>
          let* _ := raise_if (has_key _globals id) VariableDeclarationException in
          let* _ := raise_if (negb (len _defs =? 0)) StructureException in
          let* t := lift (parse_type annotation (Some storage)) in
          defs_and_globals_loop code' _defs
            (<[id := (Z.of_nat (size _globals), t)]> _globals)
      | _ => Err StructureException
      end
  | TopDef item :: code' => defs_and_globals_loop code' (_defs ++ [item]) _globals
  | _ :: _ => Err StructureException
  end.

(** Parse top-level functions and variables *)
Definition get_defs_and_globals (code : list toplevel)
    : result (list ast.FunctionDef * gmap string (Z * NodeType)) :=
  defs_and_globals_loop code [] ∅.

(** Header code *)
Definition mk_initial : result LLLnode :=
  from_list
    (OList [OStr "seq";
            OList [OStr "mstore"; OInt 28; OList [OStr "calldataload"; OInt 0]];
            OList [OStr "mstore"; OInt ADDRSIZE_POS; OInt (2 ^ 160)];
            OList [OStr "mstore"; OInt MAXNUM_POS; OInt (2 ^ 128 - 1)];
            OList [OStr "mstore"; OInt MINNUM_POS; OInt (- 2 ^ 128 + 1)];
            OList [OStr "mstore"; OInt MAXDECIMAL_POS;
                   OInt ((2 ^ 128 - 1) * DECIMAL_DIVISOR)];
            OList [OStr "mstore"; OInt MINDECIMAL_POS;
                   OInt ((- 2 ^ 128 + 1) * DECIMAL_DIVISOR)]])
    (TTyp None) None.

(** Is a function the initializer? *)
Definition is_initializer (code : ast.FunctionDef) : bool :=
  eqs (ast.name code) "__init__".

(** [{a[0]: (a[1], a[2]) for a in args}]. *)
Definition args_dict (args : list (string * Z * NodeType)) : gmap string (Z * NodeType) :=
  fold_left (fun m a => <[fst (fst a) := (snd (fst a), snd a)]> m) args ∅.

(** Parses a function declaration *)
Definition parse_func (code : ast.FunctionDef) (_globals : gmap string (Z * NodeType))
    (_vars : option (gmap string var_entry)) : result LLLnode :=
  let* d := get_func_details code in
  let* _ := raise_if (existsb (fun a => has_key _globals (fst (fst a))) (fd_args d))
              VariableDeclarationException in
  let context :=
    mkContext (args_dict (fd_args d)) (default ∅ _vars) _globals ∅
              (fd_output_type d) (fd_const d) in
  if eqs (fd_name d) "__init__" then
    let* (n, _) := parse_body (ast.body code) context in
    Ok n
  else
    let* (o, _) := parse_stmts parse_stmt (ast.body code) context in
    from_list (OList [OStr "if";
                      OList [OStr "eq"; OList [OStr "mload"; OInt 0];
                             OInt (fd_method_id d)];
                      OList (OStr "seq" :: map obj_of o)])
              (TTyp None) None.

(** Get ABI signature *)
Definition mk_full_signature (code : list toplevel) : result (list abi_entry) :=
  let* (_defs, _globals) := get_defs_and_globals code in
  mapM (fun code =>
          let* d := get_func_details code in
          let* outputs :=
            match fd_output_type d with
            | Some output_type =>
                let* c := lift (canonicalize_type output_type) in Ok [(c, "out")]
            | None => Ok []
            end in
          let* inputs :=
            mapM (fun a => let* c := lift (canonicalize_type (snd a)) in
                           Ok (c, fst (fst a)))
                 (fd_args d) in
          Ok (mkAbiEntry (fd_sig d) outputs inputs (fd_const d)
                         (if eqs (fd_name d) "__init__" then "constructor"
                          else "function")))
       _defs.

(** [['return', 0, ['lll', ['seq', mk_initial()] + [parse_func(...)], 0]]]. *)
Definition return_lll (_globals : gmap string (Z * NodeType))
    (otherfuncs : list ast.FunctionDef) : result pyobj :=
  let* initial := mk_initial in
  let* funcs := mapM (fun _def => parse_func _def _globals None) otherfuncs in
  Ok (OList [OStr "return"; OInt 0;
             OList [OStr "lll"; OList (OStr "seq" :: ONode initial :: map ONode funcs);
                    OInt 0]]).

(** Main python parse tree => LLL method *)
Definition parse_tree_to_lll (code : list toplevel) : result LLLnode :=
  let* (_defs, _globals) := get_defs_and_globals code in
  let* _ := raise_if (len (remove_dups (map ast.name _defs)) <? len _defs)
              VariableDeclarationException in
  (* Initialization function *)
  let initfunc := filter (fun _def => is_initializer _def = true) _defs in
  (* Regular functions *)
  let otherfuncs := filter (fun _def => is_initializer _def = false) _defs in
  match initfunc, otherfuncs with
  | [], [] => from_list (OStr "pass") (TTyp None) None
  | [], _ :: _ =>
      let* o := return_lll _globals otherfuncs in
      from_list o (TTyp None) None
  | init :: _, [] =>
      let* initial := mk_initial in
      let* f := parse_func init _globals None in
      from_list (OList [OStr "seq"; ONode initial; ONode f; OList [OStr "selfdestruct"]])
                (TTyp None) None
  | init :: _, _ :: _ =>
      let* initial := mk_initial in
      let* f := parse_func init _globals None in
      let* o := return_lll _globals otherfuncs in
      from_list (OList [OStr "seq"; ONode initial; ONode f; o]) (TTyp None) None
  end.

End ModuleLevel.

(** ** The clamp at the end of [parse_expr] *)

Section RangeClamp.
Context {Types : TypesModule}.


End RangeClamp.






(** ** How a statement changes the context *)

Section ContextChanges.
Context `{OpcodesModule} `{TypesModule}.

(** The changes that [parse_stmt] makes to its context: declarations of
    variables and marks on loop variables, in sequence. *)
Inductive extends : Context -> Context -> Prop :=
| extends_refl (c : Context) : extends c c
| extends_variable (c : Context) name t pos (c1 c2 : Context) :
    new_variable c name t = Ok (pos, c1) -> extends c1 c2 -> extends c c2
| extends_forvar (c : Context) name (c2 : Context) :
    extends (set_forvars c (<[name := true]> (forvars c))) c2 -> extends c c2.

(** The slot of a variable: its position and its type. *)
Definition slot (c : Context) (name : string) : option (Z * option NodeType) :=
  match vars c !! name with
  | Some (VarSlot pos t) => Some (pos, t)
  | _ => None
  end.

(** The memory of the variables is laid out without overlap: every slot
    lies between the reserved memory and the next free position, and
    the slots of two variables are disjoint. *)
Definition allocated (c : Context) : Prop :=
  exists next,
    get_next_mem c = Ok next
    /\ RESERVED_MEMORY <= next
    /\ (forall name pos t,
          slot c name = Some (pos, t) ->
          exists size,
            get_size_of_type t = inr size
            /\ RESERVED_MEMORY <= pos /\ pos + 32 * size <= next)
    /\ (forall n1 n2 p1 t1 p2 t2 s1 s2,
          n1 <> n2 ->
          slot c n1 = Some (p1, t1) -> slot c n2 = Some (p2, t2) ->
          get_size_of_type t1 = inr s1 -> get_size_of_type t2 = inr s2 ->
          p1 + 32 * s1 <= p2 \/ p2 + 32 * s2 <= p1).

(** No type has a negative size. *)
Definition sizes_nonnegative : Prop :=
  forall t size, get_size_of_type t = inr size -> 0 <= size.

End ContextChanges.

(** The types module of the fixture with sizes that are checked: a type
    whose size would be negative (a list of negative length) has none. *)
Module Sized.

Definition get_size_of_type (t : option NodeType) : tresult Z :=
  match Fixture.get_size_of_type t with
  | inr n => if 0 <=? n then inr n else inl TInvalidType
  | inl e => inl e
  end.

Definition types_module : TypesModule :=
  Build_TypesModule Fixture.parse_type Fixture.canonicalize_type get_size_of_type
    Fixture.combine_units Fixture.are_units_compatible Fixture.set_default_units
    Fixture.is_varname_valid None Fixture.typ_eq_str Fixture.typ_ne.

End Sized.

(** [x: num]. *)
Definition declare_x : ast.stmt := ast.AnnAssign (ast.Name "x") (ast.Name "num").

(** The number that a list of hexadecimal digits writes, high digit
    first. *)
Definition hex_value (digits : list Z) : Z :=
  fold_left (fun o d => o * 16 + d) digits 0.

(** An address literal. *)
Definition address_ff : string := "0x00000000000000000000000000000000000000ff".

(** The top-level declaration [name: annotation]. *)
Definition declaration (d : string * ast.expr) : toplevel :=
  TopStmt (ast.AnnAssign (ast.Name (fst d)) (snd d)).

Section TopLevelEmbedded.
Context {Ops : OpcodesModule}.

(** The bodies of the functions of a module carry no ill-formed node
    (none at all, in a source program). *)
Definition toplevel_ok (item : toplevel) : Prop :=
  match item with
  | TopDef d => Forall stmt_ok (ast.body d)
  | TopStmt _ => True
  end.

End TopLevelEmbedded.

(** [def f(): pass], and a module of the variable [x: num] and two
    functions [f] and [g]. *)
Definition def_pass (name : string) : ast.FunctionDef :=
  ast.mkFunctionDef name [] None [ast.Pass].

Definition module_f_g : list toplevel :=
  [declaration ("x", ast.Name "num"); TopDef (def_pass "f"); TopDef (def_pass "g")].

(** ** Lists and trees *)

(** The [value] that the constructor stores for what it is handed. *)
Definition value_of (v : pyval) : lll_value :=
  match v with
  | PInt n => VInt n
  | PStr s => VStr s
  | _ => VNone
  end.

(** The list form of an object handed to [from_list], as [to_list]
    writes the node built from it: the head value followed by the list
    forms of the elements; a node stands for its own list and a scalar
    [s] for the one-element list [[s]]. *)
Fixpoint shape (o : pyobj) : lll_list :=
  match o with
  | ONode n => to_list n
  | OList (o0 :: rest) => LList (value_of (pyval_of o0)) (map shape rest)
  | OList [] => LList VNone []
  | _ => LList (value_of (pyval_of o)) []
  end.

(** A nested list as an object: [[value, child, ...]]. *)
Fixpoint unshape (x : lll_list) : pyobj :=
  match x with
  | LList v children =>
      OList (match v with VInt n => OInt n | VStr s => OStr s | VNone => ONone end
             :: map unshape children)
  end.

(** No node of the tree has the value [None]. *)
Fixpoint no_null (x : lll_list) : bool :=
  match x with
  | LList v children =>
      match v with VNone => false | _ => true end && forallb no_null children
  end.

(** Two nodes that the constructor of a parent cannot tell apart: the
    same value, as many children, the same valency. *)
Definition alike (x y : LLLnode) : Prop :=
  value y = value x /\ length (args y) = length (args x) /\ valency y = valency x.

(** ** Constant functions leave the state alone *)

(** The opcodes that change the state of the contract, send value or
    write a log, in either case of the letters. *)
Definition noisy (v : lll_value) : bool :=
  match v with
  | VStr s =>
      in_strs (upper s)
        ["SSTORE"; "CALL"; "CALLCODE"; "DELEGATECALL"; "CREATE"; "SELFDESTRUCT";
         "SUICIDE"; "LOG0"; "LOG1"; "LOG2"; "LOG3"; "LOG4"]
  | _ => false
  end.

(** A tree without a node that changes the state. *)
Inductive quiet : LLLnode -> Prop :=
| quiet_node (n : LLLnode) :
    noisy (value n) = false -> Forall quiet (args n) -> quiet n.

(** The same for an object handed to [from_list]. *)
Inductive obj_quiet : pyobj -> Prop :=
| oq_int n : obj_quiet (OInt n)
| oq_str s : noisy (VStr s) = false -> obj_quiet (OStr s)
| oq_none : obj_quiet ONone
| oq_other : obj_quiet OOther
| oq_node n : quiet n -> obj_quiet (ONode n)
| oq_list l : Forall obj_quiet l -> obj_quiet (OList l).

(** The translated nodes that an expression or a statement carries
    (none, in a source program) are quiet. *)
Inductive expr_quiet : ast.expr -> Prop :=
| q_Num n : expr_quiet (ast.Num n)
| q_Str s : expr_quiet (ast.Str s)
| q_NameConstant c : expr_quiet (ast.NameConstant c)
| q_Name id : expr_quiet (ast.Name id)
| q_Attribute v a : expr_quiet v -> expr_quiet (ast.Attribute v a)
| q_Subscript_index v i : expr_quiet v -> expr_quiet i -> expr_quiet (ast.Subscript v (inl i))
| q_Subscript_other v d : expr_quiet v -> expr_quiet (ast.Subscript v (inr d))
| q_BinOp l op r : expr_quiet l -> expr_quiet r -> expr_quiet (ast.BinOp l op r)
| q_Compare l ops cs : expr_quiet l -> Forall expr_quiet cs -> expr_quiet (ast.Compare l ops cs)
| q_BoolOp op vs : Forall expr_quiet vs -> expr_quiet (ast.BoolOp op vs)
| q_UnaryOp op o : expr_quiet o -> expr_quiet (ast.UnaryOp op o)
| q_Call f xs : Forall expr_quiet xs -> expr_quiet (ast.Call f xs)
| q_List elts : Forall expr_quiet elts -> expr_quiet (ast.List elts)
| q_Dict keys values : Forall expr_quiet values -> expr_quiet (ast.Dict keys values)
| q_OtherExpr d : expr_quiet (ast.OtherExpr d)
| q_LLL n : quiet n -> expr_quiet (ast.LLL n).

Inductive stmt_quiet : ast.stmt -> Prop :=
| q_Expr v : expr_quiet v -> stmt_quiet (ast.Expr v)
| q_Pass : stmt_quiet ast.Pass
| q_AnnAssign t a : stmt_quiet (ast.AnnAssign t a)
| q_Assign ts v : Forall expr_quiet ts -> expr_quiet v -> stmt_quiet (ast.Assign ts v)
| q_If t b e : expr_quiet t -> Forall stmt_quiet b -> Forall stmt_quiet e -> stmt_quiet (ast.If t b e)
| q_Assert t : expr_quiet t -> stmt_quiet (ast.Assert t)
| q_For t i b : expr_quiet i -> Forall stmt_quiet b -> stmt_quiet (ast.For t i b)
| q_AugAssign t op v : expr_quiet t -> expr_quiet v -> stmt_quiet (ast.AugAssign t op v)
| q_Break : stmt_quiet ast.Break
| q_Return v : (forall e, v = Some e -> expr_quiet e) -> stmt_quiet (ast.Return v)
| q_OtherStmt : stmt_quiet ast.OtherStmt.


(** [def get() -> num(const): x = 1; return x + 1]. *)
Definition def_get : ast.FunctionDef :=
  ast.mkFunctionDef "get" []
    (Some (ast.Call (ast.Name "num") [ast.Name "const"]))
    [ast.Assign [ast.Name "x"] (ast.Num (ast.Int 1));
     ast.Return (Some (ast.BinOp (ast.Name "x") ast.Add (ast.Num (ast.Int 1))))].

(** ** Sample programs *)

(** A module with two functions of one name. *)
Definition module_f_f : list toplevel :=
  [TopDef (def_pass "f"); TopDef (def_pass "f")].

(** [['add', 1, 2]]. *)
Definition add_1_2 : pyobj := OList [OStr "add"; OInt 1; OInt 2].

(** [[1, 2]] and [{a: 1, b: 2}]. *)
Definition list_1_2 : ast.expr :=
  ast.List [ast.Num (ast.Int 1); ast.Num (ast.Int 2)].

Definition dict_a_b : ast.expr :=
  ast.Dict [ast.Name "a"; ast.Name "b"] [ast.Num (ast.Int 1); ast.Num (ast.Int 2)].

(** A struct [{a: num, b: num}] in the storage slot 0. *)
Definition struct_a_b : LLLnode :=
  mkLLLnode (VInt 0) []
    (Some (StructType [("a", Some (BaseType1 (H0 := Fixture.types_module) "num")); ("b", Some (BaseType1 (H0 := Fixture.types_module) "num"))]))
    (Some storage) 1.

(** The context of a function of [module_f_g]. *)
Definition context_x : Context :=
  mkContext ∅ ∅ (<["x" := (0, BaseType1 (H0 := Fixture.types_module) "num")]> ∅) ∅ None false.

(** * Properties *)

(** ** The constructor on the shapes the translator builds *)

Lemma bind_Ok {A B} (r : result A) (k : A -> result B) (b : B) :
  bind r k = Ok b -> exists a, r = Ok a /\ k a = Ok b.
Proof. destruct r; simpl; intros E; [eauto | discriminate]. Qed.

Lemma raise_if_false e : raise_if false e = Ok tt.
Proof. reflexivity. Qed.

Lemma raise_if_Ok c e u : raise_if c e = Ok u -> c = false.
Proof. destruct c; simpl; [discriminate | reflexivity]. Qed.

(** Inversion of a successful run: splits the binds of a hypothesis
    [H : ... = Ok _] into the steps that succeeded. *)
Ltac inv_ok H :=
  lazymatch type of H with
  | bind ?r ?k = Ok _ =>
      let a := fresh "a" in
      let E := fresh "E" in
      apply bind_Ok in H as (a & E & H); cbn beta in H;
      inv_ok E;
      try (match type of E with Ok _ = Ok _ => injection E as E; subst a end);
      inv_ok H
  | raise_if ?c ?e = Ok _ => apply raise_if_Ok in H
  | Err _ = Ok _ => discriminate H
  | (let (_, _) := ?p in _) = Ok _ => destruct p; inv_ok H
  | _ => idtac
  end.

(** An induction principle for [pyobj] that reaches into the lists. *)
Lemma pyobj_ind' (P : pyobj -> Prop)
    (fint : forall n, P (OInt n)) (fstr : forall s, P (OStr s))
    (fnone : P ONone) (fother : P OOther) (fnode : forall n, P (ONode n))
    (flist : forall l, Forall P l -> P (OList l)) : forall o, P o.
Proof.
  exact (fix go (o : pyobj) : P o :=
    match o with
    | OInt n => fint n
    | OStr s => fstr s
    | ONone => fnone
    | OOther => fother
    | ONode n => fnode n
    | OList l =>
        flist l ((fix all (l : list pyobj) : Forall P l :=
                    match l with
                    | [] => @List.Forall_nil _ P
                    | x :: r => @List.Forall_cons _ P x r (go x) (all r)
                    end) l)
    end).
Qed.

Section Basics.
Context {Ops : OpcodesModule} {Types : TypesModule}.

(** A registered opcode with the right number of arguments, none of
    them zerovalent, is built with the registered valency. *)
Lemma init_op (s : string) (xs : list LLLnode) t l (a v : Z) :
  has_op (upper s) a v = true ->
  len xs = a ->
  existsb (fun arg => valency arg =? 0) xs = false ->
  LLLnode_init (PStr s) xs t l = Ok (mkLLLnode (VStr s) xs t l v).
Proof.
  unfold has_op, LLLnode_init, str_valency. intros Hop Hlen Hval.
  destruct (lookup_op (upper s)) as [r|]; [|discriminate].
  apply andb_true_iff in Hop as [Ha Hv].
  apply Z.eqb_eq in Ha, Hv. subst a v.
  rewrite Hlen, Z.eqb_refl, Hval. reflexivity.
Qed.

(** An integer literal. *)
Lemma init_int (n : Z) xs t l :
  LLLnode_init (PInt n) xs t l = Ok (mkLLLnode (VInt n) xs t l 1).
Proof. reflexivity. Qed.

(** A name that is neither registered nor a control form is a variable. *)
Lemma init_var (s : string) (xs : list LLLnode) t l :
  no_op (upper s) = true ->
  in_strs s ["if"; "with"; "repeat"; "seq"; "multi"] = false ->
  LLLnode_init (PStr s) xs t l = Ok (mkLLLnode (VStr s) xs t l 1).
Proof.
  unfold no_op, LLLnode_init, str_valency. intros Hno Hs.
  destruct (lookup_op (upper s)); [discriminate|].
  cbn in Hs. repeat (apply orb_false_iff in Hs as [? Hs]).
  repeat match goal with H : eqs s _ = false |- _ => rewrite H; clear H end.
  reflexivity.
Qed.

Lemma init_with (v init body : LLLnode) t l :
  no_op "WITH" = true ->
  args v = [] -> is_str (value v) = true -> valency init <> 0 ->
  LLLnode_init (PStr "with") [v; init; body] t l
  = Ok (mkLLLnode (VStr "with") [v; init; body] t l (valency body)).
Proof.
  unfold no_op, LLLnode_init, str_valency. intros Hno Hv Hs Hi.
  change (upper "with") with "WITH".
  destruct (lookup_op "WITH"); [discriminate|].
  cbn. rewrite Hv, Hs. apply Z.eqb_neq in Hi. rewrite Hi. reflexivity.
Qed.

Lemma init_seq (xs : list LLLnode) t l :
  no_op "SEQ" = true ->
  LLLnode_init (PStr "seq") xs t l
  = Ok (mkLLLnode (VStr "seq") xs t l (last_valency xs)).
Proof.
  unfold no_op, LLLnode_init, str_valency. intros Hno.
  change (upper "seq") with "SEQ".
  destruct (lookup_op "SEQ"); [discriminate|]. reflexivity.
Qed.

Lemma init_multi (xs : list LLLnode) t l :
  no_op "MULTI" = true ->
  existsb (fun arg => valency arg =? 0) xs = false ->
  LLLnode_init (PStr "multi") xs t l
  = Ok (mkLLLnode (VStr "multi") xs t l (sum_valency xs)).
Proof.
  unfold no_op, LLLnode_init, str_valency. intros Hno Hxs.
  change (upper "multi") with "MULTI".
  destruct (lookup_op "MULTI"); [discriminate|]. cbn. rewrite Hxs. reflexivity.
Qed.

(** [from_list] on a list: the children first, then the node. *)
Lemma from_list_list (o0 : pyobj) rest t l xs n :
  mapM (fun o => from_list o (TTyp None) None) rest = Ok xs ->
  LLLnode_init (pyval_of o0) xs (typ_of_arg t) l = Ok n ->
  from_list (OList (o0 :: rest)) t l = Ok n.
Proof. intros Hxs Hn. cbn [from_list]. rewrite Hxs. exact Hn. Qed.

Lemma mapM_cons_Ok {A B} (f : A -> result B) x xs y ys :
  f x = Ok y -> mapM f xs = Ok ys -> mapM f (x :: xs) = Ok (y :: ys).
Proof. intros Hx Hxs. cbn [mapM]. rewrite Hx. cbn [bind]. fold (mapM f). rewrite Hxs. reflexivity. Qed.

Lemma Ok_trans {A} (r : result A) (a b : A) : r = Ok a -> a = b -> r = Ok b.
Proof. intros -> ->. reflexivity. Qed.

End Basics.

(** Builds the node of an object bottom-up, using the hypotheses on the
    tables that are in the context. *)
Ltac valencies :=
  cbn [existsb valency orb node var int_literal];
  repeat match goal with
         | H : valency ?a <> 0 |- context [valency ?a =? 0] =>
             rewrite (proj2 (Z.eqb_neq (valency a) 0) H)
         end;
  reflexivity.

Ltac build_init :=
  cbn [pyval_of typ_of_arg];
  lazymatch goal with
  | |- LLLnode_init (PInt _) _ _ _ = _ => apply init_int
  | |- LLLnode_init (PStr "with") _ _ _ = _ =>
      apply init_with; first [assumption | reflexivity | discriminate]
  | |- LLLnode_init (PStr "seq") _ _ _ = _ => apply init_seq; assumption
  | |- LLLnode_init (PStr ?s) _ _ _ = _ =>
      first [ eapply init_op; [eassumption | reflexivity | valencies]
            | apply init_var; [assumption | reflexivity] ]
  end.

Ltac build_obj :=
  lazymatch goal with
  | |- from_list (ONode _) _ _ = _ => reflexivity
  | |- from_list (OList (_ :: _)) _ _ = _ =>
      eapply from_list_list; [build_args | build_init]
  | |- from_list _ _ _ = _ => cbn [from_list]; build_init
  end
with build_args :=
  lazymatch goal with
  | |- mapM _ [] = _ => reflexivity
  | |- mapM _ (_ :: _) = _ => eapply mapM_cons_Ok; [build_obj | build_args]
  end.

Ltac build := eapply Ok_trans; [build_obj | try reflexivity].

(** ** Function details: signature, selector and offsets (C1, C8) *)

Lemma mapM_Forall2 {A B} (f : A -> result B) (l : list A) (r : list B) :
  mapM f l = Ok r -> Forall2 (fun a b => f a = Ok b) l r.
Proof.
  revert r. induction l as [|a l IH]; intros r Hr; cbn [mapM] in Hr.
  - injection Hr as <-. constructor.
  - apply bind_Ok in Hr as (b & Hb & Hr). cbn beta in Hr.
    apply bind_Ok in Hr as (bs & Hbs & Hr). injection Hr as <-.
    constructor; [assumption|]. apply IH. exact Hbs.
Qed.

Lemma byte_int_range (b : Byte.byte) : 0 <= byte_int b < 256.
Proof.
  unfold byte_int. pose proof (Byte.to_N_bounded b). lia.
Qed.

(** Four bytes, high byte first. *)
Lemma fourbytes_to_int_Ok (inp : list Byte.byte) (z : Z) :
  fourbytes_to_int inp = Ok z ->
  exists b0 b1 b2 b3 rest,
    inp = b0 :: b1 :: b2 :: b3 :: rest
    /\ z = byte_int b0 * 2 ^ 24 + byte_int b1 * 2 ^ 16 + byte_int b2 * 2 ^ 8
           + byte_int b3.
Proof.
  unfold fourbytes_to_int. intros Hz.
  destruct inp as [|b0 [|b1 [|b2 [|b3 rest]]]]; try discriminate.
  cbn in Hz. injection Hz as <-.
  exists b0, b1, b2, b3, rest. split; [reflexivity|].
  rewrite !Z.shiftl_mul_pow2 by lia. reflexivity.
Qed.

Lemma firstn_4_cons {A} (l : list A) (b0 b1 b2 b3 : A) rest :
  firstn 4 l = b0 :: b1 :: b2 :: b3 :: rest ->
  rest = [] /\ exists tail, l = b0 :: b1 :: b2 :: b3 :: tail.
Proof.
  destruct l as [|a0 [|a1 [|a2 [|a3 tail]]]]; try discriminate.
  cbn. intros H. injection H as -> -> -> -> <-. eauto.
Qed.

Section FunctionDetails.
Context {Types : TypesModule} {Hash : HashModule}.

(** C1. When [get_func_details] returns, the signature is the name, an
    opening bracket, the canonical names of the parameters' annotated
    types joined by commas, and a closing bracket; the selector is
    [b0 * 2^24 + b1 * 2^16 + b2 * 2^8 + b3] for the first four bytes
    [b0 b1 b2 b3] of the Keccak-256 digest of the signature's bytes, a
    number below [2^32]. *)
Theorem signature_and_selector (code : ast.FunctionDef) (d : func_details) :
  get_func_details code = Ok d ->
  exists canon b0 b1 b2 b3 tail,
    Forall2 canonical_of (ast.args code) canon
    /\ fd_sig d = ast.name code +:+ "(" +:+ join "," canon +:+ ")"
    /\ sha3_256 (bytes_of (fd_sig d)) = b0 :: b1 :: b2 :: b3 :: tail
    /\ fd_method_id d
       = byte_int b0 * 2 ^ 24 + byte_int b1 * 2 ^ 16 + byte_int b2 * 2 ^ 8
         + byte_int b3
    /\ 0 <= fd_method_id d < 2 ^ 32.
Proof.
  unfold get_func_details. intros Hd.
  apply bind_Ok in Hd as (args & _ & Hd). cbn beta in Hd.
  apply bind_Ok in Hd as ([output_type const] & _ & Hd).
  apply bind_Ok in Hd as (_ & _ & Hd). cbn beta in Hd.
  apply bind_Ok in Hd as (canon & Hcanon & Hd). cbn beta zeta in Hd.
  apply bind_Ok in Hd as (method_id & Hid & Hd). injection Hd as <-.
  cbn [fd_sig fd_method_id].
  apply fourbytes_to_int_Ok in Hid as (b0 & b1 & b2 & b3 & rest & Hbytes & ->).
  apply firstn_4_cons in Hbytes as (-> & tail & Hbytes).
  exists canon, b0, b1, b2, b3, tail. repeat apply conj.
  - apply mapM_Forall2 in Hcanon.
    eapply Forall2_impl; [exact Hcanon|].
    intros a c Hc. cbn beta in Hc. unfold canonical_of.
    destruct (ast.annotation a) as [annotation|]; [|discriminate].
    destruct (parse_type annotation None) as [e|t] eqn:Ht; [discriminate|].
    cbn [lift bind] in Hc.
    destruct (canonicalize_type t) as [e|c'] eqn:Hc'; [discriminate|].
    injection Hc as <-. eauto.
  - reflexivity.
  - exact Hbytes.
  - reflexivity.
  - pose proof (byte_int_range b0). pose proof (byte_int_range b1).
    pose proof (byte_int_range b2). pose proof (byte_int_range b3). lia.
  - pose proof (byte_int_range b0). pose proof (byte_int_range b1).
    pose proof (byte_int_range b2). pose proof (byte_int_range b3). lia.
Qed.

(** The loop over the parameters appends one entry per parameter, at
    the offset of its place in the whole list. *)
Lemma bind_args_spec (name : string) (n_all : Z) (todo : list ast.arg) :
  forall acc res,
    bind_args name n_all todo acc = Ok res ->
    exists new,
      res = acc ++ new
      /\ length new = length todo
      /\ forall k a,
           nth_error todo k = Some a ->
           exists annotation t,
             ast.annotation a = Some annotation
             /\ parse_type annotation None = inr t
             /\ nth_error new k
                = Some (ast.arg_ a, param_offset name n_all (len acc + Z.of_nat k), t).
Proof.
  induction todo as [|a todo IH]; intros acc res Hres; cbn [bind_args] in Hres.
  - injection Hres as <-. exists []. rewrite app_nil_r.
    repeat split. intros [|k] b Hb; discriminate.
  - destruct (ast.annotation a) as [annotation|] eqn:Ha; [|discriminate].
    apply bind_Ok in Hres as (_ & _ & Hres). cbn beta in Hres.
    apply bind_Ok in Hres as (_ & _ & Hres). cbn beta in Hres.
    destruct (parse_type annotation None) as [e|t] eqn:Ht; [discriminate|].
    cbn [lift bind] in Hres. cbv zeta in Hres.
    apply IH in Hres as (new & -> & Hlen & Hnew).
    exists ((ast.arg_ a, param_offset name n_all (len acc), t) :: new).
    repeat apply conj.
    + rewrite <- app_assoc. cbn [app]. unfold param_offset.
      destruct (eqs name "__init__"); reflexivity.
    + cbn [length]. rewrite Hlen. reflexivity.
    + intros [|k] b Hb; cbn [nth_error] in Hb |- *.
      * injection Hb as <-. exists annotation, t. repeat split; try assumption.
        rewrite Z.add_0_r. reflexivity.
      * destruct (Hnew k b Hb) as (an & t' & Han & Ht' & Hk).
        exists an, t'. repeat split; try assumption.
        rewrite Hk. unfold len. rewrite length_app. cbn [length].
        replace (Z.of_nat (length acc + 1) + Z.of_nat k)
          with (Z.of_nat (length acc) + Z.of_nat (S k)) by lia.
        reflexivity.
Qed.

(** C8. When [get_func_details] returns for a function with [N]
    parameters, its list of arguments has [N] entries and the [k]-th
    (from 0) carries the parameter's name, its parsed type and the
    offset [4 + 32 k], or [-32 N + 32 k] when the function is
    [__init__]. *)
Theorem parameter_offsets (code : ast.FunctionDef) (d : func_details) :
  get_func_details code = Ok d ->
  let N := len (ast.args code) in
  len (fd_args d) = N
  /\ forall k a,
       nth_error (ast.args code) k = Some a ->
       exists t,
         nth_error (fd_args d) k
         = Some (ast.arg_ a,
                 if eqs (ast.name code) "__init__"
                 then -32 * N + 32 * Z.of_nat k
                 else 4 + 32 * Z.of_nat k,
                 t).
Proof.
  intros Hd N. unfold get_func_details in Hd.
  apply bind_Ok in Hd as (args & Hargs & Hd). cbn beta in Hd.
  apply bind_Ok in Hd as ([output_type const] & _ & Hd).
  apply bind_Ok in Hd as (_ & _ & Hd). cbn beta in Hd.
  apply bind_Ok in Hd as (canon & _ & Hd). cbn beta zeta in Hd.
  apply bind_Ok in Hd as (method_id & _ & Hd). injection Hd as <-.
  cbn [fd_args].
  apply bind_args_spec in Hargs as (new & -> & Hlen & Hnew).
  cbn [app]. split.
  - unfold N, len. rewrite Hlen. reflexivity.
  - intros k a Ha. destruct (Hnew k a Ha) as (an & t & _ & _ & Hk).
    exists t. rewrite Hk. reflexivity.
Qed.

End FunctionDetails.

Section FunctionDetailsOnTheFixture.
Import Fixture.
#[local] Existing Instance types_module.
#[local] Existing Instance Keccak.hash_module.

(** The digest of the empty message. *)
Example keccak_256_empty :
  Keccak.keccak_256 []
  = [0xc5; 0xd2; 0x46; 0x01; 0x86; 0xf7; 0x23; 0x3c; 0x92; 0x7e; 0x7d; 0xb2;
     0xdc; 0xc7; 0x03; 0xc0; 0xe5; 0x00; 0xb6; 0x53; 0xca; 0x82; 0x27; 0x3b;
     0x7b; 0xfa; 0xd8; 0x04; 0x5d; 0x85; 0xa4; 0x70].
Proof. vm_compute. reflexivity. Qed.

(** [transfer(address,uint256)] has the selector [0xa9059cbb]. *)
Example transfer_details :
  exists d, get_func_details transfer_def = Ok d
            /\ fd_sig d = "transfer(address,uint256)"
            /\ fd_method_id d = 0xa9059cbb
            /\ fd_args d = [("to", 4, BaseType "address" None false);
                            ("value", 36, BaseType "num256" None false)].
Proof. eexists. split; [vm_compute; reflexivity|]. repeat split. Qed.

Lemma signature_and_selector_witness :
  exists d canon b0 b1 b2 b3 tail,
    get_func_details transfer_def = Ok d
    /\ Forall2 canonical_of (ast.args transfer_def) canon
    /\ fd_sig d = ast.name transfer_def +:+ "(" +:+ join "," canon +:+ ")"
    /\ sha3_256 (bytes_of (fd_sig d)) = b0 :: b1 :: b2 :: b3 :: tail
    /\ fd_method_id d
       = byte_int b0 * 2 ^ 24 + byte_int b1 * 2 ^ 16 + byte_int b2 * 2 ^ 8
         + byte_int b3
    /\ 0 <= fd_method_id d < 2 ^ 32.
Proof.
  eexists.
  assert (H : get_func_details transfer_def = Ok _) by (vm_compute; reflexivity).
  destruct (signature_and_selector transfer_def _ H)
    as (canon & b0 & b1 & b2 & b3 & tail & H1 & H2 & H3 & H4 & H5).
  exists canon, b0, b1, b2, b3, tail.
  split; [exact H|]. repeat split; assumption || apply H5.
Defined.

Lemma parameter_offsets_witness :
  exists d,
    get_func_details init_def = Ok d
    /\ len (fd_args d) = 3
    /\ forall k a,
         nth_error (ast.args init_def) k = Some a ->
         exists t,
           nth_error (fd_args d) k
           = Some (ast.arg_ a, -32 * 3 + 32 * Z.of_nat k, t).
Proof.
  eexists.
  assert (H : get_func_details init_def = Ok _) by (vm_compute; reflexivity).
  split; [exact H|]. exact (parameter_offsets init_def _ H).
Defined.

End FunctionDetailsOnTheFixture.

(** ** The valency invariants of [LLLnode] (C2) *)

Section ConstructorChecks.
Context {Ops : OpcodesModule} {Types : TypesModule}.

Lemma existsb_zero_valency (xs : list LLLnode) :
  existsb (fun arg => valency arg =? 0) xs = false <-> Forall nonzero_valency xs.
Proof.
  induction xs as [|a xs IH]; simpl.
  - split; [constructor | reflexivity].
  - rewrite orb_false_iff, IH. split.
    + intros [Ha Hxs]. constructor; [|assumption].
      apply Z.eqb_neq. assumption.
    + intros Hf. inversion Hf; subst. split; [|assumption].
      apply Z.eqb_neq. assumption.
Qed.

Lemma len_length {A} (xs : list A) (k : nat) : len xs = Z.of_nat k <-> length xs = k.
Proof. unfold len. lia. Qed.

(** Opcodes and pseudo-opcodes: accepted exactly when the number of
    arguments is the registered arity and no argument is zerovalent. *)
Lemma str_valency_opcode (s : string) (xs : list LLLnode) (r : oprecord) :
  lookup_op (upper s) = Some r ->
  forall v, str_valency s xs = Ok v <->
            len xs = op_arity r /\ Forall nonzero_valency xs /\ v = op_valency r.
Proof.
  intros Hr v. unfold str_valency. rewrite Hr.
  destruct (Z.eqb_spec (len xs) (op_arity r)) as [Hlen|Hlen]; simpl.
  - destruct (existsb (fun arg => valency arg =? 0) xs) eqn:Hex; simpl.
    + split; [discriminate|]. intros (_ & Hf & _).
      apply existsb_zero_valency in Hf. congruence.
    + apply existsb_zero_valency in Hex. split.
      * intros [= <-]. auto.
      * intros (_ & _ & ->). reflexivity.
  - split; [discriminate|]. intros (Hl & _). contradiction.
Qed.

(** [if]: accepted exactly under [if_arguments]; the valency is the
    body's. *)
Lemma str_valency_if (xs : list LLLnode) :
  lookup_op "IF" = None ->
  forall v, str_valency "if" xs = Ok v <->
            if_arguments xs
            /\ exists body, nth_error xs 1 = Some body /\ v = valency body.
Proof.
  intros Hr v. unfold str_valency. change (upper "if") with "IF". rewrite Hr.
  change (eqs "if" "if") with true. cbv iota.
  unfold if_arguments, nonzero_valency.
  destruct xs as [|test [|body [|orelse [|x rest]]]]; [cbn..|].
  - split; [discriminate|]. intros ((?&?&?&?&_)&_). congruence.
  - destruct (valency test =? 0); cbn; (split; [discriminate|]);
      intros ((?&?&?&?&_)&_); congruence.
  - destruct (Z.eqb_spec (valency body) 0) as [Hb|Hb]; cbn.
    + destruct (Z.eqb_spec (valency test) 0) as [Ht|Ht]; cbn.
      * split; [discriminate|].
        intros ((?&?&?&[= <- <- <-]&Hn&_)&_). contradiction.
      * split.
        -- intros [= <-]. split; [|eauto].
           exists test, body, []. auto.
        -- intros (_&b&[= <-]&->). reflexivity.
    + split; [discriminate|].
      intros ((?&?&?&[= <- <- <-]&_&[[_ Hz]|(?&?&_)])&_);
        [contradiction | congruence].
  - destruct (Z.eqb_spec (valency body) (valency orelse)) as [Hb|Hb]; cbn.
    + destruct (Z.eqb_spec (valency test) 0) as [Ht|Ht]; cbn.
      * split; [discriminate|].
        intros ((?&?&?&[= <- <- <-]&Hn&_)&_). contradiction.
      * split.
        -- intros [= <-]. split; [|eauto].
           exists test, body, [orelse]. eauto 6.
        -- intros (_&b&[= <-]&->). reflexivity.
    + split; [discriminate|].
      intros ((?&?&?&[= <- <- <-]&_&[[? _]|(?&[= <-]&?)])&_);
        [congruence | contradiction].
  - assert (H3 : (len (test :: body :: orelse :: x :: rest) =? 3) = false)
      by (apply Z.eqb_neq; unfold len; cbn [length]; lia).
    assert (H2 : (len (test :: body :: orelse :: x :: rest) =? 2) = false)
      by (apply Z.eqb_neq; unfold len; cbn [length]; lia).
    rewrite H3, H2. cbn.
    destruct (valency test =? 0); cbn; (split; [discriminate|]);
      intros ((?&?&?&[= <- <- <-]&_&[[? _]|(?&?&_)])&_); congruence.
Qed.


Lemma index_Ok {A} (l : list A) (i : nat) (x : A) :
  index l i = Ok x -> nth_error l i = Some x.
Proof. unfold index. destruct (nth_error l i); [intros [= ->]; reflexivity | discriminate]. Qed.

(** Every node that [LLLnode.__init__] returns satisfies the invariants. *)
Lemma str_valency_invariant (s : string) (xs : list LLLnode) t l (v : Z) :
  str_valency s xs = Ok v -> node_invariant (mkLLLnode (VStr s) xs t l v).
Proof.
  intros Hv. unfold node_invariant. cbn [value args valency].
  destruct (lookup_op (upper s)) as [r|] eqn:Hr.
  - apply (str_valency_opcode s xs r Hr) in Hv. exact Hv.
  - destruct (eqs s "if") eqn:Hif.
    { apply String.eqb_eq in Hif. subst s.
      apply str_valency_if in Hv; [|exact Hr]. exact Hv. }
    unfold str_valency in Hv. rewrite Hr, Hif in Hv.
    destruct (eqs s "with") eqn:Hwith.
    { destruct (Z.eqb_spec (len xs) 3) as [H3|H3]; [|discriminate].
      apply (len_length xs 3) in H3.
      destruct xs as [|x0 [|x1 [|x2 [|x3 xs]]]]; try discriminate.
      cbn in Hv.
      destruct (negb (len (args x0) =? 0) || negb (is_str (value x0))) eqn:Hx0;
        [discriminate|].
      destruct (valency x1 =? 0) eqn:Hx1; [discriminate|].
      cbn in Hv. injection Hv as <-.
      apply orb_false_iff in Hx0 as [Ha Hb].
      apply negb_false_iff in Ha, Hb. apply Z.eqb_eq in Ha.
      apply (len_length (args x0) 0) in Ha.
      exists x0, x1, x2. repeat split; try assumption.
      - destruct (args x0); [reflexivity | discriminate].
      - apply Z.eqb_neq. assumption. }
    destruct (eqs s "repeat") eqn:Hrep.
    { destruct xs as [|x0 [|x1 [|x2 [|x3 xs]]]]; try discriminate.
      { cbn in Hv.
        destruct (negb (len (args x2) =? 0) || negb (is_int (value x2))
                  || int_le0 (value x2)); [discriminate|].
        destruct (valency x0 =? 0); [discriminate|].
        destruct (valency x1 =? 0); discriminate. }
      cbn in Hv.
      destruct (negb (len (args x2) =? 0) || negb (is_int (value x2))
                || int_le0 (value x2)) eqn:Hx2; [discriminate|].
      destruct (valency x0 =? 0) eqn:Hx0; [discriminate|].
      destruct (valency x1 =? 0) eqn:Hx1; [discriminate|].
      destruct (valency x3 =? 0) eqn:Hx3; [|discriminate].
      cbn in Hv. injection Hv as <-.
      apply orb_false_iff in Hx2 as [Hx2 Hk].
      apply orb_false_iff in Hx2 as [Ha Hb].
      apply negb_false_iff in Ha, Hb. apply Z.eqb_eq in Ha, Hx3.
      apply (len_length (args x2) 0) in Ha.
      apply Z.eqb_neq in Hx0, Hx1.
      exists x0, x1, x2, x3, xs. repeat split; try assumption.
      - destruct (args x2); [reflexivity | discriminate].
      - destruct (value x2) as [k| |]; try discriminate.
        exists k. split; [reflexivity|]. cbn in Hk. apply Z.leb_gt in Hk. exact Hk. }
    destruct (eqs s "seq") eqn:Hseq.
    { injection Hv as <-. reflexivity. }
    destruct (eqs s "multi") eqn:Hmulti.
    { inv_ok Hv. injection Hv as <-. split; [|reflexivity].
      apply existsb_zero_valency. assumption. }
    injection Hv as <-. reflexivity.
Qed.

Lemma LLLnode_init_fields (v : pyval) (xs : list LLLnode) t l (n : LLLnode) :
  LLLnode_init v xs t l = Ok n ->
  args n = xs /\ typ n = t /\ location n = l /\ node_invariant n.
Proof.
  unfold LLLnode_init. intros Hn.
  destruct v as [k|s| |].
  - injection Hn as <-. repeat split.
  - inv_ok Hn. injection Hn as <-. repeat split.
    apply str_valency_invariant. assumption.
  - destruct (isinstance_NullType t); [|discriminate].
    injection Hn as <-. repeat split.
  - discriminate.
Qed.

(** A node built from well-formed children is well formed. *)
Lemma LLLnode_init_well_formed (v : pyval) (xs : list LLLnode) t l (n : LLLnode) :
  Forall well_formed xs ->
  LLLnode_init v xs t l = Ok n ->
  well_formed n.
Proof.
  intros Hxs Hn. apply LLLnode_init_fields in Hn as (Ha & _ & _ & Hinv).
  constructor; [assumption|]. rewrite Ha. assumption.
Qed.

Lemma mapM_Forall {A B} (f : A -> result B) (P : A -> Prop) (Q : B -> Prop)
    (l : list A) (r : list B) :
  Forall (fun a => P a /\ forall b, f a = Ok b -> Q b) l ->
  mapM f l = Ok r -> Forall Q r.
Proof.
  intros Hl. revert r. induction Hl as [|a l [_ Ha] _ IH]; cbn; intros r Hr.
  - injection Hr as <-. constructor.
  - inv_ok Hr. injection Hr as <-. constructor; eauto.
Qed.

(** [from_list] on an object whose nodes are well formed. *)
Lemma from_list_well_formed (obj : pyobj) :
  obj_well_formed obj ->
  forall t l n, from_list obj t l = Ok n -> well_formed n.
Proof.
  induction obj as [k|s| | |m|xs IH] using pyobj_ind'; intros Hobj t l n Hn;
    cbn [from_list] in Hn.
  1-4: eapply LLLnode_init_well_formed; [constructor | exact Hn].
  - injection Hn as <-. inversion Hobj; assumption.
  - destruct xs as [|o0 rest]; [discriminate|].
    inv_ok Hn. eapply LLLnode_init_well_formed; [|exact Hn].
    inversion Hobj as [| | | | |? Hall]; subst.
    inversion Hall as [|? ? _ Hrest]; subst.
    inversion IH as [|? ? _ IHrest]; subst.
    eapply (mapM_Forall _ obj_well_formed); [|eassumption].
    clear - Hrest IHrest.
    induction Hrest as [|o rest Ho Hrest IHr]; constructor.
    + split; [assumption|]. inversion IHrest; subst. intros b Hb. eauto.
    + apply IHr. inversion IHrest; assumption.
Qed.

End ConstructorChecks.

(** ** Every tree of the translator is well formed *)

(** Case analysis on a successful run: the binds are split and every
    conditional or match that decides the result is destructed. *)
Ltac inv_cases H :=
  repeat first
    [ progress inv_ok H
    | match type of H with
      | (if ?c then _ else _) = Ok _ => destruct c
      | match ?x with _ => _ end = Ok _ => destruct x
      end ].

(** Closes [well_formed n] from [H], the construction of [n] out of
    well-formed pieces. *)
Ltac wf_close H :=
  repeat match type of H with
         | context [if ?c then _ else _] => destruct c
         end;
  solve
    [ injection H as <-; assumption
    | eapply from_list_well_formed; [|exact H];
      repeat (constructor; try assumption)
    | eapply LLLnode_init_well_formed; [|exact H]; assumption ].

Section WellFormed.
Context {Ops : OpcodesModule} {Types : TypesModule}.

Lemma well_formed_args (n : LLLnode) : well_formed n -> Forall well_formed (args n).
Proof. intros Hn. inversion Hn; assumption. Qed.

Lemma unwrap_location_wf (orig n : LLLnode) :
  well_formed orig -> unwrap_location orig = Ok n -> well_formed n.
Proof.
  intros Ho Hn. unfold unwrap_location in Hn. inv_cases Hn; wf_close Hn.
Qed.

Lemma base_type_conversion_wf (orig : LLLnode) frm to (n : LLLnode) :
  well_formed orig -> base_type_conversion orig frm to = Ok n -> well_formed n.
Proof.
  intros Ho Hn. unfold base_type_conversion in Hn.
  apply bind_Ok in Hn as (o & Eo & Hn).
  apply unwrap_location_wf in Eo; [|assumption].
  pose proof (well_formed_args o Eo).
  inv_cases Hn; wf_close Hn.
Qed.

Lemma add_variable_offset_wf (parent : LLLnode) (key : offset_key) (n : LLLnode) :
  well_formed parent ->
  (forall k, key = KNode k -> well_formed k) ->
  add_variable_offset parent key = Ok n -> well_formed n.
Proof.
  intros Hp Hk Hn. unfold add_variable_offset in Hn.
  destruct (typ parent) as [[| | | | | |]|]; try discriminate.
  - (* lists *)
    apply bind_Ok in Hn as ([st sub] & Esub & Hn).
    assert (Hsub : obj_well_formed sub).
    { destruct key as [|k]; [discriminate|].
      inv_ok Esub. injection Esub as <- <-.
      apply base_type_conversion_wf in E; [|auto].
      repeat (constructor; try assumption). }
    inv_cases Hn; wf_close Hn.
  - (* mappings *)
    apply bind_Ok in Hn as ([st sub] & Esub & Hn).
    assert (Hsub : obj_well_formed sub).
    { destruct key as [|k]; [discriminate|].
      inv_ok Esub. injection Esub as <- <-.
      apply base_type_conversion_wf in E; [|auto].
      repeat (constructor; try assumption). }
    inv_cases Hn; wf_close Hn.
  - (* structs *)
    inv_cases Hn; wf_close Hn.
Qed.

Lemma num_node_wf (k : ast.number) (n : LLLnode) : num_node k = Ok n -> well_formed n.
Proof. intros Hn. unfold num_node in Hn. inv_cases Hn; wf_close Hn. Qed.

Lemma str_node_wf (s : string) (n : LLLnode) : str_node s = Ok n -> well_formed n.
Proof. intros Hn. unfold str_node in Hn. inv_cases Hn; wf_close Hn. Qed.

Lemma nameconstant_node_wf (c : ast.constant) (n : LLLnode) :
  nameconstant_node c = Ok n -> well_formed n.
Proof. intros Hn. unfold nameconstant_node in Hn. inv_cases Hn; wf_close Hn. Qed.

Lemma name_node_wf (id : string) (context : Context) (n : LLLnode) :
  name_node id context = Ok n -> well_formed n.
Proof. intros Hn. unfold name_node in Hn. inv_cases Hn; wf_close Hn. Qed.

Lemma keyword_node_wf (key : string) (n : LLLnode) :
  keyword_node key = Ok n -> well_formed n.
Proof. intros Hn. unfold keyword_node in Hn. inv_cases Hn; wf_close Hn. Qed.

Lemma binop_node_wf (op : ast.operator) (l r n : LLLnode) :
  well_formed l -> well_formed r -> binop_node op l r = Ok n -> well_formed n.
Proof. intros Hl Hr Hn. unfold binop_node in Hn. inv_cases Hn; wf_close Hn. Qed.

Lemma compare_node_wf (ops : list ast.cmpop) (l r n : LLLnode) :
  well_formed l -> well_formed r -> compare_node ops l r = Ok n -> well_formed n.
Proof. intros Hl Hr Hn. unfold compare_node in Hn. inv_cases Hn; wf_close Hn. Qed.

Lemma boolop_node_wf (op : ast.boolop) (l r n : LLLnode) :
  well_formed l -> well_formed r -> boolop_node op l r = Ok n -> well_formed n.
Proof. intros Hl Hr Hn. unfold boolop_node in Hn. inv_cases Hn; wf_close Hn. Qed.

Lemma unaryop_node_wf (op : ast.unaryop) (o n : LLLnode) :
  well_formed o -> unaryop_node op o = Ok n -> well_formed n.
Proof. intros Ho Hn. unfold unaryop_node in Hn. inv_cases Hn; wf_close Hn. Qed.

Lemma floor_node_wf (sub n : LLLnode) :
  well_formed sub -> floor_node sub = Ok n -> well_formed n.
Proof. intros Ho Hn. unfold floor_node in Hn. inv_cases Hn; wf_close Hn. Qed.

Lemma decimal_node_wf (sub n : LLLnode) :
  well_formed sub -> decimal_node sub = Ok n -> well_formed n.
Proof. intros Ho Hn. unfold decimal_node in Hn. inv_cases Hn; wf_close Hn. Qed.

Lemma as_number_node_wf (sub n : LLLnode) :
  well_formed sub -> as_number_node sub = Ok n -> well_formed n.
Proof.
  intros Ho Hn. unfold as_number_node in Hn.
  pose proof (well_formed_args sub Ho).
  inv_cases Hn; wf_close Hn.
Qed.

Lemma clamp_by_type_wf (o n : LLLnode) :
  well_formed o -> clamp_by_type o = Ok n -> well_formed n.
Proof. intros Ho Hn. unfold clamp_by_type in Hn. inv_cases Hn; wf_close Hn. Qed.

End WellFormed.

(** An induction principle for expressions that reaches into the lists. *)
Lemma expr_ind' (P : ast.expr -> Prop)
    (fNum : forall n, P (ast.Num n))
    (fStr : forall s, P (ast.Str s))
    (fNameConstant : forall c, P (ast.NameConstant c))
    (fName : forall id, P (ast.Name id))
    (fAttribute : forall v a, P v -> P (ast.Attribute v a))
    (fSubscript : forall v s, P v -> (forall i, s = inl i -> P i) -> P (ast.Subscript v s))
    (fBinOp : forall l op r, P l -> P r -> P (ast.BinOp l op r))
    (fCompare : forall l ops cs, P l -> Forall P cs -> P (ast.Compare l ops cs))
    (fBoolOp : forall op vs, Forall P vs -> P (ast.BoolOp op vs))
    (fUnaryOp : forall op o, P o -> P (ast.UnaryOp op o))
    (fCall : forall f xs, P f -> Forall P xs -> P (ast.Call f xs))
    (fList : forall elts, Forall P elts -> P (ast.List elts))
    (fDict : forall ks vs, Forall P ks -> Forall P vs -> P (ast.Dict ks vs))
    (fOther : forall d, P (ast.OtherExpr d))
    (fLLL : forall n, P (ast.LLL n)) : forall e, P e.
Proof.
  exact (fix go (e : ast.expr) : P e :=
    let all := fix all (l : list ast.expr) : Forall P l :=
      match l with
      | [] => @List.Forall_nil _ P
      | x :: r => @List.Forall_cons _ P x r (go x) (all r)
      end in
    match e with
    | ast.Num n => fNum n
    | ast.Str s => fStr s
    | ast.NameConstant c => fNameConstant c
    | ast.Name id => fName id
    | ast.Attribute v a => fAttribute v a (go v)
    | ast.Subscript v s =>
        fSubscript v s (go v)
          (match s as s0 return forall i, s0 = inl i -> P i with
           | inl j => fun i E =>
               match E in _ = y return match y with inl k => P k | inr _ => True end with
               | eq_refl => go j
               end
           | inr d => fun i E =>
               match E in _ = y return match y with inl k => P i | inr _ => True end with
               | eq_refl => I
               end
           end)
    | ast.BinOp l op r => fBinOp l op r (go l) (go r)
    | ast.Compare l ops cs => fCompare l ops cs (go l) (all cs)
    | ast.BoolOp op vs => fBoolOp op vs (all vs)
    | ast.UnaryOp op o => fUnaryOp op o (go o)
    | ast.Call f xs => fCall f xs (go f) (all xs)
    | ast.List elts => fList elts (all elts)
    | ast.Dict ks vs => fDict ks vs (all ks) (all vs)
    | ast.OtherExpr d => fOther d
    | ast.LLL n => fLLL n
    end).
Qed.

(** Saturates the context with the well-formedness of intermediate
    results. *)
Ltac wf_step :=
  match goal with
  | IH : (forall c n, parse_expr ?e c = Ok n -> well_formed n),
    E : parse_expr ?e _ = Ok _ |- _ => apply IH in E
  | W : well_formed ?a, E : unwrap_location ?a = Ok _ |- _ =>
      apply (unwrap_location_wf _ _ W) in E
  | W1 : well_formed ?a, W2 : well_formed ?b, E : binop_node _ ?a ?b = Ok _ |- _ =>
      apply (binop_node_wf _ _ _ _ W1 W2) in E
  | W1 : well_formed ?a, W2 : well_formed ?b, E : compare_node _ ?a ?b = Ok _ |- _ =>
      apply (compare_node_wf _ _ _ _ W1 W2) in E
  | W1 : well_formed ?a, W2 : well_formed ?b, E : boolop_node _ ?a ?b = Ok _ |- _ =>
      apply (boolop_node_wf _ _ _ _ W1 W2) in E
  | W : well_formed ?a, E : unaryop_node _ ?a = Ok _ |- _ =>
      apply (unaryop_node_wf _ _ _ W) in E
  | W : well_formed ?a, E : clamp_by_type ?a = Ok _ |- _ =>
      apply (clamp_by_type_wf _ _ W) in E
  | W : well_formed ?a, E : floor_node ?a = Ok _ |- _ =>
      apply (floor_node_wf _ _ W) in E
  | W : well_formed ?a, E : decimal_node ?a = Ok _ |- _ =>
      apply (decimal_node_wf _ _ W) in E
  | W : well_formed ?a, E : as_number_node ?a = Ok _ |- _ =>
      apply (as_number_node_wf _ _ W) in E
  | W : well_formed ?a, E : add_variable_offset ?a (KStr _) = Ok _ |- _ =>
      apply (add_variable_offset_wf _ _ _ W) in E; [|discriminate]
  | W : well_formed ?a, W2 : well_formed ?k,
    E : add_variable_offset ?a (KNode ?k) = Ok _ |- _ =>
      apply (add_variable_offset_wf _ _ _ W) in E;
      [|let k' := fresh in let Ek := fresh in intros k' Ek; injection Ek as <-; exact W2]
  end.

Section WellFormedExpr.
Context {Ops : OpcodesModule} {Types : TypesModule}.

Lemma dict_loop_wf (parse : ast.expr -> result LLLnode) (values : list ast.expr) :
  Forall (fun v => forall n, parse v = Ok n -> well_formed n) values ->
  forall keys o o',
    Forall (fun kv => well_formed (snd kv)) o ->
    dict_loop parse keys values o = Ok o' ->
    Forall (fun kv => well_formed (snd kv)) o'.
Proof.
  induction 1 as [|v values Hv _ IH]; intros keys o o' Ho Hl.
  - destruct keys; injection Hl as <-; assumption.
  - destruct keys as [|key keys]; [injection Hl as <-; assumption|].
    cbn in Hl. destruct (is_Name_valid key) as [id|]; [|discriminate].
    inv_ok Hl. eapply IH; [|exact Hl].
    apply Forall_app. split; [assumption|].
    constructor; [|constructor]. cbn. auto.
Qed.

Lemma members_get_wf (o : list (string * LLLnode)) (key : string) (n : LLLnode) :
  Forall (fun kv => well_formed (snd kv)) o ->
  members_get o key = Some n -> well_formed n.
Proof.
  induction 1 as [|[k m] o Hm _ IH]; cbn; [discriminate|].
  destruct (eqs key k); [intros [= <-]; exact Hm | exact IH].
Qed.

(** Expressions: every node that [parse_expr] returns is well formed. *)
Lemma parse_expr_wf (e : ast.expr) :
  expr_ok e ->
  forall context n, parse_expr e context = Ok n -> well_formed n.
Proof.
  induction e as [k|s|c|id|v a IHv|v sl IHv IHs|l op r IHl IHr|l ops cs IHl IHcs
                  |op vs IHvs|op o IHo|f xs IHf IHxs|elts IHelts|ks vs IHks IHvs|d|m]
    using expr_ind'; intros Hok context n Hn; cbn [parse_expr] in Hn.
  - eapply num_node_wf; eassumption.
  - eapply str_node_wf; eassumption.
  - eapply nameconstant_node_wf; eassumption.
  - eapply name_node_wf; eassumption.
  - (* Attribute *)
    inversion Hok; subst.
    specialize (IHv ltac:(assumption)).
    assert (Hmember : forall r,
      bind (bind (parse_expr v context)
                 (fun o => bind (raise_if (is_None (location o)) (PyError Exception_))
                                (fun _ => Ok o)))
           (fun sub => match typ sub with
                       | Some (StructType members) =>
                           bind (raise_if (negb (in_strs a (sorted (members_keys members))))
                                          TypeMismatchException)
                                (fun _ => add_variable_offset sub (KStr a))
                       | _ => Err TypeMismatchException
                       end) = Ok r -> well_formed r).
    { intros r Hr. inv_ok Hr. wf_step.
      inv_cases Hr. wf_step. assumption. }
    destruct (eqs a "balance").
    + inv_ok Hn. repeat wf_step. wf_close Hn.
    + destruct v; try (apply Hmember; exact Hn).
      destruct (eqs id "self").
      * inv_cases Hn; wf_close Hn.
      * destruct (in_strs id ["msg"; "block"; "tx"]).
        -- eapply keyword_node_wf; eassumption.
        -- apply Hmember; exact Hn.
  - (* Subscript *)
    inversion Hok; subst.
    + specialize (IHv ltac:(assumption)).
      specialize (IHs i eq_refl ltac:(assumption)).
      inv_ok Hn. repeat wf_step. assumption.
    + inv_ok Hn; discriminate.
  - (* BinOp *)
    inversion Hok; subst.
    specialize (IHl ltac:(assumption)). specialize (IHr ltac:(assumption)).
    inv_ok Hn. repeat wf_step. assumption.
  - (* Compare *)
    inversion Hok as [| | | | | | | |? ? ? Hl Hcs| | | | | | |]; subst.
    specialize (IHl Hl).
    inv_ok Hn. destruct cs as [|c0 cs]; [discriminate|].
    inversion IHcs as [|? ? IHc0 _]; subst. inversion Hcs; subst.
    specialize (IHc0 ltac:(assumption)).
    inv_ok E1. repeat wf_step. assumption.
  - (* BoolOp *)
    inversion Hok as [| | | | | | | | |? ? Hvs| | | | | |]; subst.
    destruct vs as [|x [|y [|z vs]]]; try discriminate.
    inversion IHvs as [|? ? IHx IHvs']; subst. inversion IHvs' as [|? ? IHy _]; subst.
    inversion Hvs as [|? ? Hx Hvs']; subst. inversion Hvs' as [|? ? Hy _]; subst.
    specialize (IHx Hx). specialize (IHy Hy).
    inv_ok Hn. repeat wf_step. assumption.
  - (* UnaryOp *)
    inversion Hok; subst. specialize (IHo ltac:(assumption)).
    inv_ok Hn. repeat wf_step. assumption.
  - (* Call *)
    inversion Hok as [| | | | | | | | | | |? ? Hxs| | | |]; subst.
    destruct f; try discriminate.
    destruct xs as [|x xs].
    { inv_cases Hn; discriminate. }
    inversion IHxs as [|? ? IHx _]; subst. inversion Hxs as [|? ? Hx _]; subst.
    specialize (IHx Hx).
    destruct (eqs id "floor").
    { destruct xs; [|discriminate]. inv_ok Hn. repeat wf_step. assumption. }
    destruct (eqs id "decimal").
    { destruct xs; [|discriminate]. inv_ok Hn. repeat wf_step. assumption. }
    destruct (eqs id "as_number"); [|discriminate].
    inv_ok Hn. repeat wf_step. assumption.
  - (* List *)
    inversion Hok as [| | | | | | | | | | | |? Helts| | |]; subst.
    inv_ok Hn. eapply from_list_well_formed; [|exact Hn].
    constructor. constructor; [constructor|].
    apply Forall_fmap.
    eapply (mapM_Forall _ expr_ok (obj_well_formed ∘ ONode)); [|exact E0].
    clear - IHelts Helts.
    induction Helts as [|x elts Hx Helts IH]; constructor.
    + inversion IHelts; subst. split; [assumption|]. intros b Hb.
      constructor. eauto.
    + apply IH. inversion IHelts; assumption.
  - (* Dict *)
    inversion Hok as [| | | | | | | | | | | | |? ? Hvs| |]; subst.
    inv_ok Hn.
    assert (Ho : Forall (fun kv => well_formed (snd kv)) a).
    { eapply (dict_loop_wf _ vs); [|constructor|exact E].
      clear - IHvs Hvs.
      induction Hvs as [|x vs Hx Hvs IH]; constructor.
      - inversion IHvs; subst. intros n Hn. eauto.
      - apply IH. inversion IHvs; assumption. }
    eapply from_list_well_formed; [|exact Hn].
    constructor. constructor; [constructor|].
    eapply (mapM_Forall _ (fun _ => True)); [|exact E0].
    apply Forall_forall. intros key _. split; [exact I|].
    intros b Hb. destruct (members_get a key) eqn:Hg; [|discriminate].
    injection Hb as <-. constructor. eapply members_get_wf; eassumption.
  - discriminate.
  - injection Hn as <-. inversion Hok; assumption.
Qed.

Lemma parse_value_expr_wf (e : ast.expr) (context : Context) (n : LLLnode) :
  expr_ok e -> parse_value_expr e context = Ok n -> well_formed n.
Proof.
  intros Hok Hn. unfold parse_value_expr in Hn. inv_ok Hn.
  apply parse_expr_wf in E; [|assumption].
  eapply unwrap_location_wf; eassumption.
Qed.

Lemma parse_variable_location_wf (e : ast.expr) (context : Context) (n : LLLnode) :
  expr_ok e -> parse_variable_location e context = Ok n -> well_formed n.
Proof.
  intros Hok Hn. unfold parse_variable_location in Hn. inv_ok Hn.
  apply parse_expr_wf in E; [|assumption]. injection Hn as <-. assumption.
Qed.

End WellFormedExpr.

(** An induction principle for statements that reaches into the blocks. *)
Lemma stmt_ind' (P : ast.stmt -> Prop)
    (fExpr : forall v, P (ast.Expr v))
    (fPass : P ast.Pass)
    (fAnnAssign : forall t a, P (ast.AnnAssign t a))
    (fAssign : forall ts v, P (ast.Assign ts v))
    (fIf : forall t b e, Forall P b -> Forall P e -> P (ast.If t b e))
    (fAssert : forall t, P (ast.Assert t))
    (fFor : forall t i b, Forall P b -> P (ast.For t i b))
    (fAugAssign : forall t op v, P (ast.AugAssign t op v))
    (fBreak : P ast.Break)
    (fReturn : forall v, P (ast.Return v))
    (fOther : P ast.OtherStmt) : forall s, P s.
Proof.
  exact (fix go (s : ast.stmt) : P s :=
    let all := fix all (l : list ast.stmt) : Forall P l :=
      match l with
      | [] => @List.Forall_nil _ P
      | x :: r => @List.Forall_cons _ P x r (go x) (all r)
      end in
    match s with
    | ast.Expr v => fExpr v
    | ast.Pass => fPass
    | ast.AnnAssign t a => fAnnAssign t a
    | ast.Assign ts v => fAssign ts v
    | ast.If t b e => fIf t b e (all b) (all e)
    | ast.Assert t => fAssert t
    | ast.For t i b => fFor t i b (all b)
    | ast.AugAssign t op v => fAugAssign t op v
    | ast.Break => fBreak
    | ast.Return v => fReturn v
    | ast.OtherStmt => fOther
    end).
Qed.

Lemma mapM_all {A B} (f : A -> result B) (Q : B -> Prop) (l : list A) (r : list B) :
  (forall a b, f a = Ok b -> Q b) -> mapM f l = Ok r -> Forall Q r.
Proof.
  intros Hf. revert r. induction l as [|a l IH]; cbn; intros r Hr.
  - injection Hr as <-. constructor.
  - inv_ok Hr. injection Hr as <-. constructor; eauto.
Qed.

(** More saturation: literals, indexing, the translators of operands. *)
Ltac wf_more :=
  match goal with
  | E : from_list (OInt _) _ _ = Ok _ |- _ =>
      apply from_list_well_formed in E; [|constructor]
  | E : from_list (OStr _) _ _ = Ok _ |- _ =>
      apply from_list_well_formed in E; [|constructor]
  | E : from_list ONone _ _ = Ok _ |- _ =>
      apply from_list_well_formed in E; [|constructor]
  | W : well_formed ?x, E : index (args ?x) _ = Ok _ |- _ =>
      apply index_Ok, nth_error_In in E;
      apply (proj1 (List.Forall_forall _ _) (well_formed_args x W)) in E
  | W : well_formed ?a, E : base_type_conversion ?a _ _ = Ok _ |- _ =>
      apply (base_type_conversion_wf _ _ _ _ W) in E
  | E : from_list (OList _) _ _ = Ok _ |- _ =>
      apply from_list_well_formed in E;
      [|solve [repeat (once constructor; try assumption)]]
  | O : expr_ok ?e, E : parse_expr ?e _ = Ok _ |- _ =>
      apply (parse_expr_wf _ O) in E
  | O : expr_ok ?e, E : parse_value_expr ?e _ = Ok _ |- _ =>
      apply (parse_value_expr_wf _ _ _ O) in E
  | O : expr_ok ?e, E : parse_variable_location ?e _ = Ok _ |- _ =>
      apply (parse_variable_location_wf _ _ _ O) in E
  | _ => wf_step
  end.

Section WellFormedStmt.
Context {Ops : OpcodesModule} {Types : TypesModule}.

Lemma obj_of_Some_wf (n : LLLnode) : well_formed n -> obj_well_formed (obj_of (Some n)).
Proof. intros Hn. constructor. assumption. Qed.

Lemma obj_of_wf_inv (o : option LLLnode) (n : LLLnode) :
  obj_well_formed (obj_of o) -> o = Some n -> well_formed n.
Proof. intros Ho ->. inversion Ho; assumption. Qed.

Lemma make_setter_fuel_wf (fuel : nat) :
  forall (left right : LLLnode) loc o,
    well_formed left -> well_formed right ->
    make_setter_fuel fuel left right loc = Ok o ->
    obj_well_formed (obj_of o).
Proof.
  induction fuel as [|fuel IH]; intros left right loc o Hl Hr Ho; [discriminate|].
  cbn [make_setter_fuel] in Ho.
  assert (Hsubs : forall (A : Type) (f : A -> result (option LLLnode)) (l : list A) subs,
             (forall a b, f a = Ok b -> obj_well_formed (obj_of b)) ->
             mapM f l = Ok subs ->
             Forall obj_well_formed (map obj_of subs)).
  { intros A f l subs Hf Hm. apply Forall_fmap. eapply mapM_all; eassumption. }
  destruct (typ left) as [[k u p|sub count|kt vt|members| | |m]|];
    try discriminate; try (injection Ho as <-; constructor).
  - (* basic types *)
    inv_ok Ho. wf_more.
    destruct loc as [[]|]; inv_ok Ho; injection Ho as <-; cbn [obj_of];
      [apply owf_node ..|constructor|constructor];
      match goal with
      | E : from_list _ _ _ = Ok ?a |- well_formed ?a => wf_close E
      end.
  - (* arrays *)
    inv_ok Ho. repeat wf_more.
    destruct (value_is right "multi"); [|destruct (isinstance_NullType (typ right))];
      inv_ok Ho; repeat wf_more; injection Ho as <-; cbn [obj_of]; apply owf_node;
      (eapply from_list_well_formed; [|eassumption]);
      repeat (once constructor; try assumption);
      (eapply Hsubs; [|eassumption]);
      intros i b Hb; cbn beta in Hb; inv_ok Hb; repeat wf_more;
      refine (IH _ _ _ _ _ _ Hb); assumption.
  - (* structs *)
    inv_ok Ho. repeat wf_more.
    destruct (value_is right "multi"); [|destruct (isinstance_NullType (typ right))];
      inv_ok Ho; repeat wf_more; injection Ho as <-; cbn [obj_of]; apply owf_node;
      (eapply from_list_well_formed; [|eassumption]);
      repeat (once constructor; try assumption);
      (eapply Hsubs; [|eassumption]);
      intros i b Hb; cbn beta in Hb; inv_ok Hb; repeat wf_more;
      refine (IH _ _ _ _ _ _ Hb); assumption.
Qed.

Lemma make_setter_wf (left right : LLLnode) loc o :
  well_formed left -> well_formed right ->
  make_setter left right loc = Ok o -> obj_well_formed (obj_of o).
Proof. unfold make_setter. apply make_setter_fuel_wf. Qed.

Lemma call_stmt_wf (func : ast.expr) (xs : list ast.expr) (context : Context) o :
  Forall expr_ok xs ->
  call_stmt func xs context = Ok o -> obj_well_formed (obj_of o).
Proof.
  intros Hxs Ho. unfold call_stmt in Ho.
  destruct func; try discriminate.
  assert (Hidx : forall i e, index xs i = Ok e -> expr_ok e).
  { intros i e He. apply index_Ok, nth_error_In in He.
    eapply List.Forall_forall; eassumption. }
  destruct (eqs id "send"); [|destruct (in_strs id ["suicide"; "selfdestruct"])].
  - inv_ok Ho.
    repeat match goal with E : index xs _ = Ok _ |- _ => apply Hidx in E end.
    repeat wf_more. injection Ho as <-. cbn [obj_of]. apply owf_node. assumption.
  - inv_ok Ho.
    repeat match goal with E : index xs _ = Ok _ |- _ => apply Hidx in E end.
    repeat wf_more. injection Ho as <-. cbn [obj_of]. apply owf_node. assumption.
  - injection Ho as <-. constructor.
Qed.

Lemma assign_stmt_wf (targets : list ast.expr) (v : ast.expr) (context : Context)
    o context' :
  Forall expr_ok targets -> expr_ok v ->
  assign_stmt targets v context = Ok (o, context') -> obj_well_formed (obj_of o).
Proof.
  intros Hts Hv Ho. unfold assign_stmt in Ho. inv_ok Ho.
  assert (Ht : expr_ok a1).
  { apply index_Ok, nth_error_In in E1. eapply List.Forall_forall; eassumption. }
  repeat wf_more.
  assert (Hold : forall r,
    bind (parse_variable_location a1 context)
      (fun target =>
         bind (raise_if (is_storage (location target) && is_constant context)
                        ConstancyViolationException)
           (fun _ => bind (make_setter target a0 (location target))
                          (fun o => Ok (o, context)))) = Ok (r, context') ->
    obj_well_formed (obj_of r)).
  { intros r Hr. inv_ok Hr. repeat wf_more. injection Hr as <- _.
    eapply make_setter_wf; [| |eassumption]; assumption. }
  destruct a1; try (apply Hold; exact Ho).
  destruct (negb (has_key (vars context) id)); [|apply Hold; exact Ho].
  inv_ok Ho. repeat wf_more.
  injection Ho as <- _.
  eapply make_setter_wf; [| |eassumption]; assumption.
Qed.

Lemma return_stmt_wf (v : option ast.expr) (context : Context) o :
  (forall e, v = Some e -> expr_ok e) ->
  return_stmt v context = Ok o -> obj_well_formed (obj_of o).
Proof.
  intros Hv Ho. unfold return_stmt in Ho.
  destruct (return_type context) as [rt|], v as [e|]; try discriminate.
  - specialize (Hv e eq_refl).
    inv_ok Ho. repeat wf_more.
    inv_cases Ho; repeat wf_more;
      injection Ho as <-; cbn [obj_of]; apply owf_node; assumption.
  - inv_ok Ho. repeat wf_more. injection Ho as <-. cbn [obj_of]. apply owf_node.
    assumption.
Qed.

Lemma for_range_wf (target iter : ast.expr) (context : Context) varname start rounds :
  expr_ok iter ->
  for_range target iter context = Ok (varname, start, rounds) ->
  well_formed start /\ obj_well_formed rounds.
Proof.
  intros Hi Hr. unfold for_range in Hr.
  destruct iter as [?|?|?|?|? ?|? ?|? ? ?|? ? ?|? ?|? ?|f xs|?|? ?|?|?];
    try discriminate.
  inversion Hi as [| | | | | | | | | | |? ? Hxs| | | |]; subst.
  assert (Hnum : forall k, obj_well_formed (number_obj k)).
  { intros []; constructor. }
  assert (Hsub : forall k1 k2, obj_well_formed (number_sub k1 k2)).
  { intros [] []; constructor. }
  assert (H0 : forall a0 rest, xs = a0 :: rest -> expr_ok a0).
  { intros a0 rest ->. inversion Hxs; assumption. }
  repeat match type of Hr with
         | match ?x with _ => _ end = Ok _ => destruct x eqn:?; try discriminate
         | (if ?c then _ else _) = Ok _ => destruct c; try discriminate
         end;
    inv_ok Hr; injection Hr as _ <- <-;
    repeat match goal with
           | E : from_list (number_obj _) _ _ = Ok _ |- _ =>
               apply from_list_well_formed in E; [|apply Hnum]
           | E : from_list (number_sub _ _) _ _ = Ok _ |- _ =>
               apply from_list_well_formed in E; [|apply Hsub]
           end;
    repeat wf_more;
    try (split; [assumption | first [apply Hnum | constructor; assumption]]).
  all: match goal with
       | E : parse_value_expr ?a _ = Ok _ |- _ =>
           apply parse_value_expr_wf in E;
           [split; [assumption | apply Hnum] | eapply H0; reflexivity]
       end.
Qed.

Lemma augassign_stmt_wf (target : ast.expr) (op : ast.operator) (v : ast.expr)
    (context : Context) o :
  expr_ok target -> expr_ok v ->
  augassign_stmt target op v context = Ok o -> obj_well_formed (obj_of o).
Proof.
  intros Ht Hv Ho. unfold augassign_stmt in Ho. inv_ok Ho. repeat wf_more.
  assert (Hbin : forall l sub r,
            well_formed l -> well_formed sub ->
            parse_value_expr (ast.BinOp (ast.LLL l) op (ast.LLL sub)) context = Ok r ->
            well_formed r).
  { intros l sub r Hl Hsub Hr. eapply parse_value_expr_wf; [|exact Hr].
    constructor; constructor; assumption. }
  destruct (is_storage (location a)); [|destruct (is_memory (location a))].
  - inv_ok Ho. repeat wf_more.
    match goal with
    | E : parse_value_expr _ _ = Ok _ |- _ => apply Hbin in E; [| assumption..]
    end.
    repeat wf_more. injection Ho as <-. cbn [obj_of]. apply owf_node. assumption.
  - inv_ok Ho. repeat wf_more.
    match goal with
    | E : parse_value_expr _ _ = Ok _ |- _ => apply Hbin in E; [| assumption..]
    end.
    repeat wf_more. injection Ho as <-. cbn [obj_of]. apply owf_node. assumption.
  - injection Ho as <-. constructor.
Qed.

Lemma parse_stmts_wf
    (ps : ast.stmt -> Context -> result (option LLLnode * Context))
    (code : list ast.stmt) :
  Forall (fun s => forall c o c', ps s c = Ok (o, c') -> obj_well_formed (obj_of o)) code ->
  forall context os context',
    parse_stmts ps code context = Ok (os, context') ->
    Forall obj_well_formed (map obj_of os).
Proof.
  induction 1 as [|s code Hs _ IH]; intros context os context' Hos; cbn in Hos.
  - injection Hos as <- _. constructor.
  - inv_ok Hos. injection Hos as <- _. cbn. constructor; eauto.
Qed.

(** Statements: every node that [parse_stmt] returns is well formed. *)
Lemma parse_stmt_wf (s : ast.stmt) :
  stmt_ok s ->
  forall context o context',
    parse_stmt s context = Ok (o, context') -> obj_well_formed (obj_of o).
Proof.
  induction s as [v| |t a|ts v|t b e IHb IHe|t|t i b IHb|t op v| |v|] using stmt_ind';
    intros Hok context o context' Ho; cbn [parse_stmt] in Ho;
    inversion Hok; subst.
  - (* Expr *)
    destruct v; try discriminate. inv_ok Ho. injection Ho as <- _.
    match goal with H : expr_ok (ast.Call _ _) |- _ => inversion H; subst end.
    eapply call_stmt_wf; eassumption.
  - inv_ok Ho. repeat wf_more. injection Ho as <- _. constructor. assumption.
  - inv_ok Ho. repeat wf_more. injection Ho as <- _. constructor. assumption.
  - eapply assign_stmt_wf; eassumption.
  - (* If *)
    assert (Hblock : forall c os c',
      parse_stmts parse_stmt b c = Ok (os, c') ->
      Forall obj_well_formed (map obj_of os)).
    { apply parse_stmts_wf.
      match goal with H : Forall stmt_ok b |- _ => revert H end.
      clear - IHb. induction IHb; intros Hb; constructor; inversion Hb; subst; eauto. }
    destruct e as [|e0 e].
    + inv_ok Ho.
      match goal with E : parse_stmts _ b _ = Ok _ |- _ => apply Hblock in E end.
      repeat wf_more.
      injection Ho as <- _. cbn [obj_of]. apply owf_node. assumption.
    + inv_ok Ho.
      match goal with E : parse_stmts _ b _ = Ok _ |- _ => apply Hblock in E end.
      inversion IHe as [|? ? IHe0 _]; subst.
      match goal with H : Forall stmt_ok (e0 :: e) |- _ => inversion H; subst end.
      match goal with
      | E : parse_stmt e0 _ = Ok _ |- _ => apply IHe0 in E; [|assumption]
      end.
      repeat wf_more.
      injection Ho as <- _. cbn [obj_of]. apply owf_node. assumption.
  - inv_ok Ho. repeat wf_more. injection Ho as <- _. cbn [obj_of]. apply owf_node.
    assumption.
  - (* For *)
    assert (Hblock : forall c os c',
      parse_stmts parse_stmt b c = Ok (os, c') ->
      Forall obj_well_formed (map obj_of os)).
    { apply parse_stmts_wf.
      match goal with H : Forall stmt_ok b |- _ => revert H end.
      clear - IHb. induction IHb; intros Hb; constructor; inversion Hb; subst; eauto. }
    inv_ok Ho.
    match goal with E : parse_stmts _ b _ = Ok _ |- _ => apply Hblock in E end.
    match goal with
    | E : for_range _ _ _ = Ok _ |- _ =>
        apply for_range_wf in E as [Hstart Hrounds]; [|assumption]
    end.
    repeat wf_more.
    injection Ho as <- _. cbn [obj_of]. apply owf_node. assumption.
  - inv_ok Ho. injection Ho as <- _.
    eapply augassign_stmt_wf; [| |eassumption]; assumption.
  - inv_ok Ho. repeat wf_more. injection Ho as <- _. constructor. assumption.
  - inv_ok Ho. injection Ho as <- _. eapply return_stmt_wf; eassumption.
  - discriminate.
Qed.

End WellFormedStmt.

(** ** The constructor's checks and the invariants of the trees (C2) *)

Section Constructor.
Context {Ops : OpcodesModule} {Types : TypesModule}.

Lemma LLLnode_init_str (s : string) (xs : list LLLnode) t l (n : LLLnode) :
  LLLnode_init (PStr s) xs t l = Ok n
  <-> exists v, str_valency s xs = Ok v /\ n = mkLLLnode (VStr s) xs t l v.
Proof.
  cbn [LLLnode_init]. split.
  - intros Hn. destruct (str_valency s xs) as [v|e]; [|discriminate].
    injection Hn as <-. eauto.
  - intros (v & -> & ->). reflexivity.
Qed.

(** C2, amended. The constructor accepts a node named by a registered
    (pseudo-)opcode exactly when the number of its arguments is the
    registered arity and no argument is zerovalent, and gives it the
    registered valency; it accepts an [if] node exactly when it has two
    or three arguments, a test that is not zerovalent, a zerovalent body
    if there are two, and branches of equal valency if there are three,
    and gives it the valency of the body. Every tree that [parse_expr]
    or [parse_stmt] returns satisfies the invariants of section 3 at
    every node, with "not zerovalent" in place of "valency 1" for the
    arguments. *)
Theorem constructor_valency_invariants :
  (forall s xs t l r n,
      lookup_op (upper s) = Some r ->
      LLLnode_init (PStr s) xs t l = Ok n
      <-> len xs = op_arity r /\ Forall nonzero_valency xs
          /\ n = mkLLLnode (VStr s) xs t l (op_valency r))
  /\ (forall xs t l n,
         lookup_op "IF" = None ->
         LLLnode_init (PStr "if") xs t l = Ok n
         <-> if_arguments xs
             /\ exists body, nth_error xs 1 = Some body
                             /\ n = mkLLLnode (VStr "if") xs t l (valency body))
  /\ (forall e context n,
         expr_ok e -> parse_expr e context = Ok n -> well_formed n)
  /\ (forall s context n context',
         stmt_ok s -> parse_stmt s context = Ok (Some n, context') -> well_formed n).
Proof.
  repeat apply conj.
  - intros s xs t l r n Hr. rewrite LLLnode_init_str. split.
    + intros (v & Hv & ->). apply (str_valency_opcode s xs r Hr) in Hv as (? & ? & ->).
      auto.
    + intros (Hlen & Hxs & ->). eexists. split; [|reflexivity].
      apply (str_valency_opcode s xs r Hr). auto.
  - intros xs t l n Hif. rewrite LLLnode_init_str. split.
    + intros (v & Hv & ->). apply (str_valency_if xs Hif) in Hv as (? & body & ? & ->).
      eauto.
    + intros (Hxs & body & Hb & ->). eexists. split; [|reflexivity].
      apply (str_valency_if xs Hif). eauto.
  - intros e context n He Hn. exact (parse_expr_wf e He context n Hn).
  - intros s context n context' Hs Hn.
    pose proof (parse_stmt_wf s Hs context (Some n) context' Hn) as Hwf.
    cbn [obj_of] in Hwf. inversion Hwf. assumption.
Qed.

End Constructor.

Section ConstructorOnTheFixture.
Import Fixture.
#[local] Existing Instance opcodes_module.
#[local] Existing Instance types_module.

(** C2 as stated fails: [iszero] is a registered opcode of arity 1, and
    the constructor accepts it over an argument of valency 2, the
    [multi] that [not [1, 2]] is translated to. *)
Lemma opcode_over_argument_of_valency_two :
  has_op "ISZERO" 1 1 = true
  /\ exists n arg,
       parse_expr not_of_a_list empty_context = Ok n
       /\ value n = VStr "iszero" /\ args n = [arg]
       /\ LLLnode_init (PStr "iszero") [arg] (typ n) None = Ok n
       /\ valency arg = 2.
Proof.
  split; [reflexivity|].
  eexists. eexists. split; [vm_compute; reflexivity|].
  repeat split; reflexivity.
Qed.

Lemma constructor_valency_invariants_witness :
  exists n, parse_expr not_of_a_list empty_context = Ok n /\ well_formed n.
Proof.
  eexists. split; [vm_compute; reflexivity|].
  apply (proj1 (proj2 (proj2 constructor_valency_invariants))
           not_of_a_list empty_context).
  - unfold not_of_a_list. repeat constructor.
  - vm_compute. reflexivity.
Defined.

End ConstructorOnTheFixture.

(** ** Addition and subtraction (C7) *)

Section AddSub.
Context {Ops : OpcodesModule} {Types : TypesModule}.

Lemma parse_expr_BinOp (el er : ast.expr) (op : ast.operator) (context : Context)
    (left right : LLLnode) :
  parse_value_expr el context = Ok left ->
  parse_value_expr er context = Ok right ->
  parse_expr (ast.BinOp el op er) context
  = (let* o := binop_node op left right in clamp_by_type o).
Proof.
  unfold parse_value_expr. intros Hl Hr. cbn [parse_expr].
  rewrite Hl. cbn [bind]. rewrite Hr. reflexivity.
Qed.

Lemma in_num_decimal (k : string) :
  in_strs k ["num"; "decimal"] = true -> k = "num" \/ k = "decimal".
Proof.
  cbn. rewrite orb_false_r. intros Hk. apply orb_true_iff in Hk as [Hk|Hk];
    apply String.eqb_eq in Hk; auto.
Qed.


End AddSub.

(** ** Multiplication with a decimal operand (C3) *)

Section Multiplication.
Context {Ops : OpcodesModule} {Types : TypesModule}.

(** The tree that the multiplication arm builds when at least one
    operand is a decimal. *)
Lemma binop_node_mult_decimal (left right : LLLnode) lk lu rk ru :
  mul_tables ->
  typ left = Some (BaseType lk lu false) ->
  typ right = Some (BaseType rk ru false) ->
  in_strs lk ["num"; "decimal"] = true ->
  in_strs rk ["num"; "decimal"] = true ->
  lk = "decimal" \/ rk = "decimal" ->
  valency left <> 0 -> valency right <> 0 ->
  binop_node ast.Mult left right
  = Ok (guarded_mul left right
          (if eqs lk "decimal" && eqs rk "decimal" then scaled_tail else unscaled_tail)
          (Some (BaseType "decimal" (combine_units lu ru false) false))).
Proof.
  intros (Hmul & Hsdiv & Heq & Hor & Hnot & Hassert & Hwith & Hseq & HR & HL & HANS)
         Htl Htr Hlk Hrk Hdec Hvl Hvr.
  unfold binop_node. rewrite Htl, Htr. cbn [is_numeric_type is_base_type].
  rewrite Hlk, Hrk. cbn [negb orb raise_if bind typ_typ typ_unit typ_positional].
  apply in_num_decimal in Hlk, Hrk.
  destruct Hlk as [-> | ->], Hrk as [-> | ->];
    try (destruct Hdec; discriminate);
    cbn [eqs String.eqb Ascii.eqb Bool.eqb andb orb];
    build.
Qed.

End Multiplication.

(** The guard [assert(or(eq(sdiv(ans, l), r), not(l)))] lets every run
    through in which [l] is not the word of all ones: [not] is the
    bitwise complement, which is zero on that word only. *)
Lemma eval_mul_guard env mem (l r ans : Z) :
  members_get env "ans" = Some ans ->
  members_get env "l" = Some l ->
  members_get env "r" = Some r ->
  0 <= l < 2 ^ 256 - 1 ->
  eval env mem mul_guard = NoValue.
Proof.
  intros Ha Hl Hr Hrange.
  cbn [eval mul_guard node var value args eqs String.eqb Ascii.eqb Bool.eqb lookup_var].
  unfold lookup_var. rewrite Ha, Hl, Hr.
  cbn [binary_word unary_word eqs String.eqb Ascii.eqb Bool.eqb].
  destruct (Z.lor _ _ =? 0) eqn:E; [|reflexivity].
  apply Z.eqb_eq, Z.lor_eq_0_iff in E as [_ E]. lia.
Qed.

(** ** The guards on the VM's words (C3, C4) *)

Section OnTheFixture.
Import Fixture.
#[local] Existing Instance opcodes_module.
#[local] Existing Instance types_module.

(** C3 (the code against the claim). With [x] and [y] decimals in
    memory, [x * y] is translated to the guarded multiplication of the
    claim, scaled down by [10^10], but the guard is
    [assert(or(eq(sdiv(ans, l), r), not(l)))]: when both operands hold
    the word [2^128], the product wraps around to [0], [sdiv(ans, l)] is
    not [r] and [l] is not zero, so the guard of the claim stops the run,
    while the guard of the code lets it through and the expression
    yields [0]. *)
Theorem mul_guard_passes_on_overflow :
  let t := Some (BaseType "decimal" None false) in
  let l := mload_var 256 t in
  let r := mload_var 288 t in
  let o := guarded_mul l r scaled_tail t in
  let mem := fun _ : Z => 2 ^ 128 in
  let env := [("ans", wrap (2 ^ 128 * 2 ^ 128)); ("l", 2 ^ 128); ("r", 2 ^ 128)] in
  parse_value_expr (ast.Name "x") decimal_xy = Ok l
  /\ parse_value_expr (ast.Name "y") decimal_xy = Ok r
  /\ binop_node ast.Mult l r = Ok o
  /\ parse_expr (ast.BinOp (ast.Name "x") ast.Mult (ast.Name "y")) decimal_xy
     = clamp_by_type o
  /\ eval [] mem l = Value (2 ^ 128) /\ eval [] mem r = Value (2 ^ 128)
  /\ eval env mem spec_mul_guard = Stopped
  /\ eval env mem mul_guard = NoValue
  /\ eval [] mem o = Value 0.
Proof. vm_compute. repeat split; reflexivity. Qed.

(** C4 (the code against the claim). Returning the [num] variable [x]
    from a function that returns [num256] stores it at offset 0, runs
    [assert(iszero(lt(mload(0), 0)))] and returns 32 bytes; with
    [signed256] there is no check. The check compares unsigned words, so
    it passes on every memory, also when the stored word is [-1]: there
    the check of the claim stops the run and the check of the code does
    not. *)
Theorem return_num_as_num256_unchecked :
  let sub := mload_var 256 (Some (BaseType "num" None false)) in
  let s := ast.Return (Some (ast.Name "x")) in
  let mem := fun _ : Z => wrap (-1) in
  parse_stmt s (returning "num256")
  = Ok (Some (store_and_return sub [nonnegative_guard]), returning "num256")
  /\ parse_stmt s (returning "signed256")
     = Ok (Some (store_and_return sub []), returning "signed256")
  /\ signed (mem 0) = -1
  /\ eval [] mem spec_nonnegative_guard = Stopped
  /\ eval [] mem nonnegative_guard = NoValue.
Proof. vm_compute. repeat split; reflexivity. Qed.

End OnTheFixture.

(** The check on a returned [num] passes whatever word is stored. *)
Lemma eval_nonnegative_guard env mem :
  0 <= mem 0 -> eval env mem nonnegative_guard = NoValue.
Proof.
  intros Hm.
  cbn [eval nonnegative_guard node int_literal value args eqs String.eqb
       Ascii.eqb Bool.eqb unary_word binary_word].
  change (wrap 0) with 0.
  destruct (mem 0 <? 0) eqn:E; [apply Z.ltb_lt in E; lia|]. reflexivity.
Qed.

(** ** The else-branch of an [if] statement (C5) *)

Section IfElse.
Context {Ops : OpcodesModule} {Types : TypesModule}.

Lemma parse_stmt_If_else (test : ast.expr) (body : list ast.stmt) (s : ast.stmt)
    (rest : list ast.stmt) (context : Context) :
  parse_stmt (ast.If test body (s :: rest)) context
  = (let* t := parse_value_expr test context in
     let* (b, context) := parse_body body context in
     let* (e, context) := parse_stmt s context in
     let* n := from_list (OList [OStr "if"; ONode t; ONode b; obj_of e]) (TTyp None) None in
     Ok (Some n, context)).
Proof. reflexivity. Qed.

(** C5. For an [if] statement with a non-empty else block, [parse_stmt]
    builds the three-argument [if] from the first statement of the else
    block only: the result is the same whatever follows that statement,
    and its third argument is the translation of that statement. *)
Theorem if_else_first_statement_only (test : ast.expr) (body : list ast.stmt)
    (s : ast.stmt) (rest : list ast.stmt) (context : Context) :
  parse_stmt (ast.If test body (s :: rest)) context
  = parse_stmt (ast.If test body [s]) context
  /\ forall o context',
       parse_stmt (ast.If test body (s :: rest)) context = Ok (o, context') ->
       exists n t b e c1,
         o = Some n
         /\ value n = VStr "if" /\ args n = [t; b; e]
         /\ parse_value_expr test context = Ok t
         /\ parse_body body context = Ok (b, c1)
         /\ parse_stmt s c1 = Ok (Some e, context').
Proof.
  split; [rewrite !parse_stmt_If_else; reflexivity|].
  intros o context' Ho. rewrite parse_stmt_If_else in Ho.
  apply bind_Ok in Ho as (t & Et & Ho).
  apply bind_Ok in Ho as ([b c1] & Eb & Ho).
  apply bind_Ok in Ho as ([e c2] & Ee & Ho).
  apply bind_Ok in Ho as (n & En & Ho).
  injection Ho as <- <-.
  destruct e as [e|].
  - cbn [obj_of from_list mapM bind pyval_of typ_of_arg] in En.
    unfold LLLnode_init in En. apply bind_Ok in En as (v & _ & En).
    injection En as <-.
    exists (mkLLLnode (VStr "if") [t; b; e] None None v), t, b, e, c1.
    repeat split; assumption.
  - exfalso. cbn [obj_of from_list mapM bind pyval_of typ_of_arg] in En.
    unfold LLLnode_init at 1 in En. cbn in En. discriminate.
Qed.

End IfElse.

(** ** Constant functions (C6) *)

Lemma no_cv_Ok {A} (a : A) : no_cv (Ok a).
Proof. discriminate. Qed.

Lemma no_cv_Err {A} (e : exn) : e <> ConstancyViolationException -> no_cv (@Err A e).
Proof. unfold no_cv. congruence. Qed.

Lemma no_cv_bind {A B} (r : result A) (k : A -> result B) :
  no_cv r -> (forall a, r = Ok a -> no_cv (k a)) -> no_cv (bind r k).
Proof.
  unfold no_cv. destruct r as [a|e]; cbn; intros Hr Hk.
  - apply Hk. reflexivity.
  - congruence.
Qed.

Lemma no_cv_raise_if (c : bool) (e : exn) :
  e <> ConstancyViolationException -> no_cv (raise_if c e).
Proof. destruct c; cbn; [apply no_cv_Err | intros _; apply no_cv_Ok]. Qed.

Lemma no_cv_raise_if_false (c : bool) (e : exn) : c = false -> no_cv (raise_if c e).
Proof. intros ->. apply no_cv_Ok. Qed.

(** [viper/types.py] cannot raise an exception of [parser.py]. *)
Lemma no_cv_lift {A} (r : tresult A) : no_cv (lift r).
Proof. destruct r as [[| |e]|a]; cbn; discriminate. Qed.

Lemma no_cv_index {A} (l : list A) (i : nat) : no_cv (index l i).
Proof. unfold index. destruct (nth_error l i); discriminate. Qed.

Lemma no_cv_mapM {A B} (f : A -> result B) (l : list A) :
  (forall a, no_cv (f a)) -> no_cv (mapM f l).
Proof.
  intros Hf. induction l as [|a l IH]; cbn.
  - apply no_cv_Ok.
  - apply no_cv_bind; [apply Hf|]. intros b _.
    apply no_cv_bind; [apply IH|]. intros bs _. apply no_cv_Ok.
Qed.

Lemma no_cv_mapM_Forall {A B} (f : A -> result B) (l : list A) :
  Forall (fun a => no_cv (f a)) l -> no_cv (mapM f l).
Proof.
  induction 1 as [|a l Ha _ IH]; cbn.
  - apply no_cv_Ok.
  - apply no_cv_bind; [apply Ha|]. intros b _.
    apply no_cv_bind; [apply IH|]. intros bs _. apply no_cv_Ok.
Qed.

Create HintDb cv discriminated.

#[export] Hint Resolve no_cv_Ok no_cv_lift no_cv_index : cv.

(** Splits a goal [no_cv _] along the binds, conditionals and matches
    of the code, closing the leaves with the lemmas of the database
    [cv]. *)
Ltac cv_auto :=
  repeat
    match goal with
    | |- no_cv (Ok _) => apply no_cv_Ok
    | |- no_cv (Err _) => apply no_cv_Err; discriminate
    | |- no_cv (bind _ _) => apply no_cv_bind; [|intros ? ?]
    | |- no_cv (raise_if _ ConstancyViolationException) =>
        apply no_cv_raise_if_false;
        first [ assumption
              | match goal with
                | H : is_constant _ = false |- _ => rewrite H; apply andb_false_r
                end ]
    | |- no_cv (raise_if _ _) => apply no_cv_raise_if; discriminate
    | |- no_cv (mapM _ _) => apply no_cv_mapM; intros ?
    | |- no_cv _ => solve [auto with cv]
    | |- no_cv (if ?c then _ else _) => destruct c
    | |- no_cv (match ?x with _ => _ end) => destruct x
    | |- no_cv (let (_, _) := ?p in _) => destruct p
    end.

Section NoConstancyViolation.
Context {Ops : OpcodesModule} {Types : TypesModule}.

Lemma no_cv_LLLnode_init (v : pyval) (xs : list LLLnode) t l :
  no_cv (LLLnode_init v xs t l).
Proof.
  unfold LLLnode_init, str_valency, raise_Exception. cv_auto.
Qed.

Lemma no_cv_from_list (obj : pyobj) t l : no_cv (from_list obj t l).
Proof.
  revert t l. induction obj as [k|s| | |m|xs IH] using pyobj_ind'; intros t l;
    cbn [from_list]; try apply no_cv_LLLnode_init.
  - apply no_cv_Ok.
  - destruct xs as [|o0 rest]; [apply no_cv_Err; discriminate|].
    inversion IH as [|? ? _ IHrest]; subst.
    apply no_cv_bind; [|intros; apply no_cv_LLLnode_init].
    apply no_cv_mapM_Forall.
    eapply Forall_impl; [exact IHrest|]. cbn. auto.
Qed.

Hint Resolve no_cv_LLLnode_init no_cv_from_list : cv.

Lemma no_cv_unwrap_location (orig : LLLnode) : no_cv (unwrap_location orig).
Proof. unfold unwrap_location. cv_auto. Qed.

Hint Resolve no_cv_unwrap_location : cv.

Lemma no_cv_base_type_conversion (orig : LLLnode) frm to :
  no_cv (base_type_conversion orig frm to).
Proof. unfold base_type_conversion. cv_auto. Qed.

Hint Resolve no_cv_base_type_conversion : cv.

Lemma no_cv_member_offset members attrs i : no_cv (member_offset members attrs i).
Proof.
  revert attrs. induction i as [|i IH]; intros attrs.
  - destruct attrs; apply no_cv_Ok.
  - destruct attrs; cbn; cv_auto; apply IH.
Qed.

Hint Resolve no_cv_member_offset : cv.

Lemma no_cv_add_variable_offset (parent : LLLnode) (key : offset_key) :
  no_cv (add_variable_offset parent key).
Proof. unfold add_variable_offset. cv_auto. Qed.

Hint Resolve no_cv_add_variable_offset : cv.

Lemma no_cv_unhexlify (s : string) : no_cv (unhexlify s).
Proof.
  enough (Hs : no_cv (unhexlify s) /\ forall c, no_cv (unhexlify (String c s)))
    by apply Hs.
  induction s as [|c1 s [IH1 IH2]].
  - split; [apply no_cv_Ok|]. intros c. cbn. apply no_cv_Err. discriminate.
  - split; [apply IH2|]. intros c. cbn. cv_auto.
Qed.

Lemma no_cv_hex_to_int (s : string) : no_cv (hex_to_int s).
Proof. unfold hex_to_int. cv_auto; apply no_cv_unhexlify. Qed.

Hint Resolve no_cv_hex_to_int : cv.

Lemma no_cv_num_node n : no_cv (num_node n).
Proof. unfold num_node, float_to_decimal, int_of_float. cv_auto. Qed.

Lemma no_cv_str_node s : no_cv (str_node s).
Proof. unfold str_node. cv_auto. Qed.

Lemma no_cv_nameconstant_node c : no_cv (nameconstant_node c).
Proof. unfold nameconstant_node. cv_auto. Qed.

Lemma no_cv_name_node id context : no_cv (name_node id context).
Proof. unfold name_node. cv_auto. Qed.

Lemma no_cv_keyword_node key : no_cv (keyword_node key).
Proof. unfold keyword_node. cv_auto. Qed.

Lemma no_cv_binop_node op l r : no_cv (binop_node op l r).
Proof. unfold binop_node, typ_typ, typ_unit, typ_positional. cv_auto. Qed.

Lemma no_cv_compare_node ops l r : no_cv (compare_node ops l r).
Proof. unfold compare_node, typ_typ. cv_auto. Qed.

Lemma no_cv_boolop_node op l r : no_cv (boolop_node op l r).
Proof. unfold boolop_node. cv_auto. Qed.

Lemma no_cv_unaryop_node op o : no_cv (unaryop_node op o).
Proof. unfold unaryop_node. cv_auto. Qed.

Lemma no_cv_floor_node sub : no_cv (floor_node sub).
Proof. unfold floor_node, typ_unit, typ_positional. cv_auto. Qed.

Lemma no_cv_decimal_node sub : no_cv (decimal_node sub).
Proof. unfold decimal_node, typ_unit, typ_positional. cv_auto. Qed.

Lemma no_cv_as_number_node sub : no_cv (as_number_node sub).
Proof. unfold as_number_node, typ_typ. cv_auto. Qed.

Lemma no_cv_clamp_by_type o : no_cv (clamp_by_type o).
Proof. unfold clamp_by_type. cv_auto. Qed.

Hint Resolve no_cv_num_node no_cv_str_node no_cv_nameconstant_node no_cv_name_node
  no_cv_keyword_node no_cv_binop_node no_cv_compare_node no_cv_boolop_node
  no_cv_unaryop_node no_cv_floor_node no_cv_decimal_node no_cv_as_number_node
  no_cv_clamp_by_type : cv.

Lemma no_cv_dict_loop (parse : ast.expr -> result LLLnode) (values : list ast.expr) :
  Forall (fun v => no_cv (parse v)) values ->
  forall keys o, no_cv (dict_loop parse keys values o).
Proof.
  induction 1 as [|v values Hv _ IH]; intros keys o.
  - destruct keys; apply no_cv_Ok.
  - destruct keys as [|key keys]; [apply no_cv_Ok|].
    cbn. cv_auto; apply IH.
Qed.

(** No expression raises a constancy violation. *)
Lemma no_cv_parse_expr (e : ast.expr) (context : Context) : no_cv (parse_expr e context).
Proof.
  induction e as [k|s|c|id|v a IHv|v sl IHv IHs|l op r IHl IHr|l ops cs IHl IHcs
                  |op vs IHvs|op o IHo|f xs IHf IHxs|elts IHelts|ks vs IHks IHvs|d|m]
    using expr_ind'; cbn [parse_expr]; try solve [cv_auto].
  - (* Compare *)
    destruct cs as [|c0 cs]; [cv_auto|].
    inversion IHcs; subst. cv_auto.
  - (* BoolOp *)
    destruct vs as [|x [|y [|z vs]]]; try solve [cv_auto].
    inversion IHvs as [|? ? Hx Hvs]; subst. inversion Hvs; subst. cv_auto.
  - (* Call *)
    destruct f; try solve [cv_auto].
    destruct xs as [|x xs]; [cv_auto|].
    inversion IHxs; subst. cv_auto.
  - (* List *)
    apply no_cv_bind; [cv_auto|]. intros _ _.
    apply no_cv_bind; [|intros; cv_auto].
    apply no_cv_mapM_Forall. exact IHelts.
  - (* Dict *)
    apply no_cv_bind; [|intros; cv_auto].
    apply no_cv_dict_loop. exact IHvs.
Qed.

Lemma no_cv_parse_value_expr (e : ast.expr) (context : Context) :
  no_cv (parse_value_expr e context).
Proof. unfold parse_value_expr. pose proof (no_cv_parse_expr e context). cv_auto. Qed.

Lemma no_cv_parse_variable_location (e : ast.expr) (context : Context) :
  no_cv (parse_variable_location e context).
Proof.
  unfold parse_variable_location. pose proof (no_cv_parse_expr e context). cv_auto.
Qed.

Hint Resolve no_cv_parse_expr no_cv_parse_value_expr no_cv_parse_variable_location : cv.

Lemma no_cv_make_setter_fuel (fuel : nat) :
  forall left right loc, no_cv (make_setter_fuel fuel left right loc).
Proof.
  induction fuel as [|fuel IH]; intros left right loc; cbn [make_setter_fuel].
  - apply no_cv_Err. discriminate.
  - pose proof IH as IH'. cv_auto.
Qed.

Lemma no_cv_make_setter left right loc : no_cv (make_setter left right loc).
Proof. unfold make_setter. apply no_cv_make_setter_fuel. Qed.

Lemma no_cv_get_next_mem context : no_cv (get_next_mem context).
Proof. unfold get_next_mem. cv_auto. Qed.

Hint Resolve no_cv_make_setter no_cv_get_next_mem : cv.

Lemma no_cv_new_variable context name t : no_cv (new_variable context name t).
Proof. unfold new_variable. cv_auto. Qed.

Lemma no_cv_return_stmt v context : no_cv (return_stmt v context).
Proof. unfold return_stmt. cv_auto. Qed.

Lemma no_cv_for_range target iter context : no_cv (for_range target iter context).
Proof. unfold for_range. cv_auto. Qed.

Hint Resolve no_cv_new_variable no_cv_return_stmt no_cv_for_range : cv.

Lemma no_cv_call_stmt func xs context :
  is_constant context = false -> no_cv (call_stmt func xs context).
Proof. intros Hc. unfold call_stmt. cv_auto. Qed.

Lemma no_cv_assign_stmt targets v context :
  is_constant context = false -> no_cv (assign_stmt targets v context).
Proof. intros Hc. unfold assign_stmt. cv_auto. Qed.

Lemma no_cv_augassign_stmt target op v context :
  is_constant context = false -> no_cv (augassign_stmt target op v context).
Proof. intros Hc. unfold augassign_stmt. cv_auto. Qed.

(** The flag [is_constant] is fixed throughout a function. *)
Lemma new_variable_is_constant context name t pos context' :
  new_variable context name t = Ok (pos, context') ->
  is_constant context' = is_constant context.
Proof. unfold new_variable. intros Hn. inv_ok Hn. injection Hn as _ <-. reflexivity. Qed.

Lemma assign_stmt_is_constant targets v context o context' :
  assign_stmt targets v context = Ok (o, context') ->
  is_constant context' = is_constant context.
Proof.
  unfold assign_stmt. intros Ha. inv_ok Ha.
  repeat match type of Ha with
         | match ?x with _ => _ end = Ok _ => destruct x
         | (if ?c then _ else _) = Ok _ => destruct c
         end;
    inv_ok Ha; injection Ha as _ <-;
    first [ reflexivity | eapply new_variable_is_constant; eassumption ].
Qed.

Lemma parse_stmts_is_constant
    (ps : ast.stmt -> Context -> result (option LLLnode * Context))
    (code : list ast.stmt) :
  Forall (fun s => forall c o c', ps s c = Ok (o, c') -> is_constant c' = is_constant c)
         code ->
  forall context os context',
    parse_stmts ps code context = Ok (os, context') ->
    is_constant context' = is_constant context.
Proof.
  induction 1 as [|s code Hs _ IH]; intros context os context' Hos; cbn in Hos.
  - injection Hos as _ <-. reflexivity.
  - inv_ok Hos. injection Hos as _ <-.
    erewrite IH by eassumption. eapply Hs. eassumption.
Qed.

Lemma parse_stmt_is_constant (s : ast.stmt) :
  forall context o context',
    parse_stmt s context = Ok (o, context') ->
    is_constant context' = is_constant context.
Proof.
  induction s as [v| |t a|ts v|t b e IHb IHe|t|t i b IHb|t op v| |v|] using stmt_ind';
    intros context o context' Ho; cbn [parse_stmt] in Ho.
  - destruct v; try discriminate. inv_ok Ho. injection Ho as _ <-. reflexivity.
  - inv_ok Ho. injection Ho as _ <-. reflexivity.
  - inv_ok Ho. injection Ho as _ <-. eapply new_variable_is_constant; eassumption.
  - eapply assign_stmt_is_constant; eassumption.
  - destruct e as [|e0 e]; inv_ok Ho; injection Ho as _ <-.
    + eapply parse_stmts_is_constant; [|eassumption]. exact IHb.
    + inversion IHe as [|? ? IHe0 _]; subst.
      erewrite IHe0 by eassumption.
      eapply parse_stmts_is_constant; [|eassumption]. exact IHb.
  - inv_ok Ho. injection Ho as _ <-. reflexivity.
  - inv_ok Ho. injection Ho as _ <-. cbn.
    match goal with
    | E : parse_stmts _ b _ = Ok _ |- _ =>
        rewrite (parse_stmts_is_constant _ _ IHb _ _ _ E)
    end.
    match goal with
    | E : (if ?c then _ else _) = Ok _ |- _ => destruct c
    end.
    + match goal with
      | E : match ?x with _ => _ end = Ok _ |- _ =>
          destruct x as [[]|]; try discriminate; injection E as _ <-
      end. reflexivity.
    + eapply new_variable_is_constant; eassumption.
  - inv_ok Ho. injection Ho as _ <-. reflexivity.
  - inv_ok Ho. injection Ho as _ <-. reflexivity.
  - inv_ok Ho. injection Ho as _ <-. reflexivity.
  - discriminate.
Qed.

Lemma no_cv_parse_stmts
    (ps : ast.stmt -> Context -> result (option LLLnode * Context))
    (code : list ast.stmt) :
  Forall (fun s => forall c, is_constant c = false -> no_cv (ps s c)) code ->
  (forall s c o c', ps s c = Ok (o, c') -> is_constant c' = is_constant c) ->
  forall context, is_constant context = false -> no_cv (parse_stmts ps code context).
Proof.
  intros Hcode Hps. induction Hcode as [|s code Hs _ IH]; intros context Hc; cbn.
  - apply no_cv_Ok.
  - apply no_cv_bind; [apply Hs; assumption|]. intros [o c1] E1.
    apply no_cv_bind; [|intros [os c2] _; apply no_cv_Ok].
    apply IH. erewrite Hps by eassumption. assumption.
Qed.

(** Outside a constant function no statement raises a constancy
    violation. *)
Lemma no_cv_parse_stmt (s : ast.stmt) :
  forall context, is_constant context = false -> no_cv (parse_stmt s context).
Proof.
  induction s as [v| |t a|ts v|t b e IHb IHe|t|t i b IHb|t op v| |v|] using stmt_ind';
    intros context Hc; cbn [parse_stmt].
  - destruct v; try (apply no_cv_Err; discriminate).
    apply no_cv_bind; [apply no_cv_call_stmt; assumption|]. intros; apply no_cv_Ok.
  - cv_auto.
  - cv_auto.
  - apply no_cv_assign_stmt. assumption.
  - (* If *)
    assert (Hbody : forall c, is_constant c = false ->
              no_cv (parse_stmts parse_stmt b c)).
    { apply no_cv_parse_stmts; [exact IHb|]. intros; eapply parse_stmt_is_constant;
        eassumption. }
    destruct e as [|e0 e].
    + apply no_cv_bind; [cv_auto|]. intros tn _.
      apply no_cv_bind; [|intros [bn c1] _; cv_auto].
      apply no_cv_bind; [apply Hbody; assumption|]. intros [os c1] _. cv_auto.
    + inversion IHe as [|? ? IHe0 _]; subst.
      apply no_cv_bind; [cv_auto|]. intros tn _.
      apply no_cv_bind.
      { apply no_cv_bind; [apply Hbody; assumption|]. intros [os c1] _. cv_auto. }
      intros [bn c1] Eb.
      apply no_cv_bind; [|intros [en c2] _; cv_auto].
      apply IHe0.
      apply bind_Ok in Eb as ([os c] & Eos & Eb). inv_ok Eb. injection Eb as _ <-.
      erewrite parse_stmts_is_constant; [exact Hc| |exact Eos].
      apply Forall_forall. intros; eapply parse_stmt_is_constant; eassumption.
  - cv_auto.
  - (* For *)
    apply no_cv_bind; [cv_auto|]. intros [[varname start] rounds] _.
    apply no_cv_bind; [cv_auto|]. intros [pos c1] E1.
    assert (Hc1 : is_constant c1 = false).
    { destruct (has_key (forvars context) varname).
      - destruct (vars context !! varname) as [[]|]; try discriminate.
        injection E1 as _ <-. assumption.
      - erewrite new_variable_is_constant by eassumption. assumption. }
    apply no_cv_bind; [|intros [bn c2] _; cv_auto].
    apply no_cv_bind; [|intros [os c2] _; cv_auto].
    apply no_cv_parse_stmts; [exact IHb| |exact Hc1].
    intros; eapply parse_stmt_is_constant; eassumption.
  - apply no_cv_bind; [apply no_cv_augassign_stmt; assumption|]. intros; apply no_cv_Ok.
  - cv_auto.
  - cv_auto.
  - apply no_cv_Err. discriminate.
Qed.

(** C6 (amended). Inside a function translated with [is_constant] true,
    translation raises a constancy violation for every single-target
    assignment whose value translates and whose target resolves to a
    location in storage, for every [send(...)] call statement, and for
    every [selfdestruct(x)] or [suicide(x)] call statement with exactly
    one argument. With [is_constant] false no statement at all raises a
    constancy violation. *)
Theorem constancy_violations :
  (forall context target v sub tgt,
      is_constant context = true ->
      parse_expr v context = Ok sub ->
      introduces_variable target context = false ->
      parse_variable_location target context = Ok tgt ->
      location tgt = Some storage ->
      parse_stmt (ast.Assign [target] v) context = Err ConstancyViolationException)
  /\ (forall context xs,
        is_constant context = true ->
        parse_stmt (ast.Expr (ast.Call (ast.Name "send") xs)) context
        = Err ConstancyViolationException)
  /\ (forall context f x,
        is_constant context = true ->
        f = "selfdestruct" \/ f = "suicide" ->
        parse_stmt (ast.Expr (ast.Call (ast.Name f) [x])) context
        = Err ConstancyViolationException)
  /\ (forall s context,
        is_constant context = false ->
        parse_stmt s context <> Err ConstancyViolationException).
Proof.
  repeat split.
  - intros context target v sub tgt Hc Hsub Hnew Htgt Hloc.
    cbn [parse_stmt]. unfold assign_stmt. cbn [len length Z.of_nat].
    cbn -[parse_expr parse_variable_location make_setter new_variable].
    rewrite Hsub. cbn [bind].
    assert (Hold :
      bind (parse_variable_location target context)
        (fun target0 =>
           bind (raise_if (is_storage (location target0) && is_constant context)
                          ConstancyViolationException)
             (fun _ => bind (make_setter target0 sub (location target0))
                            (fun o => Ok (o, context))))
      = Err ConstancyViolationException).
    { rewrite Htgt. cbn [bind]. rewrite Hloc, Hc. reflexivity. }
    destruct target; try exact Hold.
    cbn in Hnew. rewrite Hnew. exact Hold.
  - intros context xs Hc. cbn [parse_stmt]. unfold call_stmt.
    change (eqs "send" "send") with true. cbv iota. rewrite Hc. reflexivity.
  - intros context f x Hc [-> | ->]; cbn [parse_stmt]; unfold call_stmt;
      cbn -[parse_value_expr]; rewrite Hc; reflexivity.
  - intros s context Hc. apply no_cv_parse_stmt. assumption.
Qed.

End NoConstancyViolation.

(** ** Subscripts of lists (C9) *)

Section ListSubscript.
Context {Ops : OpcodesModule} {Types : TypesModule}.

Lemma to_list_unfold (n : LLLnode) :
  to_list n = LList (value n) (map to_list (args n)).
Proof. destruct n. reflexivity. Qed.

(** What the constructor stores in an accepted node. *)
Lemma LLLnode_init_to_list (v : pyval) (xs : list LLLnode) t l (n : LLLnode) :
  LLLnode_init v xs t l = Ok n ->
  typ n = t /\ location n = l
  /\ match v with
     | PInt k => to_list n = LList (VInt k) (map to_list xs)
     | PStr s => to_list n = LList (VStr s) (map to_list xs)
     | _ => True
     end.
Proof.
  unfold LLLnode_init. intros Hn.
  destruct v as [k|s| |].
  - injection Hn as <-. repeat split.
  - inv_ok Hn. injection Hn as <-. repeat split.
  - destruct (isinstance_NullType t); [|discriminate].
    injection Hn as <-. repeat split.
  - discriminate.
Qed.

(** The shape of a translated access to a list element. *)
Lemma add_variable_offset_list_inv (parent key : LLLnode) subtype count (n : LLLnode) :
  typ parent = Some (ListType subtype count) ->
  add_variable_offset parent (KNode key) = Ok n ->
  exists idx,
    base_type_conversion key (typ key) (Some (BaseType1 "num")) = Ok idx
    /\ typ n = subtype /\ location n = location parent
    /\ (location parent = Some storage
        /\ to_list n = to_list (storage_element parent (clamped_index idx count) subtype)
        \/ location parent = Some memory
           /\ exists size,
                get_size_of_type subtype = inr size
                /\ to_list n
                   = to_list (memory_element parent (clamped_index idx count)
                                             (32 * size) subtype)).
Proof.
  intros Ht Hn. unfold add_variable_offset in Hn. rewrite Ht in Hn.
  apply bind_Ok in Hn as ([st sub] & Esub & Hn).
  inv_ok Esub. injection Esub as <- <-.
  exists a. split; [assumption|].
  destruct (location parent) as [[| |]|] eqn:Hl; try discriminate.
  - cbn [from_list mapM bind pyval_of typ_of_arg] in Hn. inv_ok Hn.
    repeat match goal with
           | H : LLLnode_init _ _ _ _ = Ok _ |- _ =>
               apply LLLnode_init_to_list in H as (? & ? & ?)
           end.
    repeat split; try assumption. left. split; [reflexivity|].
    cbn [to_list storage_element clamped_index node int_literal value args map] in *.
    repeat match goal with H : to_list _ = _ |- _ => rewrite H; clear H end.
    reflexivity.
  - destruct (get_size_of_type subtype) as [e|size] eqn:Hsize; [discriminate|].
    cbn [lift bind from_list mapM pyval_of typ_of_arg] in Hn. inv_ok Hn.
    repeat match goal with
           | H : LLLnode_init _ _ _ _ = Ok _ |- _ =>
               apply LLLnode_init_to_list in H as (? & ? & ?)
           end.
    repeat split; try assumption. right. split; [reflexivity|].
    exists size. split; [reflexivity|].
    cbn [to_list memory_element clamped_index node int_literal value args map] in *.
    repeat match goal with H : to_list _ = _ |- _ => rewrite H; clear H end.
    reflexivity.
Qed.

(** The node of a translated access to a list element. *)
Lemma add_variable_offset_list (parent key idx : LLLnode) subtype count :
  list_tables ->
  typ parent = Some (ListType subtype count) ->
  base_type_conversion key (typ key) (Some (BaseType1 "num")) = Ok idx ->
  valency parent <> 0 -> valency idx <> 0 ->
  (location parent = Some storage ->
   add_variable_offset parent (KNode key)
   = Ok (storage_element parent (clamped_index idx count) subtype))
  /\ (forall size,
         location parent = Some memory ->
         get_size_of_type subtype = inr size ->
         add_variable_offset parent (KNode key)
         = Ok (memory_element parent (clamped_index idx count) (32 * size) subtype)).
Proof.
  intros (Hu & Hadd & Hsha & Hmul) Ht Hidx Hvp Hvi.
  unfold add_variable_offset. rewrite Ht, Hidx. cbn [bind].
  split.
  - intros ->. cbv beta iota. build.
  - intros size -> ->. cbn [lift bind]. build.
Qed.

(** What reading a value leaves: a node without location. *)
Lemma parse_value_expr_location (e : ast.expr) (context : Context) (n : LLLnode) :
  parse_value_expr e context = Ok n -> location n = None.
Proof.
  unfold parse_value_expr. intros Hn.
  apply bind_Ok in Hn as (o & _ & Hn). unfold unwrap_location in Hn.
  destruct (location o) as [[| |]|] eqn:Hl.
  - cbn [from_list mapM bind pyval_of typ_of_arg] in Hn.
    apply LLLnode_init_to_list in Hn as (_ & Hn & _). exact Hn.
  - cbn [from_list mapM bind pyval_of typ_of_arg] in Hn.
    apply LLLnode_init_to_list in Hn as (_ & Hn & _). exact Hn.
  - cbn [from_list mapM bind pyval_of typ_of_arg] in Hn.
    apply LLLnode_init_to_list in Hn as (_ & Hn & _). exact Hn.
  - injection Hn as <-. exact Hl.
Qed.

(** The conversion of an index to [num]: a value of kind [num] whose
    unit is compatible with none is retyped, a null value is replaced by
    0, and the converted index is a [num] without location. *)
Lemma index_conversion (index idx : LLLnode) :
  location index = None ->
  base_type_conversion index (typ index) (Some (BaseType1 "num")) = Ok idx ->
  typ idx = Some (BaseType1 "num") /\ location idx = None
  /\ (is_base_type (typ index) ["num"]
       && are_units_compatible (typ index) (Some (BaseType1 "num")) = true
       /\ to_list idx = to_list index
       \/ typ index = Some NullType /\ to_list idx = LList (VInt 0) []).
Proof.
  intros Hloc Hidx. unfold base_type_conversion, unwrap_location in Hidx.
  rewrite Hloc in Hidx. cbn [bind] in Hidx. unfold BaseType1 in *.
  destruct (typ index) as [[k u p| | | | | |]|] eqn:Ht; try discriminate.
  - destruct (is_base_type (Some (BaseType k u p)) ["num"]
              && are_units_compatible (Some (BaseType k u p))
                   (Some (BaseType "num" default_unit false))) eqn:Hc.
    + pose proof Hidx as Hinit.
      apply LLLnode_init_to_list in Hidx as (Htyp & Hl & Hs).
      repeat split; try assumption. left. split; [reflexivity|].
      rewrite (to_list_unfold index).
      destruct (value index); cbn [pyval_of_value] in Hs, Hinit;
        [exact Hs|exact Hs|].
      cbn in Hinit. discriminate.
    + replace (is_base_type (Some (BaseType "num" default_unit false)) ["decimal"])
        with false in Hidx by reflexivity.
      rewrite andb_false_r in Hidx. discriminate.
  - cbn [is_base_type andb isinstance_NullType in_strs eqs String.eqb Ascii.eqb
         Bool.eqb orb negb raise_if bind from_list pyval_of typ_of_arg] in Hidx.
    change (LLLnode_init (PInt 0) [] (Some (BaseType "num" default_unit false)) None
            = Ok idx) in Hidx.
    apply LLLnode_init_to_list in Hidx as (Htyp & Hl & Hs).
    repeat split; try assumption. right. split; [reflexivity|exact Hs].
Qed.

(** Every other index is a type mismatch. *)
Lemma index_rejected (index : LLLnode) :
  location index = None ->
  is_base_type (typ index) ["num"]
  && are_units_compatible (typ index) (Some (BaseType1 "num")) = false ->
  typ index <> Some NullType ->
  base_type_conversion index (typ index) (Some (BaseType1 "num"))
  = Err TypeMismatchException.
Proof.
  intros Hloc Hc Hnull. unfold base_type_conversion, unwrap_location.
  rewrite Hloc. cbn [bind]. unfold BaseType1 in *.
  destruct (typ index) as [[k u p| | | | | |]|]; try reflexivity.
  - rewrite Hc. cbn [is_base_type in_strs eqs String.eqb Ascii.eqb Bool.eqb orb].
    rewrite andb_false_r. reflexivity.
  - contradiction.
Qed.

(** C9. A subscript whose base is a list of [count] elements: the index,
    read as a value, is converted to [num] and wrapped in
    [uclamplt(index, count)]; in storage the element is at
    [add(sha3_32(base), clamped)], in memory at
    [add(mul(32 * size, clamped), base)] with [size] the size of an
    element, and the node has the element's type and the base's location.
    The converted index is a [num] without location: the index itself,
    retyped, when it is of kind [num] with a unit compatible with none,
    and 0 when it is null; any other index is rejected as a type
    mismatch. Every translated access has this shape, and the access is
    translated whenever the tables register the four opcodes and neither
    the base nor the converted index is zerovalent. *)
Theorem list_subscript_address (value i : ast.expr) (context : Context)
    (base index : LLLnode) subtype count :
  parse_variable_location value context = Ok base ->
  parse_value_expr i context = Ok index ->
  typ base = Some (ListType subtype count) ->
  let access := parse_expr (ast.Subscript value (inl i)) context in
  let num := Some (BaseType1 "num") in
  let converted := base_type_conversion index (typ index) num in
  let convertible :=
    is_base_type (typ index) ["num"] && are_units_compatible (typ index) num in
  (forall n, access = Ok n ->
     exists idx,
       converted = Ok idx
       /\ typ idx = num /\ location idx = None
       /\ (convertible = true /\ to_list idx = to_list index
           \/ typ index = Some NullType /\ to_list idx = LList (VInt 0) [])
       /\ typ n = subtype /\ location n = location base
       /\ (location base = Some storage
           /\ to_list n = to_list (storage_element base (clamped_index idx count) subtype)
           \/ location base = Some memory
              /\ exists size,
                   get_size_of_type subtype = inr size
                   /\ to_list n
                      = to_list (memory_element base (clamped_index idx count)
                                                (32 * size) subtype)))
  /\ (convertible = false -> typ index <> Some NullType ->
      access = Err TypeMismatchException)
  /\ (forall idx,
        list_tables -> converted = Ok idx ->
        valency base <> 0 -> valency idx <> 0 ->
        (location base = Some storage ->
         access = Ok (storage_element base (clamped_index idx count) subtype))
        /\ (forall size,
              location base = Some memory ->
              get_size_of_type subtype = inr size ->
              access = Ok (memory_element base (clamped_index idx count)
                                          (32 * size) subtype))).
Proof.
  intros Hbase Hindex Ht access num converted convertible.
  assert (Haccess : access = add_variable_offset base (KNode index)).
  { subst access. cbn [parse_expr].
    fold (parse_variable_location value context). rewrite Hbase. cbn [bind].
    fold (parse_value_expr i context). rewrite Hindex. reflexivity. }
  pose proof (parse_value_expr_location i context index Hindex) as Hloc.
  rewrite Haccess. split; [|split].
  - intros n Hn.
    destruct (add_variable_offset_list_inv base index subtype count n Ht Hn)
      as (idx & Hidx & Hrest).
    destruct (index_conversion index idx Hloc Hidx) as (Htyp & Hl & Hshape).
    exists idx. split; [exact Hidx|]. split; [exact Htyp|]. split; [exact Hl|].
    split; [exact Hshape|exact Hrest].
  - intros Hc Hnull. unfold add_variable_offset. rewrite Ht.
    rewrite (index_rejected index Hloc Hc Hnull). reflexivity.
  - intros idx Htab Hidx Hvb Hvi.
    exact (add_variable_offset_list base index idx subtype count Htab Ht Hidx Hvb Hvi).
Qed.

End ListSubscript.

Section ListSubscriptOnTheFixture.
Import Fixture.
#[local] Existing Instance opcodes_module.
#[local] Existing Instance types_module.

Lemma list_subscript_address_witness :
  let num := Some (BaseType "num" None false) in
  let base := mkLLLnode (VInt 256) [] (Some (ListType num 10)) (Some memory) 1 in
  parse_expr (ast.Subscript (ast.Name "v") (inl (ast.Num (ast.Int 3)))) list_in_memory
  = Ok (memory_element base (clamped_index (num_literal 3) 10) 32 num)
  /\ parse_expr (ast.Subscript (ast.Name "v") (inl (ast.NameConstant ast.CTrue)))
                list_in_memory
     = Err TypeMismatchException.
Proof.
  intros num base. split.
  - refine (proj2 (proj2 (proj2 (list_subscript_address (ast.Name "v")
                                   (ast.Num (ast.Int 3))
                                   list_in_memory base (num_literal 3) num 10 _ _ _))
                     (num_literal 3) _ _ _ _) 1 _ _);
      first [reflexivity | discriminate | repeat split].
  - refine (proj1 (proj2 (list_subscript_address (ast.Name "v")
                            (ast.NameConstant ast.CTrue)
                            list_in_memory base
                            (mkLLLnode (VInt 1) [] (Some (BaseType "bool" None false))
                                       None 1)
                            num 10 _ _ _)) _ _);
      first [reflexivity | discriminate].
Defined.

End ListSubscriptOnTheFixture.

(** ** Integer literals through [decimal] and [floor] (C10) *)

Section FloorOfDecimal.
Context {Ops : OpcodesModule} {Types : TypesModule}.

Lemma mod_neg_small (z : Z) :
  - 2 ^ 256 <= z < 0 -> z mod 2 ^ 256 = z + 2 ^ 256.
Proof. intros Hz. symmetry. apply (Z.mod_unique_pos _ _ (-1)); lia. Qed.

(** A word read back as signed is the integer it stands for. *)
Lemma signed_wrap (z : Z) :
  - 2 ^ 255 <= z < 2 ^ 255 -> signed (wrap z) = z.
Proof.
  intros Hz. unfold signed, wrap.
  destruct (Z.le_gt_cases 0 z) as [H0|H0].
  - rewrite Z.mod_small by lia.
    destruct (Z.ltb_spec z (2 ^ 255)); lia.
  - rewrite mod_neg_small by lia.
    destruct (Z.ltb_spec (z + 2 ^ 256) (2 ^ 255)); lia.
Qed.

Lemma wrap_wrap_mul (a b : Z) : wrap (wrap a * wrap b) = wrap (a * b).
Proof. unfold wrap. symmetry. apply Z.mul_mod. lia. Qed.

Lemma num_node_int (n : Z) :
  - (2 ^ 127 - 1) <= n <= 2 ^ 127 - 1 ->
  num_node (ast.Int n) = Ok (num_literal n).
Proof.
  intros Hn. unfold num_node.
  replace ((- 2 ^ 127 + 1 <=? n) && (n <=? 2 ^ 127 - 1)) with true.
  - reflexivity.
  - symmetry. apply andb_true_iff. split; apply Z.leb_le; lia.
Qed.

Lemma unwrap_location_None (o : LLLnode) :
  location o = None -> unwrap_location o = Ok o.
Proof. unfold unwrap_location. intros ->. reflexivity. Qed.

Lemma parse_decimal_literal (context : Context) (n : Z) :
  has_op "MUL" 2 1 = true ->
  - (2 ^ 127 - 1) <= n <= 2 ^ 127 - 1 ->
  parse_expr (ast.Call (ast.Name "decimal") [ast.Num (ast.Int n)]) context
  = Ok (decimal_of_literal n).
Proof.
  intros Hmul Hn.
  cbn [parse_expr eqs String.eqb Ascii.eqb Bool.eqb].
  rewrite (num_node_int n Hn). cbn [bind].
  rewrite unwrap_location_None by reflexivity. cbn [bind].
  unfold decimal_node. cbn -[from_list].
  cbn [from_list mapM bind pyval_of typ_of_arg].
  rewrite init_int. cbn [bind].
  rewrite (init_op "mul" _ _ _ 2 1) by (assumption || reflexivity).
  reflexivity.
Qed.

Lemma parse_floor_decimal_literal (context : Context) (n : Z) :
  has_op "MUL" 2 1 = true ->
  has_op "SDIV" 2 1 = true ->
  - (2 ^ 127 - 1) <= n <= 2 ^ 127 - 1 ->
  parse_expr (ast.Call (ast.Name "floor")
                [ast.Call (ast.Name "decimal") [ast.Num (ast.Int n)]]) context
  = Ok (floor_of_decimal n).
Proof.
  intros Hmul Hsdiv Hn.
  pose proof (parse_decimal_literal context n Hmul Hn) as Hdec.
  cbn [parse_expr eqs String.eqb Ascii.eqb Bool.eqb] in Hdec |- *.
  rewrite Hdec. cbn [bind].
  rewrite unwrap_location_None by reflexivity. cbn [bind].
  unfold floor_node. cbn -[from_list].
  cbn [from_list mapM bind pyval_of typ_of_arg].
  rewrite init_int. cbn [bind].
  rewrite (init_op "sdiv" _ _ _ 2 1) by (assumption || reflexivity).
  reflexivity.
Qed.

Lemma eval_floor_of_decimal (mem : Z -> Z) (n : Z) :
  - (2 ^ 127 - 1) <= n <= 2 ^ 127 - 1 ->
  eval [] mem (floor_of_decimal n) = Value (wrap n).
Proof.
  intros Hn.
  cbn -[wrap signed Z.mul Z.quot Z.eqb DECIMAL_DIVISOR].
  rewrite wrap_wrap_mul.
  assert (HD : wrap DECIMAL_DIVISOR = DECIMAL_DIVISOR) by reflexivity.
  rewrite HD.
  replace (DECIMAL_DIVISOR =? 0) with false by reflexivity.
  rewrite signed_wrap by (unfold DECIMAL_DIVISOR; lia).
  replace (signed DECIMAL_DIVISOR) with DECIMAL_DIVISOR by reflexivity.
  rewrite Z.quot_mul by (unfold DECIMAL_DIVISOR; lia).
  reflexivity.
Qed.

(** C10. For every integer literal [n] with [|n| <= 2^127 - 1], the
    source expression [floor(decimal(n))] is translated to
    [sdiv(mul(n, 10^10), 10^10)], typed [num], and on the VM's 256-bit
    words this evaluates to the same value as the translation of the
    literal [n] itself. *)
Theorem floor_decimal_literal (context : Context) (mem : Z -> Z) (n : Z) :
  has_op "MUL" 2 1 = true ->
  has_op "SDIV" 2 1 = true ->
  - (2 ^ 127 - 1) <= n <= 2 ^ 127 - 1 ->
  exists node lit : LLLnode,
    parse_expr (ast.Call (ast.Name "floor")
                  [ast.Call (ast.Name "decimal") [ast.Num (ast.Int n)]]) context
      = Ok node
    /\ parse_expr (ast.Num (ast.Int n)) context = Ok lit
    /\ to_list node
       = LList (VStr "sdiv")
           [LList (VStr "mul") [LList (VInt n) []; LList (VInt DECIMAL_DIVISOR) []];
            LList (VInt DECIMAL_DIVISOR) []]
    /\ typ node = Some (BaseType "num" None false)
    /\ eval [] mem node = eval [] mem lit
    /\ eval [] mem lit = Value (wrap n).
Proof.
  intros Hmul Hsdiv Hn.
  exists (floor_of_decimal n), (num_literal n).
  split; [apply parse_floor_decimal_literal; assumption|].
  split; [apply (num_node_int n Hn)|].
  split; [reflexivity|]. split; [reflexivity|].
  rewrite eval_floor_of_decimal by assumption.
  split; reflexivity.
Qed.

End FloorOfDecimal.

(** ** The properties on sample programs *)

Section OnSamplePrograms.
Import Fixture.
#[local] Existing Instance opcodes_module.
#[local] Existing Instance types_module.

Lemma if_else_first_statement_only_witness :
  exists o context',
    parse_stmt if_with_long_else empty_context = Ok (o, context')
    /\ parse_stmt if_with_long_else empty_context
       = parse_stmt (ast.If (ast.NameConstant ast.CTrue) [ast.Pass] [ast.Pass])
                    empty_context
    /\ exists n t b e c1,
         o = Some n
         /\ value n = VStr "if" /\ args n = [t; b; e]
         /\ parse_value_expr (ast.NameConstant ast.CTrue) empty_context = Ok t
         /\ parse_body [ast.Pass] empty_context = Ok (b, c1)
         /\ parse_stmt ast.Pass c1 = Ok (Some e, context').
Proof.
  eexists. eexists.
  assert (H : parse_stmt if_with_long_else empty_context = Ok (_, _))
    by (vm_compute; reflexivity).
  split; [exact H|].
  destruct (if_else_first_statement_only (ast.NameConstant ast.CTrue) [ast.Pass]
              ast.Pass [ast.Break] empty_context) as [H1 H2].
  split; [exact H1|]. exact (H2 _ _ H).
Defined.

Lemma constancy_violations_witness :
  parse_stmt (ast.Assign [self_x] (ast.Num (ast.Int 1))) constant_context
  = Err ConstancyViolationException
  /\ parse_stmt (ast.Expr (ast.Call (ast.Name "send") [])) constant_context
     = Err ConstancyViolationException
  /\ parse_stmt (ast.Expr (ast.Call (ast.Name "suicide") [ast.Name "self"]))
                constant_context
     = Err ConstancyViolationException
  /\ parse_stmt (ast.Assign [self_x] (ast.Num (ast.Int 1)))
                (mkContext ∅ ∅ (globals constant_context) ∅ None false)
     <> Err ConstancyViolationException.
Proof.
  destruct constancy_violations as (H1 & H2 & H3 & H4).
  split; [|split; [|split]].
  - apply (H1 constant_context self_x (ast.Num (ast.Int 1))
              (num_literal 1)
              (mkLLLnode (VInt 0) [] (Some (BaseType "num" None false))
                         (Some storage) 1));
      reflexivity.
  - apply H2. reflexivity.
  - apply H3; [reflexivity|]. right. reflexivity.
  - apply H4. reflexivity.
Defined.

(** C6 as stated fails: in a constant function, [selfdestruct()] without
    an argument is rejected for its number of arguments, and an
    assignment to storage with two targets for its number of targets,
    before the constancy is looked at. *)
Lemma selfdestruct_without_argument :
  is_constant constant_context = true
  /\ parse_stmt (ast.Expr (ast.Call (ast.Name "selfdestruct") [])) constant_context
     = Err (PyError Exception_)
  /\ parse_stmt (ast.Assign [self_x; self_x] (ast.Num (ast.Int 1))) constant_context
     = Err StructureException.
Proof. repeat split. Qed.



Lemma floor_decimal_literal_witness :
  exists node lit : LLLnode,
    parse_expr (ast.Call (ast.Name "floor")
                  [ast.Call (ast.Name "decimal") [ast.Num (ast.Int 7)]])
               empty_context
      = Ok node
    /\ parse_expr (ast.Num (ast.Int 7)) empty_context = Ok lit
    /\ to_list node
       = LList (VStr "sdiv")
           [LList (VStr "mul") [LList (VInt 7) []; LList (VInt DECIMAL_DIVISOR) []];
            LList (VInt DECIMAL_DIVISOR) []]
    /\ typ node = Some (BaseType "num" None false)
    /\ eval [] (fun _ => 0) node = eval [] (fun _ => 0) lit
    /\ eval [] (fun _ => 0) lit = Value (wrap 7).
Proof.
  apply (floor_decimal_literal empty_context (fun _ => 0) 7);
    [reflexivity | reflexivity | lia].
Defined.

End OnSamplePrograms.

(** ** [from_list] and [to_list] *)

Lemma lll_list_ind' (P : lll_list -> Prop)
    (f : forall v children, Forall P children -> P (LList v children)) :
  forall x, P x.
Proof.
  exact (fix go (x : lll_list) : P x :=
    match x with
    | LList v children =>
        f v children ((fix all (l : list lll_list) : Forall P l :=
                         match l with
                         | [] => @List.Forall_nil _ P
                         | y :: r => @List.Forall_cons _ P y r (go y) (all r)
                         end) children)
    end).
Qed.

Section Shapes.
Context {Ops : OpcodesModule} {Types : TypesModule}.

Lemma LLLnode_init_shape (v : pyval) (xs : list LLLnode) t l (n : LLLnode) :
  LLLnode_init v xs t l = Ok n ->
  to_list n = LList (value_of v) (map to_list xs) /\ typ n = t /\ location n = l.
Proof.
  unfold LLLnode_init. intros Hn.
  destruct v as [k|s| |].
  - injection Hn as <-. repeat split.
  - inv_ok Hn. injection Hn as <-. repeat split.
  - destruct (isinstance_NullType t); [|discriminate].
    injection Hn as <-. repeat split.
  - discriminate.
Qed.

Lemma mapM_map {A B C} (f : A -> result B) (g : B -> C) (h : A -> C)
    (l : list A) (r : list B) :
  Forall (fun a => forall b, f a = Ok b -> g b = h a) l ->
  mapM f l = Ok r -> map g r = map h l.
Proof.
  intros Hl. revert r. induction Hl as [|a l Ha _ IH]; cbn; intros r Hr.
  - injection Hr as <-. reflexivity.
  - inv_ok Hr. injection Hr as <-. cbn. f_equal; eauto.
Qed.

(** What [from_list] builds, as a nested list, and its root. *)
Lemma from_list_shape (obj : pyobj) t l (n : LLLnode) :
  from_list obj t l = Ok n ->
  to_list n = shape obj
  /\ ((forall m, obj <> ONode m) -> typ n = typ_of_arg t /\ location n = l).
Proof.
  revert t l n. induction obj as [k|s| | |m|objs IH] using pyobj_ind';
    intros t l n Hn; cbn [from_list] in Hn.
  - apply LLLnode_init_shape in Hn as (Hs & Ht & Hl). auto.
  - apply LLLnode_init_shape in Hn as (Hs & Ht & Hl). auto.
  - apply LLLnode_init_shape in Hn as (Hs & Ht & Hl). auto.
  - discriminate.
  - injection Hn as <-. split; [reflexivity|]. intros Hm. exfalso. eapply Hm. reflexivity.
  - destruct objs as [|o0 rest]; [discriminate|].
    apply bind_Ok in Hn as (xs & Hxs & Hn).
    apply LLLnode_init_shape in Hn as (Hs & Ht & Hl).
    split; [|auto]. rewrite Hs. cbn [shape]. f_equal.
    inversion IH as [|? ? _ IHrest]; subst.
    eapply mapM_map; [|exact Hxs].
    eapply Forall_impl; [exact IHrest|]. intros o Ho b Hb. cbn beta in Hb.
    apply (Ho _ _ _ Hb).
Qed.

(** X1. [to_list] after [from_list]: the tree that [from_list] builds
    from an object writes the object's list form, that is the head
    value followed by the list form of every element, where a scalar
    [s] is written [[s]] and a node is written as its own list: from
    [['add', 1, 2]] it writes [['add', [1], [2]]]. Unless it is handed
    a node, it gives the root the type and the location it is told. *)
Theorem from_list_to_list (obj : pyobj) t l (n : LLLnode) :
  from_list obj t l = Ok n ->
  to_list n = shape obj
  /\ ((forall m, obj <> ONode m) -> typ n = typ_of_arg t /\ location n = l).
Proof. apply from_list_shape. Qed.

End Shapes.

(** ** The context through a function body *)

Section ContextThroughBody.
Context {Ops : OpcodesModule} {Types : TypesModule}.

Lemma extends_trans (c1 c2 c3 : Context) :
  extends c1 c2 -> extends c2 c3 -> extends c1 c3.
Proof.
  induction 1 as [c|c name t pos ca cb Hn _ IH|c name cb _ IH]; intros H3.
  - exact H3.
  - eapply extends_variable; [exact Hn|]. apply IH. exact H3.
  - eapply extends_forvar. apply IH. exact H3.
Qed.

Lemma extends_new_variable (c : Context) name t pos (c' : Context) :
  new_variable c name t = Ok (pos, c') -> extends c c'.
Proof. intros Hn. eapply extends_variable; [exact Hn|]. apply extends_refl. Qed.

Lemma assign_stmt_extends targets v context o context' :
  assign_stmt targets v context = Ok (o, context') -> extends context context'.
Proof.
  unfold assign_stmt. intros Ha. inv_ok Ha.
  repeat match type of Ha with
         | match ?x with _ => _ end = Ok _ => destruct x
         | (if ?c then _ else _) = Ok _ => destruct c
         end;
    inv_ok Ha; injection Ha as _ <-;
    first [ apply extends_refl | eapply extends_new_variable; eassumption ].
Qed.

Lemma parse_stmts_extends
    (ps : ast.stmt -> Context -> result (option LLLnode * Context))
    (code : list ast.stmt) :
  Forall (fun s => forall c o c', ps s c = Ok (o, c') -> extends c c') code ->
  forall context os context',
    parse_stmts ps code context = Ok (os, context') -> extends context context'.
Proof.
  induction 1 as [|s code Hs _ IH]; intros context os context' Hos; cbn in Hos.
  - injection Hos as _ <-. apply extends_refl.
  - inv_ok Hos. injection Hos as _ <-.
    eapply extends_trans; [eapply Hs; eassumption|]. eapply IH. eassumption.
Qed.

(** Whatever a statement does to the context is a sequence of variable
    declarations and loop-variable marks. *)
Lemma parse_stmt_extends (s : ast.stmt) :
  forall context o context',
    parse_stmt s context = Ok (o, context') -> extends context context'.
Proof.
  induction s as [v| |t a|ts v|t b e IHb IHe|t|t i b IHb|t op v| |v|] using stmt_ind';
    intros context o context' Ho; cbn [parse_stmt] in Ho.
  - destruct v; try discriminate. inv_ok Ho. injection Ho as _ <-. apply extends_refl.
  - inv_ok Ho. injection Ho as _ <-. apply extends_refl.
  - inv_ok Ho. injection Ho as _ <-. eapply extends_new_variable; eassumption.
  - eapply assign_stmt_extends; eassumption.
  - destruct e as [|e0 e]; inv_ok Ho; injection Ho as _ <-.
    + eapply parse_stmts_extends; [|eassumption]. exact IHb.
    + inversion IHe as [|? ? IHe0 _]; subst.
      eapply extends_trans; [|eapply IHe0; eassumption].
      eapply parse_stmts_extends; [|eassumption]. exact IHb.
  - inv_ok Ho. injection Ho as _ <-. apply extends_refl.
  - inv_ok Ho. injection Ho as _ <-.
    eapply extends_trans; [|eapply extends_forvar; apply extends_refl].
    match goal with
    | E : (if ?c then _ else _) = Ok _ |- _ => destruct c
    end.
    + match goal with
      | E : match ?x with _ => _ end = Ok _ |- _ =>
          destruct x as [[]|]; try discriminate; injection E as _ <-
      end.
      eapply parse_stmts_extends; [exact IHb|eassumption].
    + eapply extends_trans; [eapply extends_new_variable; eassumption|].
      eapply parse_stmts_extends; [exact IHb|eassumption].
  - inv_ok Ho. injection Ho as _ <-. apply extends_refl.
  - inv_ok Ho. injection Ho as _ <-. apply extends_refl.
  - inv_ok Ho. injection Ho as _ <-. apply extends_refl.
  - discriminate.
Qed.

End ContextThroughBody.

Section Allocation.
Context {Ops : OpcodesModule} {Types : TypesModule}.

Lemma has_key_false {V} (d : gmap string V) (k : string) :
  has_key d k = false -> d !! k = None.
Proof. unfold has_key. destruct (d !! k); [discriminate|reflexivity]. Qed.

(** What a successful declaration does. *)
Lemma new_variable_Ok (c : Context) name t pos (c' : Context) :
  new_variable c name t = Ok (pos, c') ->
  exists size,
    is_varname_valid name = true
    /\ vars c !! name = None /\ ctx_args c !! name = None /\ globals c !! name = None
    /\ get_next_mem c = Ok pos
    /\ get_size_of_type t = inr size
    /\ c' = set_vars c (<["_next_mem" := NextMem (pos + 32 * size)]>
                          (<[name := VarSlot pos t]> (vars c))).
Proof.
  unfold new_variable. intros Hn.
  apply bind_Ok in Hn as (u1 & Hvalid & Hn). apply raise_if_Ok in Hvalid.
  apply bind_Ok in Hn as (u2 & Hdup & Hn). apply raise_if_Ok in Hdup.
  apply bind_Ok in Hn as (p & Hp & Hn). cbn beta zeta in Hn.
  destruct (get_size_of_type t) as [e|size] eqn:Hsize; [discriminate|].
  cbn [lift bind] in Hn. injection Hn as <- <-.
  apply negb_false_iff in Hvalid.
  apply orb_false_iff in Hdup as [Hdup Hg]. apply orb_false_iff in Hdup as [Hv Ha].
  exists size. repeat split; auto using has_key_false.
Qed.

Lemma get_next_mem_slot (c : Context) next :
  get_next_mem c = Ok next -> slot c "_next_mem" = None.
Proof.
  unfold get_next_mem, slot. destruct (vars c !! "_next_mem") as [[]|]; congruence.
Qed.

Lemma slot_new_variable (c : Context) name t pos size n :
  slot (set_vars c (<["_next_mem" := NextMem (pos + 32 * size)]>
                      (<[name := VarSlot pos t]> (vars c)))) n
  = if decide (n = "_next_mem") then None
    else if decide (n = name) then Some (pos, t)
    else slot c n.
Proof.
  unfold slot, set_vars. cbn [vars].
  destruct (decide (n = "_next_mem")) as [->|Hn].
  - rewrite lookup_insert_eq. reflexivity.
  - rewrite lookup_insert_ne by congruence.
    destruct (decide (n = name)) as [->|Hn'].
    + rewrite lookup_insert_eq. reflexivity.
    + rewrite lookup_insert_ne by congruence. reflexivity.
Qed.

Lemma new_variable_allocated (c : Context) name t pos (c' : Context) :
  sizes_nonnegative -> allocated c ->
  new_variable c name t = Ok (pos, c') ->
  allocated c'
  /\ forall n p u, slot c n = Some (p, u) -> slot c' n = Some (p, u).
Proof.
  intros Hsizes (next & Hnext & Hres & Hin & Hdis) Hn.
  apply new_variable_Ok in Hn
    as (size & _ & Hfresh & _ & _ & Hpos & Hsize & ->).
  assert (pos = next) as -> by congruence.
  pose proof (Hsizes t size Hsize) as Hsz.
  pose proof (get_next_mem_slot c next Hnext) as Hnm.
  assert (Hname : slot c name = None) by (unfold slot; rewrite Hfresh; reflexivity).
  split.
  - exists (next + 32 * size). repeat apply conj.
    + unfold get_next_mem, set_vars. cbn [vars]. rewrite lookup_insert_eq. reflexivity.
    + lia.
    + intros n p u Hslot. rewrite slot_new_variable in Hslot.
      destruct (decide (n = "_next_mem")); [discriminate|].
      destruct (decide (n = name)).
      * injection Hslot as <- <-. exists size. repeat split; [assumption|lia|lia].
      * destruct (Hin n p u Hslot) as (s & Hs & H1 & H2).
        exists s. repeat split; [assumption|lia|lia].
    + intros n1 n2 p1 t1 p2 t2 s1 s2 Hne H1 H2 Hs1 Hs2.
      rewrite slot_new_variable in H1, H2.
      destruct (decide (n1 = "_next_mem")); [discriminate|].
      destruct (decide (n2 = "_next_mem")); [discriminate|].
      destruct (decide (n1 = name)), (decide (n2 = name)).
      * congruence.
      * injection H1 as <- <-.
        destruct (Hin n2 p2 t2 H2) as (s & Hs & _ & Hle).
        assert (s = s2) as -> by congruence. right. lia.
      * injection H2 as <- <-.
        destruct (Hin n1 p1 t1 H1) as (s & Hs & _ & Hle).
        assert (s = s1) as -> by congruence. left. lia.
      * exact (Hdis n1 n2 p1 t1 p2 t2 s1 s2 Hne H1 H2 Hs1 Hs2).
  - intros n p u Hslot. rewrite slot_new_variable.
    destruct (decide (n = "_next_mem")) as [->|]; [congruence|].
    destruct (decide (n = name)) as [->|]; [congruence|]. exact Hslot.
Qed.

Lemma extends_allocated (c c' : Context) :
  sizes_nonnegative -> extends c c' -> allocated c ->
  allocated c'
  /\ forall n p u, slot c n = Some (p, u) -> slot c' n = Some (p, u).
Proof.
  intros Hsizes. induction 1 as [c|c name t pos ca cb Hn _ IH|c name cb _ IH];
    intros Hc.
  - auto.
  - destruct (new_variable_allocated c name t pos ca Hsizes Hc Hn) as [Ha Hkeep].
    destruct (IH Ha) as [Hb Hkeep']. auto.
  - apply IH. exact Hc.
Qed.



(** X3. Memory is allocated without overlap: when the slots of the
    variables are disjoint and below the next free position before a
    statement, they are so after it, and every variable is still in its
    slot. *)
Theorem parse_stmt_allocated (s : ast.stmt) (context : Context) o (context' : Context) :
  sizes_nonnegative ->
  allocated context ->
  parse_stmt s context = Ok (o, context') ->
  allocated context'
  /\ forall name pos t,
       slot context name = Some (pos, t) -> slot context' name = Some (pos, t).
Proof.
  intros Hsizes Hc Ho.
  exact (extends_allocated context context' Hsizes (parse_stmt_extends s _ _ _ Ho) Hc).
Qed.

End Allocation.

Section Declarations.
Context {Ops : OpcodesModule} {Types : TypesModule}.

Lemma allocated_no_variables (c : Context) : vars c = ∅ -> allocated c.
Proof.
  intros Hv. exists RESERVED_MEMORY.
  assert (Hslot : forall n, slot c n = None).
  { intros n. unfold slot. rewrite Hv, lookup_empty. reflexivity. }
  repeat apply conj.
  - unfold get_next_mem. rewrite Hv, lookup_empty. reflexivity.
  - lia.
  - intros n p t Hn. rewrite Hslot in Hn. discriminate.
  - intros n1 n2 p1 t1 p2 t2 s1 s2 _ H1. rewrite Hslot in H1. discriminate.
Qed.

(** X4. Declaring and looking up: a variable that has just been declared
    is translated, as an expression, to its position in memory, with
    its type and the location [memory]. *)
Theorem declared_variable_resolves (c : Context) name t pos (c' : Context) :
  new_variable c name t = Ok (pos, c') ->
  in_strs name ["self"; "true"; "false"; "null"; "_next_mem"] = false ->
  get_next_mem c = Ok pos
  /\ parse_expr (ast.Name name) c' = Ok (mkLLLnode (VInt pos) [] t (Some memory) 1).
Proof.
  intros Hn Hname.
  apply new_variable_Ok in Hn as (size & _ & _ & Ha & _ & Hpos & _ & ->).
  split; [exact Hpos|].
  assert (name <> "_next_mem") by (intros ->; discriminate Hname).
  cbn [in_strs existsb] in Hname.
  repeat (apply orb_false_iff in Hname as [? Hname]).
  cbn [parse_expr]. unfold name_node.
  repeat match goal with E : eqs name _ = false |- _ => rewrite E; clear E end.
  cbn [ctx_args set_vars vars]. rewrite Ha.
  rewrite lookup_insert_ne by congruence. rewrite lookup_insert_eq.
  reflexivity.
Qed.

Lemma extends_declared (c c' : Context) :
  extends c c' -> forall n, has_key (vars c) n = true -> has_key (vars c') n = true.
Proof.
  induction 1 as [c|c name t pos ca cb Hn _ IH|c name cb _ IH]; intros n Hk.
  - exact Hk.
  - apply IH. apply new_variable_Ok in Hn as (size & _ & _ & _ & _ & _ & _ & ->).
    unfold has_key, set_vars in *. cbn [vars].
    destruct (decide (n = "_next_mem")) as [->|];
      [rewrite lookup_insert_eq; reflexivity|rewrite lookup_insert_ne by congruence].
    destruct (decide (n = name)) as [->|];
      [rewrite lookup_insert_eq; reflexivity|rewrite lookup_insert_ne by congruence].
    exact Hk.
  - apply IH. exact Hk.
Qed.

(** X5. A variable is declared once: after [name: annotation] and any
    further statements of the body, declaring [name] again is rejected
    as a variable declaration error, whatever the (valid) annotation. *)
Theorem redeclaration_rejected (name : string) (annotation annotation' : ast.expr)
    (code : list ast.stmt) (c c1 c2 : Context) o os t' :
  parse_stmt (ast.AnnAssign (ast.Name name) annotation) c = Ok (o, c1) ->
  parse_stmts parse_stmt code c1 = Ok (os, c2) ->
  parse_type annotation' (Some memory) = inr t' ->
  parse_stmt (ast.AnnAssign (ast.Name name) annotation') c2
  = Err VariableDeclarationException.
Proof.
  intros H1 H2 Ht.
  assert (Hk : has_key (vars c2) name = true).
  { eapply extends_declared.
    - eapply parse_stmts_extends; [|exact H2].
      apply Forall_forall. intros s _ ? ? ?. apply parse_stmt_extends.
    - cbn [parse_stmt] in H1. inv_ok H1. injection H1 as _ <-.
      match goal with E : new_variable _ _ _ = Ok _ |- _ =>
        apply new_variable_Ok in E as (size & _ & _ & _ & _ & _ & _ & ->) end.
      unfold has_key, set_vars. cbn [vars].
      destruct (decide (name = "_next_mem")) as [->|];
        [rewrite lookup_insert_eq; reflexivity|rewrite lookup_insert_ne by congruence].
      rewrite lookup_insert_eq. reflexivity. }
  cbn [parse_stmt]. rewrite Ht. cbn [lift bind]. unfold new_variable.
  destruct (is_varname_valid name); [|reflexivity].
  cbn [negb raise_if bind]. rewrite Hk. reflexivity.
Qed.

End Declarations.

Section DeclarationsOnTheFixture.
#[local] Existing Instance Fixture.opcodes_module.
#[local] Existing Instance Sized.types_module.

Lemma sized_nonnegative : sizes_nonnegative.
Proof.
  intros t size. cbn. unfold Sized.get_size_of_type.
  destruct (Fixture.get_size_of_type t) as [e|n]; [discriminate|].
  destruct (Z.leb_spec 0 n); [|discriminate]. intros [= <-]. assumption.
Qed.


Lemma parse_stmt_allocated_witness :
  exists o c',
    parse_stmt declare_x Fixture.empty_context = Ok (o, c')
    /\ allocated c'
    /\ slot c' "x" = Some (256, Some (BaseType "num" None false)).
Proof.
  eexists. eexists.
  assert (H : parse_stmt declare_x Fixture.empty_context = Ok (_, _))
    by (vm_compute; reflexivity).
  split; [exact H|]. split; [|reflexivity].
  exact (proj1 (parse_stmt_allocated declare_x Fixture.empty_context _ _
                  sized_nonnegative
                  (allocated_no_variables Fixture.empty_context eq_refl) H)).
Defined.

Lemma declared_variable_resolves_witness :
  exists c',
    new_variable Fixture.empty_context "x" (Some (BaseType "num" None false))
    = Ok (256, c')
    /\ parse_expr (ast.Name "x") c'
       = Ok (mkLLLnode (VInt 256) [] (Some (BaseType "num" None false))
                       (Some memory) 1).
Proof.
  eexists.
  assert (H : new_variable Fixture.empty_context "x" (Some (BaseType "num" None false))
              = Ok (256, _)) by (vm_compute; reflexivity).
  split; [exact H|].
  exact (proj2 (declared_variable_resolves _ _ _ _ _ H eq_refl)).
Defined.

Lemma redeclaration_rejected_witness :
  exists o c1,
    parse_stmt declare_x Fixture.empty_context = Ok (o, c1)
    /\ parse_stmt (ast.AnnAssign (ast.Name "x") (ast.Name "decimal")) c1
       = Err VariableDeclarationException.
Proof.
  eexists. eexists.
  assert (H : parse_stmt declare_x Fixture.empty_context = Ok (_, _))
    by (vm_compute; reflexivity).
  split; [exact H|].
  exact (redeclaration_rejected "x" (ast.Name "num") (ast.Name "decimal") []
           _ _ _ _ [] _ H eq_refl eq_refl).
Defined.

End DeclarationsOnTheFixture.

(** ** Hexadecimal literals *)

Lemma string_pair_ind (P : string -> Prop) :
  P EmptyString ->
  (forall c, P (String c EmptyString)) ->
  (forall c1 c2 s, P s -> P (String c1 (String c2 s))) ->
  forall s, P s.
Proof.
  intros H0 H1 H2 s.
  assert (H : P s /\ forall c, P (String c s)).
  { induction s as [|c s [IH1 IH2]]; split; auto. }
  apply H.
Qed.

Lemma hex_digit_range (c : ascii) (d : Z) : hex_digit c = Some d -> 0 <= d < 16.
Proof.
  unfold hex_digit. intros Hd.
  repeat match type of Hd with
         | (if ?b then _ else _) = _ => destruct b eqn:?
         end; try discriminate; injection Hd as <-;
    repeat match goal with
           | E : (_ && _) = true |- _ => apply andb_true_iff in E as [? ?]
           | E : (_ <=? _) = true |- _ => apply Z.leb_le in E
           end; lia.
Qed.

Lemma unhexlify_digits (s : string) :
  forall acc z,
    (let* bytez := unhexlify s in Ok (fold_left (fun o b => o * 256 + b) bytez acc))
    = Ok z
    <-> exists digits,
          map hex_digit (list_ascii_of_string s) = map Some digits
          /\ Nat.Even (length digits)
          /\ z = fold_left (fun o d => o * 16 + d) digits acc.
Proof.
  induction s as [|c|c1 c2 s IH] using string_pair_ind; intros acc z.
  - cbn. split.
    + intros [= <-]. exists []. repeat split. exists 0%nat. reflexivity.
    + intros ([|d ds] & Hm & _ & ->); [reflexivity|discriminate].
  - cbn. split; [discriminate|].
    intros ([|d [|d' ds]] & Hm & [k Hk] & _); try discriminate.
    cbn in Hk. lia.
  - cbn [unhexlify list_ascii_of_string map].
    destruct (hex_digit c1) as [h|] eqn:H1, (hex_digit c2) as [l|] eqn:H2.
    + specialize (IH (acc * 256 + (16 * h + l)) z).
      assert (Hstep :
        (let* bytez := (let* bs := unhexlify s in Ok (16 * h + l :: bs)) in
         Ok (fold_left (fun o b => o * 256 + b) bytez acc))
        = (let* bytez := unhexlify s in
           Ok (fold_left (fun o b => o * 256 + b) bytez (acc * 256 + (16 * h + l))))).
      { destruct (unhexlify s); reflexivity. }
      rewrite Hstep, IH. split.
      * intros (ds & Hm & [k Hk] & ->). exists (h :: l :: ds).
        repeat split.
        -- cbn [map]. rewrite Hm. reflexivity.
        -- exists (S k). cbn [length]. lia.
        -- cbn [fold_left]. f_equal. lia.
      * intros ([|d [|d' ds]] & Hm & [k Hk] & ->); try discriminate.
        cbn [map] in Hm. injection Hm as <- <- Hm.
        exists ds. repeat split.
        -- exact Hm.
        -- exists (k - 1)%nat. cbn [length] in Hk. lia.
        -- cbn [fold_left]. f_equal. lia.
    + cbn. split; [discriminate|].
      intros ([|d [|d' ds]] & Hm & _); discriminate.
    + cbn. split; [discriminate|].
      intros ([|d [|d' ds]] & Hm & _); discriminate.
    + cbn. split; [discriminate|].
      intros ([|d [|d' ds]] & Hm & _); discriminate.
Qed.

Lemma hex_value_bound (digits : list Z) :
  Forall (fun d => 0 <= d < 16) digits ->
  forall acc k, 0 <= acc < 16 ^ k -> 0 <= k ->
    0 <= fold_left (fun o d => o * 16 + d) digits acc < 16 ^ (k + len digits).
Proof.
  induction 1 as [|d ds Hd _ IH]; intros acc k Hacc Hk.
  - cbn. unfold len. cbn. rewrite Z.add_0_r. exact Hacc.
  - cbn [fold_left]. unfold len in *. cbn [length].
    replace (k + Z.of_nat (S (length ds))) with ((k + 1) + Z.of_nat (length ds)) by lia.
    apply IH; [|lia].
    rewrite Z.pow_add_r by lia. change (16 ^ 1) with 16. nia.
Qed.

Lemma digits_range (cs : list ascii) (ds : list Z) :
  map hex_digit cs = map Some ds -> Forall (fun d => 0 <= d < 16) ds.
Proof.
  revert ds. induction cs as [|c cs IH]; intros [|d ds] Hm; try discriminate;
    constructor.
  - cbn [map] in Hm. injection Hm as Hd _. eapply hex_digit_range, Hd.
  - apply IH. cbn [map] in Hm. injection Hm as _ Hm. exact Hm.
Qed.

(** [hex_to_int] in terms of the digits it reads. *)
Lemma hex_to_int_spec (inp : string) (z : Z) :
  hex_to_int inp = Ok z
  <-> exists digits,
        map hex_digit (list_ascii_of_string (strip_0x inp)) = map Some digits
        /\ Nat.Even (length digits)
        /\ z = hex_value digits
        /\ 0 <= z < 16 ^ len digits.
Proof.
  unfold hex_to_int, hex_value. rewrite unhexlify_digits. split.
  - intros (ds & Hm & He & ->). exists ds. repeat apply conj; try assumption;
      try reflexivity.
    + apply (hex_value_bound ds) with (k := 0); [|lia|lia].
      eapply digits_range, Hm.
    + apply (hex_value_bound ds) with (k := 0); [|lia|lia].
      eapply digits_range, Hm.
  - intros (ds & Hm & He & -> & _). exists ds. auto.
Qed.

(** X6. [hex_to_int] reads the hexadecimal digits that follow an
    optional [0x], high digit first: it returns exactly when they are an
    even number of hexadecimal digits, their value, which is below
    [16 ^ n] for [n] digits. *)
Theorem hex_to_int_digits (inp : string) (z : Z) :
  hex_to_int inp = Ok z
  <-> exists digits,
        map hex_digit (list_ascii_of_string (strip_0x inp)) = map Some digits
        /\ Nat.Even (length digits)
        /\ z = hex_value digits
        /\ 0 <= z < 16 ^ len digits.
Proof. apply hex_to_int_spec. Qed.

Section Literals.
Context {Ops : OpcodesModule} {Types : TypesModule}.

Lemma prefix_0x (s : string) :
  String.prefix "0x" s = true -> exists r, s = String "0" (String "x" r).
Proof.
  destruct s as [|c1 [|c2 r]]; cbn [String.prefix]; try discriminate;
    repeat match goal with
           | |- context [Ascii.ascii_dec ?a ?b] => destruct (Ascii.ascii_dec a b)
           end; subst; try discriminate; eauto.
Qed.

Lemma str_literal_value (s : string) (k : nat) (z : Z) :
  len (list_ascii_of_string s) = Z.of_nat (2 + k) ->
  String.prefix "0x" s = true ->
  hex_to_int s = Ok z -> 0 <= z < 16 ^ Z.of_nat k.
Proof.
  intros Hlen Hp Hz. apply prefix_0x in Hp as (r & ->).
  apply hex_to_int_spec in Hz as (ds & Hm & _ & _ & Hb).
  cbn [strip_0x] in Hm. cbn [list_ascii_of_string] in Hlen.
  unfold len in *. cbn [length] in Hlen.
  apply (f_equal (@length _)) in Hm. rewrite !length_map in Hm.
  replace (Z.of_nat k) with (Z.of_nat (length ds)) by lia. exact Hb.
Qed.

(** X7. A string literal is an address or a 32-byte value: a literal of
    42 characters that starts with [0x] is translated to an integer
    below [2^160], typed [address]; one of 66 characters to an integer
    below [2^256], typed [bytes32]; nothing else is translated. *)
Theorem str_literal_range (s : string) (context : Context) (n : LLLnode) :
  parse_expr (ast.Str s) context = Ok n ->
  exists z kind,
    n = mkLLLnode (VInt z) [] (Some (BaseType1 kind)) None 1
    /\ hex_to_int s = Ok z
    /\ String.prefix "0x" s = true
    /\ (String.length s = 42%nat /\ kind = "address" /\ 0 <= z < 2 ^ 160
        \/ String.length s = 66%nat /\ kind = "bytes32" /\ 0 <= z < 2 ^ 256).
Proof.
  cbn [parse_expr]. unfold str_node. intros Hn.
  assert (Hlen : forall k : nat, len (list_ascii_of_string s) = Z.of_nat k ->
                                 String.length s = k).
  { intros k Hk. unfold len in Hk. apply Nat2Z.inj in Hk.
    rewrite <- Hk. clear. induction s; cbn; congruence. }
  destruct (len (list_ascii_of_string s) =? 42) eqn:H42; cbn [andb] in Hn.
  - destruct (String.prefix "0x" s) eqn:Hp.
    + apply bind_Ok in Hn as (z & Hz & Hn). cbn in Hn. injection Hn as <-.
      apply Z.eqb_eq in H42.
      exists z, "address". repeat split; try assumption. left.
      repeat split; [exact (Hlen 42%nat H42)| |];
        apply (str_literal_value s 40 z H42 Hp Hz).
    + apply Z.eqb_eq in H42. rewrite H42 in Hn. discriminate.
  - destruct (len (list_ascii_of_string s) =? 66) eqn:H66; cbn [andb] in Hn;
      [|discriminate].
    destruct (String.prefix "0x" s) eqn:Hp; [|discriminate].
    apply bind_Ok in Hn as (z & Hz & Hn). cbn in Hn. injection Hn as <-.
    apply Z.eqb_eq in H66.
    exists z, "bytes32". repeat split; try assumption. right.
    repeat split; [exact (Hlen 66%nat H66)| |];
      apply (str_literal_value s 64 z H66 Hp Hz).
Qed.

End Literals.

Section LiteralsOnTheFixture.
#[local] Existing Instance Fixture.opcodes_module.
#[local] Existing Instance Fixture.types_module.

Lemma hex_to_int_digits_witness : hex_to_int "0x1f" = Ok 31.
Proof.
  apply (proj2 (hex_to_int_digits "0x1f" 31)). exists [1; 15].
  repeat split; try reflexivity; try lia. exists 1%nat. reflexivity.
Defined.

Lemma str_literal_range_witness :
  exists z kind,
    parse_expr (ast.Str address_ff) Fixture.empty_context
    = Ok (mkLLLnode (VInt z) [] (Some (BaseType1 kind)) None 1)
    /\ kind = "address" /\ z = 255.
Proof.
  assert (H : parse_expr (ast.Str address_ff) Fixture.empty_context
              = Ok (mkLLLnode (VInt 255) [] (Some (BaseType1 "address")) None 1))
    by (vm_compute; reflexivity).
  destruct (str_literal_range address_ff Fixture.empty_context _ H)
    as (z & kind & Hn & Hz & _ & [(_ & Hk & _)|(Hlen & _)]).
  - exists z, kind. injection Hn as <- <-. rewrite H. repeat split.
  - discriminate Hlen.
Defined.

End LiteralsOnTheFixture.

(** ** The module level *)

Section TopLevel.
Context {Ops : OpcodesModule} {Types : TypesModule} {Hash : HashModule}.

(** The loop of [get_defs_and_globals]: the items are declarations
    followed by definitions, and the declarations are numbered from the
    size of the dictionary on. *)
Lemma defs_and_globals_loop_Ok (code : list toplevel) :
  forall d0 g0 d g,
    defs_and_globals_loop code d0 g0 = Ok (d, g) ->
    exists decls newdefs,
      code = map declaration decls ++ map TopDef newdefs
      /\ d = d0 ++ newdefs
      /\ (decls <> [] -> d0 = [])
      /\ NoDup (map fst decls)
      /\ (forall name, name ∈ map fst decls -> g0 !! name = None)
      /\ size g = (size g0 + length decls)%nat
      /\ (forall name, name ∉ map fst decls -> g !! name = g0 !! name)
      /\ (forall k name annotation,
            decls !! k = Some (name, annotation) ->
            exists t,
              parse_type annotation (Some storage) = inr t
              /\ g !! name = Some (Z.of_nat (size g0 + k), t)).
Proof.
  induction code as [|item code IH]; intros d0 g0 d g Hloop;
    cbn [defs_and_globals_loop] in Hloop.
  - injection Hloop as <- <-. exists [], [].
    rewrite Nat.add_0_r. repeat apply conj.
    + reflexivity.
    + symmetry. apply app_nil_r.
    + intros Habs. contradiction.
    + constructor.
    + intros name Hin. inversion Hin.
    + reflexivity.
    + reflexivity.
    + intros k name ann Hk. destruct k; discriminate.
  - destruct item as [s|item].
    + destruct s as [| |target annotation| | | | | | | |]; try discriminate.
      destruct target as [| | |id| | | | | | | | | | |]; try discriminate.
      apply bind_Ok in Hloop as (u1 & Hdup & Hloop). apply raise_if_Ok in Hdup.
      apply bind_Ok in Hloop as (u2 & Hdefs & Hloop). apply raise_if_Ok in Hdefs.
      destruct (parse_type annotation (Some storage)) as [e|t] eqn:Ht; [discriminate|].
      cbn [lift bind] in Hloop.
      apply IH in Hloop
        as (decls & newdefs & -> & -> & Hd0 & Hnd & Hfresh & Hsize & Hkeep & Hat).
      apply has_key_false in Hdup.
      apply negb_false_iff, Z.eqb_eq in Hdefs.
      assert (d0 = []) as -> by (destruct d0; [reflexivity|unfold len in Hdefs; cbn in Hdefs; lia]).
      assert (Hid : id ∉ map fst decls).
      { intros Hin. apply Hfresh in Hin. rewrite lookup_insert_eq in Hin. discriminate. }
      exists ((id, annotation) :: decls), newdefs. repeat apply conj.
      * reflexivity.
      * reflexivity.
      * reflexivity.
      * cbn [map fst]. constructor; assumption.
      * intros name Hin. cbn [map fst] in Hin. apply elem_of_cons in Hin as [->|Hin];
          [exact Hdup|].
        specialize (Hfresh name Hin).
        rewrite lookup_insert_ne in Hfresh; [exact Hfresh|].
        intros <-. contradiction.
      * rewrite Hsize, map_size_insert_None by exact Hdup. cbn [length]. lia.
      * intros name Hname. cbn [map fst] in Hname.
        apply not_elem_of_cons in Hname as [Hne Hname].
        rewrite (Hkeep name Hname). apply lookup_insert_ne. congruence.
      * intros [|k] name ann Hk.
        -- cbn in Hk. injection Hk as <- <-. exists t. split; [exact Ht|].
           rewrite (Hkeep id Hid), lookup_insert_eq, Nat.add_0_r. reflexivity.
        -- cbn in Hk. destruct (Hat k name ann Hk) as (t' & Ht' & Hg).
           exists t'. split; [exact Ht'|]. rewrite Hg.
           rewrite map_size_insert_None by exact Hdup. do 3 f_equal. lia.
    + apply IH in Hloop
        as (decls & newdefs & -> & -> & Hd0 & Hnd & Hfresh & Hsize & Hkeep & Hat).
      assert (decls = []) as ->.
      { destruct decls as [|x decls]; [reflexivity|].
        assert (Habs : d0 ++ [item] = []) by (apply Hd0; discriminate).
        destruct d0; discriminate. }
      exists [], (item :: newdefs). repeat apply conj.
      * reflexivity.
      * rewrite <- app_assoc. reflexivity.
      * intros Habs. contradiction.
      * constructor.
      * intros name Hin. inversion Hin.
      * exact Hsize.
      * exact Hkeep.
      * intros k name ann Hk. destruct k; discriminate.
Qed.

(** The shape of a module that [get_defs_and_globals] accepts. *)
Lemma get_defs_and_globals_inv (code : list toplevel) defs _globals :
  get_defs_and_globals code = Ok (defs, _globals) ->
  exists decls,
    code = map declaration decls ++ map TopDef defs
    /\ NoDup (map fst decls)
    /\ size _globals = length decls
    /\ (forall name, name ∉ map fst decls -> _globals !! name = None)
    /\ (forall k name annotation,
          decls !! k = Some (name, annotation) ->
          exists t,
            parse_type annotation (Some storage) = inr t
            /\ _globals !! name = Some (Z.of_nat k, t)).
Proof.
  unfold get_defs_and_globals. intros Hg.
  apply defs_and_globals_loop_Ok in Hg
    as (decls & newdefs & -> & -> & _ & Hnd & _ & Hsize & Hkeep & Hat).
  exists decls. rewrite map_size_empty in Hsize.
  split; [reflexivity|]. split; [exact Hnd|]. split; [exact Hsize|]. split.
  - intros name Hname. rewrite (Hkeep name Hname). apply lookup_empty.
  - intros k name ann Hk. destruct (Hat k name ann Hk) as (t & Ht & Hl).
    rewrite map_size_empty in Hl. eauto.
Qed.

(** X8. When [get_defs_and_globals] accepts a module, its body is a run
    of declarations [name: annotation] with different names, followed
    by the function definitions, which are returned in their order; the
    [k]-th declaration (from 0) is recorded with the index [k] and its
    type parsed for storage, and nothing else is recorded. *)
Theorem get_defs_and_globals_Ok (code : list toplevel) defs _globals :
  get_defs_and_globals code = Ok (defs, _globals) ->
  exists decls,
    code = map declaration decls ++ map TopDef defs
    /\ NoDup (map fst decls)
    /\ size _globals = length decls
    /\ (forall name, name ∉ map fst decls -> _globals !! name = None)
    /\ (forall k name annotation,
          decls !! k = Some (name, annotation) ->
          exists t,
            parse_type annotation (Some storage) = inr t
            /\ _globals !! name = Some (Z.of_nat k, t)).
Proof. apply get_defs_and_globals_inv. Qed.

End TopLevel.

Section ModuleTree.
Context {Ops : OpcodesModule} {Types : TypesModule} {Hash : HashModule}.

Lemma remove_dups_length {A} `{EqDecision A} (l : list A) :
  (length (remove_dups l) <= length l)%nat
  /\ (length (remove_dups l) = length l <-> NoDup l).
Proof.
  induction l as [|x l [IHle IHeq]]; cbn [remove_dups length].
  - split; [lia|]. split; [constructor|reflexivity].
  - destruct (decide_rel elem_of x l) as [Hin|Hin].
    + split; [lia|]. split; [lia|].
      intros Hnd. apply NoDup_cons in Hnd as [Hx _]. contradiction.
    + cbn [length]. split; [lia|]. split.
      * intros Hl. apply NoDup_cons. split; [exact Hin|]. apply IHeq. lia.
      * intros Hnd. apply NoDup_cons in Hnd as [_ Hnd]. apply IHeq in Hnd. lia.
Qed.

(** X9. The functions of a module have different names: a module with
    two functions of one name is rejected as a variable declaration
    error, and a module that is translated has none. *)
Theorem function_names_differ (code : list toplevel) :
  (forall defs _globals,
      get_defs_and_globals code = Ok (defs, _globals) ->
      ~ NoDup (map ast.name defs) ->
      parse_tree_to_lll code = Err VariableDeclarationException)
  /\ (forall n,
        parse_tree_to_lll code = Ok n ->
        exists defs _globals,
          get_defs_and_globals code = Ok (defs, _globals)
          /\ NoDup (map ast.name defs)).
Proof.
  split.
  - intros defs g Hg Hdup. unfold parse_tree_to_lll. rewrite Hg. cbn [bind].
    destruct (remove_dups_length (map ast.name defs)) as [Hle Heq].
    assert (Hlt : (len (remove_dups (map ast.name defs)) <? len defs) = true).
    { apply Z.ltb_lt. unfold len.
      rewrite length_map in Hle, Heq.
      destruct (decide (length (remove_dups (map ast.name defs)) = length defs))
        as [E|E]; [apply Heq in E; contradiction|lia]. }
    rewrite Hlt. reflexivity.
  - intros n Hn. unfold parse_tree_to_lll in Hn.
    destruct (get_defs_and_globals code) as [[defs g]|e] eqn:Hg; [|discriminate].
    cbn [bind] in Hn. exists defs, g. split; [reflexivity|].
    destruct (len (remove_dups (map ast.name defs)) <? len defs) eqn:Hlt;
      [discriminate|].
    apply Z.ltb_ge in Hlt. unfold len in Hlt.
    destruct (remove_dups_length (map ast.name defs)) as [Hle Heq].
    apply Heq. rewrite length_map in *. lia.
Qed.

Lemma mk_initial_wf (n : LLLnode) : mk_initial = Ok n -> well_formed n.
Proof.
  unfold mk_initial. intros Hn. apply from_list_well_formed in Hn; [exact Hn|].
  repeat (once constructor).
Qed.

Lemma parse_body_wf (code : list ast.stmt) (context : Context) n (context' : Context) :
  Forall stmt_ok code ->
  parse_body code context = Ok (n, context') -> well_formed n.
Proof.
  intros Hcode Hn. unfold parse_body in Hn. inv_ok Hn. injection Hn as <- _.
  match goal with
  | E : parse_stmts _ _ _ = Ok _ |- _ =>
      apply parse_stmts_wf in E;
      [|eapply Forall_impl; [exact Hcode|]; intros s Hs ? ? ?; apply parse_stmt_wf, Hs]
  end.
  match goal with
  | E : from_list _ _ _ = Ok _ |- _ => apply from_list_well_formed in E; [exact E|]
  end.
  constructor. constructor; [constructor|assumption].
Qed.

Lemma parse_func_wf (code : ast.FunctionDef) g v (n : LLLnode) :
  Forall stmt_ok (ast.body code) ->
  parse_func code g v = Ok n -> well_formed n.
Proof.
  intros Hcode Hn. unfold parse_func in Hn.
  apply bind_Ok in Hn as (d & _ & Hn). cbn beta in Hn.
  apply bind_Ok in Hn as (u & _ & Hn). cbn beta zeta in Hn.
  destruct (eqs (fd_name d) "__init__").
  - apply bind_Ok in Hn as ([b c] & Hb & Hn). injection Hn as <-.
    eapply parse_body_wf; eassumption.
  - apply bind_Ok in Hn as ([os c] & Hos & Hn).
    apply parse_stmts_wf in Hos;
      [|eapply Forall_impl; [exact Hcode|]; intros s Hs ? ? ?; apply parse_stmt_wf, Hs].
    apply from_list_well_formed in Hn; [exact Hn|].
    constructor. repeat (once constructor).
    assumption.
Qed.

Lemma return_lll_wf g (otherfuncs : list ast.FunctionDef) (o : pyobj) :
  Forall (fun d => Forall stmt_ok (ast.body d)) otherfuncs ->
  return_lll g otherfuncs = Ok o -> obj_well_formed o.
Proof.
  intros Hfs Ho. unfold return_lll in Ho.
  apply bind_Ok in Ho as (initial & Hi & Ho). cbn beta in Ho.
  apply bind_Ok in Ho as (funcs & Hf & Ho). injection Ho as <-.
  apply mk_initial_wf in Hi.
  assert (Hfuncs : Forall well_formed funcs).
  { eapply (mapM_Forall _ (fun d => Forall stmt_ok (ast.body d))); [|exact Hf].
    eapply Forall_impl; [exact Hfs|]. intros d Hd. split; [exact Hd|].
    intros b Hb. cbn beta in Hb, Hd. exact (parse_func_wf d g None b Hd Hb). }
  assert (Hseq : obj_well_formed (OList (OStr "seq" :: ONode initial :: map ONode funcs))).
  { constructor. constructor; [constructor|]. constructor; [constructor; exact Hi|].
    apply Forall_map. eapply Forall_impl; [exact Hfuncs|].
    intros; constructor; assumption. }
  repeat (once constructor; try assumption).
Qed.

(** X10. The tree of a whole module satisfies the valency invariants at
    every node: the header, the code of every function, and the
    dispatch around them. *)
Theorem parse_tree_to_lll_well_formed (code : list toplevel) (n : LLLnode) :
  Forall toplevel_ok code ->
  parse_tree_to_lll code = Ok n ->
  well_formed n.
Proof.
  intros Hcode Hn. unfold parse_tree_to_lll in Hn.
  destruct (get_defs_and_globals code) as [[defs g]|e] eqn:Hg; [|discriminate].
  cbn [bind] in Hn.
  apply bind_Ok in Hn as (u & _ & Hn). cbv zeta in Hn.
  assert (Hdefs : Forall (fun d => Forall stmt_ok (ast.body d)) defs).
  { apply get_defs_and_globals_inv in Hg as (decls & -> & _).
    apply Forall_app in Hcode as [_ Hcode].
    apply Forall_forall. intros d Hd.
    apply (proj1 (Forall_forall _ _) Hcode (TopDef d)).
    apply list_elem_of_In, in_map, list_elem_of_In, Hd. }
  assert (Hfilter : forall (P : ast.FunctionDef -> Prop) `{forall x, Decision (P x)},
             Forall (fun d => Forall stmt_ok (ast.body d)) (filter P defs)).
  { intros P HP. apply Forall_forall. intros d Hd.
    apply list_elem_of_filter in Hd as [_ Hd].
    eapply (proj1 (Forall_forall _ _) Hdefs). exact Hd. }
  pose proof (Hfilter (fun d => is_initializer d = true) _) as Hinit.
  pose proof (Hfilter (fun d => is_initializer d = false) _) as Hother.
  destruct (filter (fun d => is_initializer d = true) defs) as [|init inits];
    destruct (filter (fun d => is_initializer d = false) defs) as [|other others].
  - apply from_list_well_formed in Hn; [exact Hn|constructor].
  - apply bind_Ok in Hn as (o & Ho & Hn).
    apply return_lll_wf in Ho; [|exact Hother].
    eapply from_list_well_formed; eassumption.
  - apply bind_Ok in Hn as (initial & Hi & Hn). cbn beta in Hn.
    apply bind_Ok in Hn as (f & Hf & Hn).
    apply mk_initial_wf in Hi.
    apply parse_func_wf in Hf; [|inversion Hinit; assumption].
    apply from_list_well_formed in Hn; [exact Hn|].
    repeat (once constructor; try assumption).
  - apply bind_Ok in Hn as (initial & Hi & Hn). cbn beta in Hn.
    apply bind_Ok in Hn as (f & Hf & Hn). cbn beta in Hn.
    apply bind_Ok in Hn as (o & Ho & Hn).
    apply mk_initial_wf in Hi.
    apply parse_func_wf in Hf; [|inversion Hinit; assumption].
    apply return_lll_wf in Ho; [|exact Hother].
    apply from_list_well_formed in Hn; [exact Hn|].
    repeat (once constructor; try assumption).
Qed.

End ModuleTree.

Section Functions.
Context {Ops : OpcodesModule} {Types : TypesModule} {Hash : HashModule}.

Lemma nth_error_Forall2 {A B} (R : A -> B -> Prop) (l : list A) :
  forall k,
    length k = length l ->
    (forall i a, nth_error l i = Some a -> exists b, nth_error k i = Some b /\ R a b) ->
    Forall2 R l k.
Proof.
  induction l as [|a l IH]; intros [|b k] Hlen Hnth; try discriminate; constructor.
  - destruct (Hnth 0%nat a eq_refl) as (b' & Hb & HR). injection Hb as <-. exact HR.
  - apply IH; [cbn in Hlen; lia|]. intros i x Hx. exact (Hnth (S i) x Hx).
Qed.

(** The details of a function: its name, and one argument per
    parameter, with the parameter's name and parsed type. *)
Lemma get_func_details_args (code : ast.FunctionDef) (d : func_details) :
  get_func_details code = Ok d ->
  fd_name d = ast.name code
  /\ Forall2 (fun a x => exists annotation,
                ast.annotation a = Some annotation
                /\ parse_type annotation None = inr (snd x)
                /\ fst (fst x) = ast.arg_ a)
             (ast.args code) (fd_args d)
  /\ exists canon,
       mapM (fun arg =>
               match ast.annotation arg with
               | Some a => let* t := lift (parse_type a None) in lift (canonicalize_type t)
               | None => Err InvalidTypeException
               end) (ast.args code) = Ok canon
       /\ fd_sig d = ast.name code +:+ "(" +:+ join "," canon +:+ ")".
Proof.
  unfold get_func_details. intros Hd.
  apply bind_Ok in Hd as (args & Hargs & Hd). cbn beta in Hd.
  apply bind_Ok in Hd as ([output_type const] & _ & Hd).
  apply bind_Ok in Hd as (u & _ & Hd). cbn beta in Hd.
  apply bind_Ok in Hd as (canon & Hcanon & Hd). cbn beta zeta in Hd.
  apply bind_Ok in Hd as (method_id & _ & Hd). injection Hd as <-.
  cbn [fd_name fd_args fd_sig]. split; [reflexivity|]. split; [|eauto].
  apply bind_args_spec in Hargs as (new & -> & Hlen & Hnew). cbn [app].
  apply nth_error_Forall2; [exact Hlen|].
  intros i a Ha. destruct (Hnew i a Ha) as (an & t & Han & Ht & Hi).
  eexists. split; [exact Hi|]. exists an. cbn [fst snd]. auto.
Qed.

(** X11. The dispatch of a function: [parse_func] rejects a function one
    of whose parameters has the name of a global; the code of a
    function other than [__init__] is [if(eq(mload(0), method_id),
    seq(...))] with the selector that [get_func_details] computes. *)
Theorem parse_func_dispatch (code : ast.FunctionDef) _globals _vars :
  (forall d a,
      get_func_details code = Ok d ->
      a ∈ fd_args d -> has_key _globals (fst (fst a)) = true ->
      parse_func code _globals _vars = Err VariableDeclarationException)
  /\ (forall n,
        parse_func code _globals _vars = Ok n ->
        exists d,
          get_func_details code = Ok d
          /\ Forall (fun a => _globals !! ast.arg_ a = None) (ast.args code)
          /\ (ast.name code <> "__init__" ->
              exists body,
                to_list n
                = LList (VStr "if")
                    [LList (VStr "eq")
                       [LList (VStr "mload") [LList (VInt 0) []];
                        LList (VInt (fd_method_id d)) []];
                     LList (VStr "seq") body])).
Proof.
  split.
  - intros d a Hd Ha Hk. unfold parse_func. rewrite Hd. cbn [bind].
    assert (Hex : existsb (fun a => has_key _globals (fst (fst a))) (fd_args d) = true).
    { apply existsb_exists. exists a. split; [apply list_elem_of_In, Ha|exact Hk]. }
    rewrite Hex. reflexivity.
  - intros n Hn. unfold parse_func in Hn.
    destruct (get_func_details code) as [d|e] eqn:Hd; [|discriminate].
    cbn [bind] in Hn. exists d. split; [reflexivity|].
    apply bind_Ok in Hn as (u & Hclash & Hn). apply raise_if_Ok in Hclash.
    cbv zeta in Hn.
    destruct (get_func_details_args code d Hd) as (Hname & Hargs & _).
    split.
    + clear Hn. induction Hargs as [|a x args xs (an & _ & _ & Hx) _ IH];
        constructor.
      * cbn [existsb] in Hclash. apply orb_false_iff in Hclash as [Hc _].
        rewrite <- Hx. apply has_key_false, Hc.
      * apply IH. cbn [existsb] in Hclash. apply orb_false_iff in Hclash as [_ Hc].
        exact Hc.
    + intros Hinit. rewrite Hname in Hn.
      assert (Hne : eqs (ast.name code) "__init__" = false)
        by (apply String.eqb_neq; exact Hinit).
      rewrite Hne in Hn.
      apply bind_Ok in Hn as ([os c] & _ & Hn).
      apply from_list_shape in Hn as [Hn _]. rewrite Hn. cbn [shape map pyval_of value_of].
      eexists. reflexivity.
Qed.

Lemma canonical_inputs (args : list ast.arg) (xs : list (string * Z * NodeType))
    (canon : list string) (inputs : list (string * string)) :
  Forall2 (fun a x => exists annotation,
             ast.annotation a = Some annotation
             /\ parse_type annotation None = inr (snd x)
             /\ fst (fst x) = ast.arg_ a) args xs ->
  mapM (fun arg =>
          match ast.annotation arg with
          | Some a => let* t := lift (parse_type a None) in lift (canonicalize_type t)
          | None => Err InvalidTypeException
          end) args = Ok canon ->
  mapM (fun a => let* c := lift (canonicalize_type (snd a)) in Ok (c, fst (fst a))) xs
  = Ok inputs ->
  map fst inputs = canon /\ map snd inputs = map ast.arg_ args.
Proof.
  intros Hargs. revert canon inputs.
  induction Hargs as [|a x args xs (an & Han & Ht & Hx) _ IH];
    intros canon inputs Hc Hi; cbn [mapM] in Hc, Hi.
  - injection Hc as <-. injection Hi as <-. split; reflexivity.
  - apply bind_Ok in Hc as (c & Ec & Hc). cbn beta in Hc.
    apply bind_Ok in Hc as (cs & Ecs & Hc). injection Hc as <-.
    apply bind_Ok in Hi as (i & Ei & Hi). cbn beta in Hi.
    apply bind_Ok in Hi as (is_ & Eis & Hi). injection Hi as <-.
    destruct (IH cs is_ Ecs Eis) as [IH1 IH2].
    rewrite Han, Ht in Ec. cbn [lift bind] in Ec.
    destruct (canonicalize_type (snd x)) as [e|c'] eqn:Hcx; [discriminate|].
    cbn [lift bind] in Ec, Ei. injection Ec as <-. injection Ei as <-.
    cbn [map fst snd]. rewrite IH1, IH2, Hx. split; reflexivity.
Qed.

(** X12. The ABI agrees with the signatures: [mk_full_signature] returns
    one entry per function definition, in order; the entry's name is
    the function's name followed by the bracketed, comma-joined types
    of the entry's own inputs, the inputs carry the parameters' names,
    and the entry is a constructor exactly for [__init__]. *)
Theorem mk_full_signature_entries (code : list toplevel) (entries : list abi_entry) :
  mk_full_signature code = Ok entries ->
  exists defs _globals,
    get_defs_and_globals code = Ok (defs, _globals)
    /\ Forall2 (fun d e =>
                  abi_name e
                  = ast.name d +:+ "(" +:+ join "," (map fst (abi_inputs e)) +:+ ")"
                  /\ map snd (abi_inputs e) = map ast.arg_ (ast.args d)
                  /\ abi_type e = (if eqs (ast.name d) "__init__"
                                   then "constructor" else "function"))
               defs entries.
Proof.
  unfold mk_full_signature. intros He.
  destruct (get_defs_and_globals code) as [[defs g]|e] eqn:Hg; [|discriminate].
  cbn [bind] in He. exists defs, g. split; [reflexivity|].
  apply mapM_Forall2 in He.
  eapply Forall2_impl; [exact He|]. intros d e Hde. cbn beta in Hde.
  apply bind_Ok in Hde as (fd & Hfd & Hde). cbn beta in Hde.
  apply bind_Ok in Hde as (outputs & _ & Hde). cbn beta in Hde.
  apply bind_Ok in Hde as (inputs & Hin & Hde). injection Hde as <-.
  cbn [abi_name abi_inputs abi_type].
  destruct (get_func_details_args d fd Hfd) as (Hname & Hargs & canon & Hcanon & Hsig).
  destruct (canonical_inputs _ _ _ _ Hargs Hcanon Hin) as [H1 H2].
  rewrite Hsig, H1, H2, Hname. repeat split.
Qed.

End Functions.

(** ** Values, locations and types of expressions *)

Section Expressions.
Context {Ops : OpcodesModule} {Types : TypesModule}.

Lemma unwrap_location_value (orig n : LLLnode) :
  unwrap_location orig = Ok n -> location n = None /\ typ n = typ orig.
Proof.
  unfold unwrap_location. intros Hn.
  destruct (location orig) as [[| |]|] eqn:Hl.
  - apply from_list_shape in Hn as [_ Hn]. destruct Hn as [Ht Hloc]; [discriminate|].
    auto.
  - apply from_list_shape in Hn as [_ Hn]. destruct Hn as [Ht Hloc]; [discriminate|].
    auto.
  - apply from_list_shape in Hn as [_ Hn]. destruct Hn as [Ht Hloc]; [discriminate|].
    auto.
  - injection Hn as <-. auto.
Qed.

(** X13. Values and locations: what [parse_value_expr] returns is a value
    (a node without location) of the type of the expression, and what
    [parse_variable_location] returns is the expression's own node,
    which has a location. *)
Theorem value_or_location (e : ast.expr) (context : Context) (n : LLLnode) :
  (parse_value_expr e context = Ok n ->
   location n = None
   /\ exists o, parse_expr e context = Ok o /\ typ n = typ o)
  /\ (parse_variable_location e context = Ok n ->
      parse_expr e context = Ok n /\ location n <> None).
Proof.
  split.
  - unfold parse_value_expr. intros Hn.
    apply bind_Ok in Hn as (o & Ho & Hn).
    apply unwrap_location_value in Hn as [Hl Ht]. eauto.
  - unfold parse_variable_location. intros Hn.
    apply bind_Ok in Hn as (o & Ho & Hn). cbn beta in Hn.
    apply bind_Ok in Hn as (u & Hloc & Hn). injection Hn as <-.
    apply raise_if_Ok in Hloc. split; [exact Ho|].
    destruct (location o); [discriminate|discriminate].
Qed.

(** X14. A conversion between base types gives a value of the target
    type: whenever [base_type_conversion] returns, the target is a base
    type, and the node has exactly that type and no location. *)
Theorem base_type_conversion_type (orig : LLLnode) frm to (n : LLLnode) :
  base_type_conversion orig frm to = Ok n ->
  typ n = to /\ location n = None
  /\ exists kind unit positional, to = Some (BaseType kind unit positional).
Proof.
  unfold base_type_conversion. intros Hn.
  apply bind_Ok in Hn as (o & _ & Hn).
  destruct frm as [[fk fu fp| | | | | |]|]; try discriminate;
    destruct to as [[tk tu tp| | | | | |]|]; try discriminate.
  - destruct (is_base_type _ [tk] && _).
    { apply LLLnode_init_to_list in Hn as (Ht & Hl & _). eauto 7. }
    destruct (is_base_type _ ["num"] && is_base_type _ ["decimal"] && _) eqn:Hdec.
    { apply andb_true_iff in Hdec as [Hdec _]. apply andb_true_iff in Hdec as [_ Hdec].
      cbn in Hdec. rewrite orb_false_r in Hdec. apply String.eqb_eq in Hdec as ->.
      apply from_list_shape in Hn as [_ Hn]. destruct Hn as [Ht Hl]; [discriminate|].
      cbn in Ht. eauto 7. }
    cbn [isinstance_NullType] in Hn. discriminate.
  - destruct (is_base_type _ [tk] && _).
    { apply LLLnode_init_to_list in Hn as (Ht & Hl & _). eauto 7. }
    destruct (is_base_type _ ["num"] && is_base_type _ ["decimal"] && _) eqn:Hdec.
    { cbn in Hdec. discriminate. }
    cbn [isinstance_NullType] in Hn.
    apply bind_Ok in Hn as (u & _ & Hn).
    apply from_list_shape in Hn as [_ Hn]. destruct Hn as [Ht Hl]; [discriminate|].
    cbn in Ht. eauto 7.
Qed.

(** X15. Type errors of arithmetic: when an operand of an arithmetic
    operation is not numeric, no tree is built; the exception that
    leaves [parse_expr] is the unbound local that the error message
    reads, not a type mismatch. The same holds for an ordering
    comparison of operands with compatible units. *)
Theorem non_numeric_operands (el er : ast.expr) (context : Context)
    (left right : LLLnode) :
  parse_value_expr el context = Ok left ->
  parse_value_expr er context = Ok right ->
  is_numeric_type (typ left) && is_numeric_type (typ right) = false ->
  (forall op, parse_expr (ast.BinOp el op er) context = Err (PyError UnboundLocalError))
  /\ (forall op rest,
        are_units_compatible (typ left) (typ right)
        || are_units_compatible (typ right) (typ left) = true ->
        In op [ast.Gt; ast.GtE; ast.LtE; ast.Lt] ->
        parse_expr (ast.Compare el [op] (er :: rest)) context
        = Err (PyError UnboundLocalError)).
Proof.
  intros Hl Hr Hnum.
  assert (Hneg : negb (is_numeric_type (typ left)) || negb (is_numeric_type (typ right))
                 = true).
  { rewrite <- negb_andb, Hnum. reflexivity. }
  split.
  - intros op. rewrite (parse_expr_BinOp el er op context left right Hl Hr).
    unfold binop_node. rewrite Hneg. reflexivity.
  - intros op rest Hunits Hop. cbn [parse_expr].
    fold (parse_value_expr el context). rewrite Hl. cbn [bind].
    fold (parse_value_expr er context). rewrite Hr. cbn [bind].
    unfold compare_node.
    replace (negb (are_units_compatible (typ left) (typ right))
             && negb (are_units_compatible (typ right) (typ left))) with false
      by (rewrite <- negb_orb, Hunits; reflexivity).
    cbn [raise_if bind len length Z.of_nat Pos.of_succ_nat Z.eqb Pos.eqb negb].
    rewrite Hneg.
    destruct Hop as [<-|[<-|[<-|[<-|[]]]]]; reflexivity.
Qed.

End Expressions.

(** ** Compound literals and members *)

Section Compound.
Context {Ops : OpcodesModule} {Types : TypesModule}.

Lemma mapM_length {A B} (f : A -> result B) (l : list A) (r : list B) :
  mapM f l = Ok r -> length r = length l.
Proof.
  revert r. induction l as [|a l IH]; cbn; intros r Hr.
  - injection Hr as <-. reflexivity.
  - inv_ok Hr. injection Hr as <-. cbn. f_equal. eauto.
Qed.

Lemma map_shape_nodes (xs : list LLLnode) : map shape (map ONode xs) = map to_list xs.
Proof. induction xs as [|x xs IH]; cbn; [reflexivity|]. rewrite IH. reflexivity. Qed.

(** X16. A list literal: the empty list is a structure error; a list of
    [k] elements is translated to a [multi] of the [k] translated
    elements, in order, typed as a list of [k] elements, with no
    location. *)
Theorem list_literal (elts : list ast.expr) (context : Context) :
  parse_expr (ast.List []) context = Err StructureException
  /\ forall n,
       parse_expr (ast.List elts) context = Ok n ->
       exists xs subtype,
         mapM (fun elt => parse_expr elt context) elts = Ok xs
         /\ to_list n = LList (VStr "multi") (map to_list xs)
         /\ typ n = Some (ListType subtype (len elts))
         /\ location n = None
         /\ elts <> [].
Proof.
  split; [reflexivity|].
  intros n Hn. cbn [parse_expr] in Hn.
  apply bind_Ok in Hn as (u & Hlen & Hn). apply raise_if_Ok in Hlen. cbn beta in Hn.
  apply bind_Ok in Hn as (xs & Hxs & Hn). cbv zeta in Hn.
  apply from_list_shape in Hn as [Hs Hn]. destruct Hn as [Ht Hl]; [discriminate|].
  exists xs, (list_out_type 0 None xs). split; [exact Hxs|].
  split; [rewrite Hs; cbn [shape pyval_of value_of]; rewrite map_shape_nodes; reflexivity|].
  split.
  - rewrite Ht. cbn [typ_of_arg]. unfold len.
    rewrite (mapM_length _ _ _ Hxs). reflexivity.
  - split; [exact Hl|]. intros ->. discriminate Hlen.
Qed.

Lemma list_index_nth (l : list string) (k : string) (i : nat) :
  list_index l k = Some i -> nth_error l i = Some k.
Proof.
  revert i. induction l as [|x l IH]; intros i Hi; cbn in Hi; [discriminate|].
  destruct (eqs x k) eqn:Hx.
  - injection Hi as <-. apply String.eqb_eq in Hx as ->. reflexivity.
  - destruct (list_index l k) as [j|]; [|discriminate]. injection Hi as <-.
    cbn. apply IH. reflexivity.
Qed.

Lemma mapM_nth {A B} (f : A -> result B) (l : list A) (r : list B) (i : nat) (a : A) :
  mapM f l = Ok r -> nth_error l i = Some a ->
  exists b, f a = Ok b /\ nth_error r i = Some b.
Proof.
  revert r i. induction l as [|x l IH]; intros r i Hr Hi; [destruct i; discriminate|].
  cbn in Hr. inv_ok Hr. injection Hr as <-.
  destruct i as [|i]; cbn in Hi |- *.
  - injection Hi as <-. eauto.
  - eapply IH; eassumption.
Qed.

Lemma dict_loop_keys (parse : ast.expr -> result LLLnode) (values : list ast.expr) :
  forall keys o o',
    NoDup (members_keys o) ->
    dict_loop parse keys values o = Ok o' ->
    NoDup (members_keys o').
Proof.
  induction values as [|v values IH]; intros keys o o' Hnd Hl.
  - destruct keys; injection Hl as <-; assumption.
  - destruct keys as [|key keys]; [injection Hl as <-; assumption|].
    cbn [dict_loop] in Hl.
    destruct (is_Name_valid key) as [id|]; [|discriminate].
    apply bind_Ok in Hl as (u & Hdup & Hl). apply raise_if_Ok in Hdup. cbn beta in Hl.
    apply bind_Ok in Hl as (n & _ & Hl).
    apply IH in Hl; [exact Hl|].
    unfold members_keys. rewrite map_app. cbn [map fst].
    apply NoDup_app. split; [exact Hnd|]. split; [|apply NoDup_singleton].
    intros x Hx Hx'. apply list_elem_of_singleton in Hx' as ->.
    assert (Hin : in_strs id (members_keys o) = true).
    { unfold in_strs. apply existsb_exists. exists id.
      split; [apply list_elem_of_In, Hx|apply String.eqb_refl]. }
    congruence.
Qed.

(** The members that the loop adds: one per written pair, in order,
    each under the name written as key and holding the translation of
    the value written for it. *)
Lemma dict_loop_members (parse : ast.expr -> result LLLnode) (values : list ast.expr) :
  forall keys o o',
    dict_loop parse keys values o = Ok o' ->
    exists new,
      o' = o ++ new
      /\ Forall2 (fun kv m => fst kv = ast.Name (fst m) /\ parse (snd kv) = Ok (snd m))
                 (combine keys values) new.
Proof.
  induction values as [|v values IH]; intros keys o o' Hl.
  - exists []. rewrite app_nil_r.
    destruct keys; injection Hl as <-; (split; [reflexivity|constructor]).
  - destruct keys as [|key keys].
    { injection Hl as <-. exists []. rewrite app_nil_r. split; [reflexivity|constructor]. }
    cbn [dict_loop] in Hl.
    destruct (is_Name_valid key) as [id|] eqn:Hkey; [|discriminate].
    apply bind_Ok in Hl as (u & _ & Hl). cbn beta in Hl.
    apply bind_Ok in Hl as (n & Hn & Hl).
    apply IH in Hl as (new & -> & Hnew).
    exists ((id, n) :: new). split; [rewrite <- app_assoc; reflexivity|].
    cbn [combine]. constructor; [|exact Hnew]. split; [|exact Hn].
    unfold is_Name_valid in Hkey. destruct key; try discriminate.
    cbn [fst]. destruct (is_varname_valid _); [|discriminate].
    injection Hkey as <-. reflexivity.
Qed.

Lemma combine_lookup {A B} (l : list A) (r : list B) (j : nat) a b :
  l !! j = Some a -> r !! j = Some b -> combine l r !! j = Some (a, b).
Proof.
  revert r j. induction l as [|x l IH]; intros [|y r] [|j] Ha Hb; try discriminate.
  - injection Ha as <-. injection Hb as <-. reflexivity.
  - cbn in *. apply IH; assumption.
Qed.

Lemma members_get_lookup {V} (d : list (string * V)) (j : nat) k v :
  NoDup (members_keys d) -> d !! j = Some (k, v) -> members_get d k = Some v.
Proof.
  revert j. induction d as [|[k' v'] d IH]; intros [|j] Hnd Hj; try discriminate.
  - injection Hj as -> ->. cbn. unfold eqs. rewrite String.eqb_refl. reflexivity.
  - cbn in Hj. cbn [members_keys map fst] in Hnd. apply NoDup_cons in Hnd as [Hni Hnd].
    cbn [members_get]. destruct (eqs k k') eqn:Hk.
    + apply String.eqb_eq in Hk as ->. exfalso. apply Hni.
      apply list_elem_of_lookup_2 in Hj.
      apply list_elem_of_In, in_map_iff. exists (k', v).
      split; [reflexivity|]. apply list_elem_of_In. exact Hj.
    + eapply IH; eassumption.
Qed.

Lemma In_insert_sorted (s k : string) (l : list string) :
  In k (insert_sorted s l) <-> k = s \/ In k l.
Proof.
  induction l as [|x l IH]; cbn.
  - intuition.
  - destruct (String.leb s x); cbn; [intuition|]. rewrite IH. intuition.
Qed.

Lemma In_sorted (k : string) (l : list string) : In k (sorted l) <-> In k l.
Proof.
  induction l as [|x l IH]; cbn; [reflexivity|].
  rewrite In_insert_sorted, IH. intuition.
Qed.

Lemma length_sorted (l : list string) : length (sorted l) = length l.
Proof.
  assert (Hins : forall s r, length (insert_sorted s r) = S (length r)).
  { intros s r. induction r as [|x r IH]; cbn; [reflexivity|].
    destruct (String.leb s x); cbn; [reflexivity|]. rewrite IH. reflexivity. }
  induction l as [|x l IH]; [reflexivity|].
  change (sorted (x :: l)) with (insert_sorted x (sorted l)).
  rewrite Hins, IH. reflexivity.
Qed.

Lemma list_index_In (l : list string) (k : string) :
  In k l -> exists i, list_index l k = Some i.
Proof.
  induction l as [|x l IH]; intros Hk; [contradiction|]. cbn.
  destruct (eqs x k) eqn:Hx; [eauto|].
  destruct Hk as [->|Hk].
  - unfold eqs in Hx. rewrite String.eqb_refl in Hx. discriminate.
  - destruct (IH Hk) as (i & ->). eauto.
Qed.

(** X17. A struct literal and the access to its members agree: the
    literal has one member per written pair, under the name written as
    key and holding the translation of the value written for it; the
    names are different; and for every pair [key: value] of the literal,
    the child of the [multi] at the index that [add_variable_offset]
    computes for [key] (its place among the sorted names) is the
    translation of [value]. *)
Theorem struct_literal_members (keys values : list ast.expr) (context : Context)
    (n : LLLnode) :
  parse_expr (ast.Dict keys values) context = Ok n ->
  exists o : list (string * LLLnode),
    Forall2 (fun kv m => fst kv = ast.Name (fst m)
                         /\ parse_expr (snd kv) context = Ok (snd m))
            (combine keys values) o
    /\ NoDup (members_keys o)
    /\ typ n = Some (StructType (map (fun kv => (fst kv, typ (snd kv))) o))
    /\ length (args n) = length o
    /\ forall j key value,
         keys !! j = Some (ast.Name key) -> values !! j = Some value ->
         exists m i,
           parse_expr value context = Ok m
           /\ list_index (sorted (members_keys o)) key = Some i
           /\ nth_error (map to_list (args n)) i = Some (to_list m).
Proof.
  intros Hn. cbn [parse_expr] in Hn.
  apply bind_Ok in Hn as (o & Ho & Hn). cbv zeta in Hn.
  apply bind_Ok in Hn as (nodes & Hnodes & Hn).
  exists o.
  assert (Hnd : NoDup (members_keys o))
    by (eapply dict_loop_keys; [|exact Ho]; constructor).
  destruct (dict_loop_members _ _ _ _ _ Ho) as (new & Hnew & Hall).
  cbn [app] in Hnew. subst new.
  split; [exact Hall|]. split; [exact Hnd|].
  apply from_list_shape in Hn as [Hs Hn]. destruct Hn as [Ht Hl]; [discriminate|].
  split; [exact Ht|].
  rewrite to_list_unfold in Hs. cbn [shape pyval_of value_of] in Hs.
  injection Hs as _ Hs.
  split.
  - apply (f_equal (@length _)) in Hs. rewrite !length_map in Hs.
    rewrite Hs. apply mapM_length in Hnodes. rewrite Hnodes.
    rewrite length_sorted. unfold members_keys. apply length_map.
  - intros j key value Hkey Hvalue.
    pose proof (combine_lookup _ _ _ _ _ Hkey Hvalue) as Hj.
    destruct (Forall2_lookup_l _ _ _ _ _ Hall Hj) as ([key' m] & Ho' & Hk & Hm).
    cbn [fst snd] in Hk, Hm. injection Hk as <-.
    pose proof (members_get_lookup _ _ _ _ Hnd Ho') as Hget.
    assert (Hin : In key (sorted (members_keys o))).
    { apply In_sorted. unfold members_keys. apply in_map_iff. exists (key, m).
      split; [reflexivity|]. apply list_elem_of_In.
      eapply list_elem_of_lookup_2. exact Ho'. }
    destruct (list_index_In _ _ Hin) as (i & Hi).
    exists m, i. split; [exact Hm|]. split; [exact Hi|].
    apply list_index_nth in Hi.
    destruct (mapM_nth _ _ _ _ _ Hnodes Hi) as (b & Hb & Hnth).
    rewrite Hget in Hb. injection Hb as <-.
    rewrite Hs, nth_error_map, Hnth. reflexivity.
Qed.

(** X18. The members of a struct in storage do not share an address:
    the accesses to two different members of one struct in storage are
    different trees, [add(sha3_32(parent), index)] with different
    indexes. *)
Theorem struct_members_apart (parent : LLLnode) (k1 k2 : string) (n1 n2 : LLLnode) :
  location parent = Some storage ->
  add_variable_offset parent (KStr k1) = Ok n1 ->
  add_variable_offset parent (KStr k2) = Ok n2 ->
  k1 <> k2 ->
  exists i1 i2 : nat,
    i1 <> i2
    /\ to_list n1 = LList (VStr "add")
                      [LList (VStr "sha3_32") [to_list parent]; LList (VInt (Z.of_nat i1)) []]
    /\ to_list n2 = LList (VStr "add")
                      [LList (VStr "sha3_32") [to_list parent]; LList (VInt (Z.of_nat i2)) []].
Proof.
  intros Hloc H1 H2 Hne. unfold add_variable_offset in H1, H2.
  destruct (typ parent) as [[| | |members| | |]|]; try discriminate.
  destruct (members_get members k1); [|discriminate].
  destruct (members_get members k2); [|discriminate].
  destruct (list_index _ k1) as [i1|] eqn:E1; [|discriminate].
  destruct (list_index _ k2) as [i2|] eqn:E2; [|discriminate].
  rewrite Hloc in H1, H2.
  apply from_list_shape in H1 as [H1 _], H2 as [H2 _].
  exists i1, i2. split; [|split; assumption].
  intros <-. apply list_index_nth in E1, E2. congruence.
Qed.

End Compound.

Section StorageLayout.
Context {Ops : OpcodesModule} {Types : TypesModule} {Hash : HashModule}.

Lemma lookup_declarations (decls : list (string * ast.expr))
    (defs : list ast.FunctionDef) (k : nat) (d : string * ast.expr) :
  (map declaration decls ++ map TopDef defs) !! k = Some (declaration d) ->
  decls !! k = Some d.
Proof.
  revert k. induction decls as [|x decls IH]; intros k Hk.
  - cbn [map app] in Hk. exfalso. revert k Hk.
    induction defs as [|f defs IHd]; intros [|k] Hk; try discriminate.
    cbn in Hk. eapply IHd, Hk.
  - destruct k as [|k]; cbn in Hk |- *.
    + injection Hk as Hk. destruct x, d. cbn in *. congruence.
    + apply IH, Hk.
Qed.

(** X19. The layout of storage: the [k]-th item (from 0) of a module
    that [get_defs_and_globals] accepts, when it is the declaration
    [x: annotation], gives [x] the storage slot [k]: in a function of
    the module, [self.x] is translated to the integer [k] with the
    declared type and the location [storage]. *)
Theorem global_variable_slot (code : list toplevel) defs _globals (k : nat)
    (x : string) (annotation : ast.expr) (context : Context) :
  get_defs_and_globals code = Ok (defs, _globals) ->
  code !! k = Some (declaration (x, annotation)) ->
  globals context = _globals ->
  x <> "balance" ->
  exists t,
    parse_type annotation (Some storage) = inr t
    /\ parse_expr (ast.Attribute (ast.Name "self") x) context
       = Ok (mkLLLnode (VInt (Z.of_nat k)) [] (Some t) (Some storage) 1).
Proof.
  intros Hg Hk Hc Hx. unfold get_defs_and_globals in Hg.
  apply defs_and_globals_loop_Ok in Hg
    as (decls & newdefs & -> & _ & _ & _ & _ & _ & _ & Hat).
  apply lookup_declarations in Hk.
  destruct (Hat k x annotation Hk) as (t & Ht & Hl).
  rewrite map_size_empty in Hl. cbn in Hl.
  exists t. split; [exact Ht|].
  cbn [parse_expr].
  replace (eqs x "balance") with false by (symmetry; apply String.eqb_neq, Hx).
  change (eqs "self" "self") with true. cbv iota.
  rewrite Hc, Hl. reflexivity.
Qed.

End StorageLayout.

Section RoundTrip.
Context {Ops : OpcodesModule} {Types : TypesModule}.

Lemma LLLnode_ind' (P : LLLnode -> Prop)
    (f : forall n, Forall P (args n) -> P n) : forall n, P n.
Proof.
  exact (fix go (n : LLLnode) : P n :=
    f n (match n as n0 return Forall P (args n0) with
         | mkLLLnode v xs t l val =>
             (fix all (l : list LLLnode) : Forall P l :=
                match l with
                | [] => @List.Forall_nil _ P
                | y :: r => @List.Forall_cons _ P y r (go y) (all r)
                end) xs
         end)).
Qed.

Lemma alike_index (xs ys : list LLLnode) (i : nat) :
  Forall2 alike xs ys ->
  match index xs i, index ys i with
  | Ok a, Ok b => alike a b
  | Err e, Err e' => e = e'
  | _, _ => False
  end.
Proof.
  intros H. revert i. induction H as [|x y xs ys Hxy _ IH]; intros [|i];
    cbn; try reflexivity; try exact Hxy.
  apply (IH i).
Qed.

Lemma alike_facts (xs ys : list LLLnode) :
  Forall2 alike xs ys ->
  len ys = len xs
  /\ existsb (fun a => valency a =? 0) ys = existsb (fun a => valency a =? 0) xs
  /\ last_valency ys = last_valency xs
  /\ sum_valency ys = sum_valency xs.
Proof.
  induction 1 as [|x y xs ys (Hv & Ha & Hval) Hrest (IH1 & IH2 & IH3 & IH4)].
  - repeat split.
  - repeat split.
    + unfold len in *. cbn [length]. lia.
    + cbn [existsb]. rewrite Hval, IH2. reflexivity.
    + unfold last_valency in *. destruct Hrest as [|x' y' xs' ys' _ _].
      * cbn. exact Hval.
      * cbn [last] in *. exact IH3.
    + cbn [sum_valency fold_right] in *. unfold sum_valency in IH4.
      rewrite Hval, IH4. reflexivity.
Qed.

(** The checks of the constructor look at the children only as far as
    [alike] goes. *)
Lemma str_valency_alike (s : string) (xs ys : list LLLnode) :
  Forall2 alike xs ys -> str_valency s ys = str_valency s xs.
Proof.
  intros H. destruct (alike_facts xs ys H) as (Hlen & Hex & Hlast & Hsum).
  pose proof (alike_index xs ys 0 H) as H0.
  pose proof (alike_index xs ys 1 H) as H1.
  pose proof (alike_index xs ys 2 H) as H2.
  pose proof (alike_index xs ys 3 H) as H3.
  unfold str_valency. rewrite Hlen, Hex, Hlast, Hsum.
  destruct (lookup_op (upper s)); [reflexivity|].
  destruct (index xs 0) as [a0|e0], (index ys 0) as [b0|e0']; try contradiction;
    destruct (index xs 1) as [a1|e1], (index ys 1) as [b1|e1']; try contradiction;
    destruct (index xs 2) as [a2|e2], (index ys 2) as [b2|e2']; try contradiction;
    destruct (index xs 3) as [a3|e3], (index ys 3) as [b3|e3']; try contradiction;
    subst; cbn [bind];
    repeat match goal with
           | Hab : alike _ _ |- _ =>
               let Hv := fresh in let Ha := fresh in let Hval := fresh in
               destruct Hab as (Hv & Ha & Hval);
               unfold len; rewrite ?Hv, ?Ha, ?Hval
           end;
    reflexivity.
Qed.

(** A node that satisfies the invariants has the valency that the
    constructor computes from its children. *)
Lemma node_invariant_str_valency (n : LLLnode) (s : string) :
  value n = VStr s -> node_invariant n -> str_valency s (args n) = Ok (valency n).
Proof.
  unfold node_invariant. intros -> Hn.
  destruct (lookup_op (upper s)) as [r|] eqn:Hr.
  - apply (str_valency_opcode s (args n) r Hr). destruct Hn as (? & ? & ?). auto.
  - destruct (eqs s "if") eqn:Hif.
    { apply String.eqb_eq in Hif as ->. apply str_valency_if; [exact Hr|].
      destruct Hn as (? & body & ? & ->). eauto. }
    unfold str_valency. rewrite Hr, Hif.
    destruct (eqs s "with") eqn:Hwith.
    { destruct Hn as (v & init & body & -> & Hv & Hs & Hi & ->).
      cbn. rewrite Hv, Hs. cbn.
      apply Z.eqb_neq in Hi. rewrite Hi. reflexivity. }
    destruct (eqs s "repeat") eqn:Hrep.
    { destruct Hn as (memloc & start & rounds & body & rest & -> & Hr0 & (k & Hk & Hpos)
                      & Hm & Hst & Hb & ->).
      cbn. rewrite Hr0, Hk. cbn.
      apply Z.eqb_neq in Hm, Hst. rewrite Hm, Hst, Hb.
      destruct (Z.leb_spec k 0); [lia|]. reflexivity. }
    destruct (eqs s "seq"); [rewrite Hn; reflexivity|].
    destruct (eqs s "multi").
    { destruct Hn as [Hall ->].
      apply existsb_zero_valency in Hall. rewrite Hall. reflexivity. }
    rewrite Hn. reflexivity.
Qed.

Lemma to_list_alike (x y : LLLnode) :
  to_list y = to_list x -> valency y = valency x -> alike x y.
Proof.
  rewrite (to_list_unfold x), (to_list_unfold y). intros Hl Hv.
  injection Hl as Hval Hargs. repeat split; try assumption.
  apply (f_equal (@length _)) in Hargs. rewrite !length_map in Hargs. exact Hargs.
Qed.

(** X20. [from_list] after [to_list]: a tree that satisfies the
    invariants at every node and has no null node is rebuilt from its
    own list, with the same shape and the same valency, and with the
    type and location given for the root. *)
Theorem to_list_from_list (n : LLLnode) :
  well_formed n ->
  no_null (to_list n) = true ->
  forall t l,
    exists m,
      from_list (unshape (to_list n)) t l = Ok m
      /\ to_list m = to_list n
      /\ valency m = valency n
      /\ typ m = typ_of_arg t /\ location m = l.
Proof.
  induction n as [n IH] using LLLnode_ind'. intros Hwf Hnull t l.
  inversion Hwf as [n' Hinv Hargs]; subst n'.
  rewrite to_list_unfold in Hnull |- *. cbn [no_null unshape] in Hnull |- *.
  apply andb_true_iff in Hnull as [Hv Hnull].
  assert (Hys : exists ys,
             mapM (fun o => from_list o (TTyp None) None)
                  (map unshape (map to_list (args n))) = Ok ys
             /\ Forall2 (fun x y => to_list y = to_list x /\ valency y = valency x)
                        (args n) ys).
  { clear Hinv Hv Hwf. revert IH Hargs Hnull.
    induction (args n) as [|x xs IHxs]; intros IH Hargs Hnull.
    - exists []. split; [reflexivity|constructor].
    - inversion IH as [|? ? IHx IHrest]; subst.
      inversion Hargs as [|? ? Hx Hrest]; subst.
      cbn [map forallb] in Hnull. apply andb_true_iff in Hnull as [Hnx Hnxs].
      destruct (IHx Hx Hnx (TTyp None) None) as (y & Hy & Hsh & Hval & _).
      destruct (IHxs IHrest Hrest Hnxs) as (ys & Hys & Hall).
      exists (y :: ys). split.
      + cbn [map mapM]. rewrite Hy. cbn [bind].
        change ((fix go (l0 : list pyobj) : result (list LLLnode) :=
                   match l0 with
                   | [] => Ok []
                   | x0 :: r =>
                       bind (from_list x0 (TTyp None) None)
                         (fun y0 => bind (go r) (fun ys0 => Ok (y0 :: ys0)))
                   end) (map unshape (map to_list xs)))
          with (mapM (fun o => from_list o (TTyp None) None)
                     (map unshape (map to_list xs))).
        rewrite Hys. reflexivity.
      + constructor; [split; assumption|exact Hall]. }
  destruct Hys as (ys & Hys & Hall).
  assert (Hlists : map to_list ys = map to_list (args n)).
  { clear - Hall. induction Hall as [|x y xs ys [Hxy _] _ IHall]; cbn; [reflexivity|].
    rewrite Hxy, IHall. reflexivity. }
  assert (Halike : Forall2 alike (args n) ys).
  { eapply Forall2_impl; [exact Hall|]. intros x y [? ?]. apply to_list_alike; assumption. }
  cbn [from_list]. rewrite Hys. cbn [bind].
  destruct (value n) as [k|s|] eqn:Hvalue; [| |discriminate].
  - cbn [pyval_of LLLnode_init]. eexists. split; [reflexivity|].
    cbn [to_list value args valency typ location]. rewrite Hlists.
    unfold node_invariant in Hinv. rewrite Hvalue in Hinv.
    repeat split. symmetry. exact Hinv.
  - cbn [pyval_of LLLnode_init].
    rewrite (str_valency_alike s (args n) ys Halike).
    rewrite (node_invariant_str_valency n s Hvalue Hinv). cbn [bind].
    eexists. split; [reflexivity|].
    cbn [to_list value args valency typ location]. rewrite Hlists. repeat split.
Qed.

End RoundTrip.

(** ** Constant functions leave the state alone *)

Section QuietNodes.
Context {Ops : OpcodesModule} {Types : TypesModule}.

Lemma LLLnode_init_value (v : pyval) (xs : list LLLnode) t l (n : LLLnode) :
  LLLnode_init v xs t l = Ok n -> value n = value_of v /\ args n = xs.
Proof.
  intros Hn. pose proof (LLLnode_init_fields _ _ _ _ _ Hn) as (Ha & _).
  apply LLLnode_init_shape in Hn as (Hs & _). rewrite to_list_unfold in Hs.
  injection Hs as Hv _. auto.
Qed.

Lemma LLLnode_init_quiet_children (v : pyval) (xs : list LLLnode) t l (n : LLLnode) :
  noisy (value_of v) = false -> Forall quiet xs ->
  LLLnode_init v xs t l = Ok n -> quiet n.
Proof.
  intros Hv Hxs Hn. apply LLLnode_init_value in Hn as [Hval Hargs].
  constructor; [rewrite Hval; exact Hv|rewrite Hargs; exact Hxs].
Qed.

(** A node rebuilt with the value and the children of a quiet node. *)
Lemma LLLnode_init_quiet (orig : LLLnode) t l (n : LLLnode) :
  quiet orig ->
  LLLnode_init (pyval_of_value (value orig)) (args orig) t l = Ok n -> quiet n.
Proof.
  intros Ho Hn. inversion Ho as [? Hv Hargs]; subst.
  eapply LLLnode_init_quiet_children; [|exact Hargs|exact Hn].
  destruct (value orig); exact Hv || reflexivity.
Qed.

(** [from_list] on an object whose nodes and names are quiet. *)
Lemma from_list_quiet (obj : pyobj) :
  obj_quiet obj ->
  forall t l n, from_list obj t l = Ok n -> quiet n.
Proof.
  induction obj as [k|s| | |m|xs IH] using pyobj_ind'; intros Hobj t l n Hn;
    cbn [from_list] in Hn.
  - eapply LLLnode_init_quiet_children; [|constructor|exact Hn]. reflexivity.
  - inversion Hobj; subst.
    eapply LLLnode_init_quiet_children; [|constructor|exact Hn]. assumption.
  - eapply LLLnode_init_quiet_children; [|constructor|exact Hn]. reflexivity.
  - discriminate.
  - injection Hn as <-. inversion Hobj; assumption.
  - destruct xs as [|o0 rest]; [discriminate|].
    inv_ok Hn.
    inversion Hobj as [| | | | |? Hall]; subst.
    inversion Hall as [|? ? Ho0 Hrest]; subst.
    inversion IH as [|? ? _ IHrest]; subst.
    eapply LLLnode_init_quiet_children; [| |exact Hn].
    + destruct o0; try reflexivity. inversion Ho0; assumption.
    + eapply (mapM_Forall _ obj_quiet); [|eassumption].
      clear - Hrest IHrest.
      induction Hrest as [|o rest Ho Hrest IHr]; constructor.
      * split; [assumption|]. inversion IHrest; subst. intros b Hb. eauto.
      * apply IHr. inversion IHrest; assumption.
Qed.

End QuietNodes.

(** Closes [quiet n] from [H], the construction of [n] out of
    well-formed pieces. *)
Ltac q_close H :=
  repeat match type of H with
         | context [if ?c then _ else _] => destruct c
         end;
  solve
    [ injection H as <-; assumption
    | eapply from_list_quiet; [|exact H];
      repeat (constructor; try assumption)
    | eapply LLLnode_init_quiet; [|exact H]; assumption ].

Section Quiet.
Context {Ops : OpcodesModule} {Types : TypesModule}.

Lemma quiet_args (n : LLLnode) : quiet n -> Forall quiet (args n).
Proof. intros Hn. inversion Hn; assumption. Qed.

Lemma unwrap_location_quiet (orig n : LLLnode) :
  quiet orig -> unwrap_location orig = Ok n -> quiet n.
Proof.
  intros Ho Hn. unfold unwrap_location in Hn. inv_cases Hn; q_close Hn.
Qed.

Lemma base_type_conversion_quiet (orig : LLLnode) frm to (n : LLLnode) :
  quiet orig -> base_type_conversion orig frm to = Ok n -> quiet n.
Proof.
  intros Ho Hn. unfold base_type_conversion in Hn.
  apply bind_Ok in Hn as (o & Eo & Hn).
  apply unwrap_location_quiet in Eo; [|assumption].
  pose proof (quiet_args o Eo).
  inv_cases Hn; q_close Hn.
Qed.

Lemma add_variable_offset_quiet (parent : LLLnode) (key : offset_key) (n : LLLnode) :
  quiet parent ->
  (forall k, key = KNode k -> quiet k) ->
  add_variable_offset parent key = Ok n -> quiet n.
Proof.
  intros Hp Hk Hn. unfold add_variable_offset in Hn.
  destruct (typ parent) as [[| | | | | |]|]; try discriminate.
  - (* lists *)
    apply bind_Ok in Hn as ([st sub] & Esub & Hn).
    assert (Hsub : obj_quiet sub).
    { destruct key as [|k]; [discriminate|].
      inv_ok Esub. injection Esub as <- <-.
      apply base_type_conversion_quiet in E; [|auto].
      repeat (constructor; try assumption). }
    inv_cases Hn; q_close Hn.
  - (* mappings *)
    apply bind_Ok in Hn as ([st sub] & Esub & Hn).
    assert (Hsub : obj_quiet sub).
    { destruct key as [|k]; [discriminate|].
      inv_ok Esub. injection Esub as <- <-.
      apply base_type_conversion_quiet in E; [|auto].
      repeat (constructor; try assumption). }
    inv_cases Hn; q_close Hn.
  - (* structs *)
    inv_cases Hn; q_close Hn.
Qed.

Lemma num_node_quiet (k : ast.number) (n : LLLnode) : num_node k = Ok n -> quiet n.
Proof. intros Hn. unfold num_node in Hn. inv_cases Hn; q_close Hn. Qed.

Lemma str_node_quiet (s : string) (n : LLLnode) : str_node s = Ok n -> quiet n.
Proof. intros Hn. unfold str_node in Hn. inv_cases Hn; q_close Hn. Qed.

Lemma nameconstant_node_quiet (c : ast.constant) (n : LLLnode) :
  nameconstant_node c = Ok n -> quiet n.
Proof. intros Hn. unfold nameconstant_node in Hn. inv_cases Hn; q_close Hn. Qed.

Lemma name_node_quiet (id : string) (context : Context) (n : LLLnode) :
  name_node id context = Ok n -> quiet n.
Proof. intros Hn. unfold name_node in Hn. inv_cases Hn; q_close Hn. Qed.

Lemma keyword_node_quiet (key : string) (n : LLLnode) :
  keyword_node key = Ok n -> quiet n.
Proof. intros Hn. unfold keyword_node in Hn. inv_cases Hn; q_close Hn. Qed.

Lemma binop_node_quiet (op : ast.operator) (l r n : LLLnode) :
  quiet l -> quiet r -> binop_node op l r = Ok n -> quiet n.
Proof. intros Hl Hr Hn. unfold binop_node in Hn. inv_cases Hn; q_close Hn. Qed.

Lemma compare_node_quiet (ops : list ast.cmpop) (l r n : LLLnode) :
  quiet l -> quiet r -> compare_node ops l r = Ok n -> quiet n.
Proof.
  intros Hl Hr Hn. unfold compare_node in Hn. inv_ok Hn.
  match goal with
  | E : match ops with _ => _ end = Ok _ |- _ =>
      destruct ops as [|[] ?]; try discriminate; injection E as <-
  end;
    inv_cases Hn; q_close Hn.
Qed.

Lemma boolop_node_quiet (op : ast.boolop) (l r n : LLLnode) :
  quiet l -> quiet r -> boolop_node op l r = Ok n -> quiet n.
Proof. intros Hl Hr Hn. unfold boolop_node in Hn. inv_cases Hn; q_close Hn. Qed.

Lemma unaryop_node_quiet (op : ast.unaryop) (o n : LLLnode) :
  quiet o -> unaryop_node op o = Ok n -> quiet n.
Proof. intros Ho Hn. unfold unaryop_node in Hn. inv_cases Hn; q_close Hn. Qed.

Lemma floor_node_quiet (sub n : LLLnode) :
  quiet sub -> floor_node sub = Ok n -> quiet n.
Proof. intros Ho Hn. unfold floor_node in Hn. inv_cases Hn; q_close Hn. Qed.

Lemma decimal_node_quiet (sub n : LLLnode) :
  quiet sub -> decimal_node sub = Ok n -> quiet n.
Proof. intros Ho Hn. unfold decimal_node in Hn. inv_cases Hn; q_close Hn. Qed.

Lemma as_number_node_quiet (sub n : LLLnode) :
  quiet sub -> as_number_node sub = Ok n -> quiet n.
Proof.
  intros Ho Hn. unfold as_number_node in Hn.
  pose proof (quiet_args sub Ho).
  inv_cases Hn; q_close Hn.
Qed.

Lemma clamp_by_type_quiet (o n : LLLnode) :
  quiet o -> clamp_by_type o = Ok n -> quiet n.
Proof. intros Ho Hn. unfold clamp_by_type in Hn. inv_cases Hn; q_close Hn. Qed.

End Quiet.

(** Saturates the context with the well-formedness of intermediate
    results. *)
Ltac q_step :=
  match goal with
  | IH : (forall c n, parse_expr ?e c = Ok n -> quiet n),
    E : parse_expr ?e _ = Ok _ |- _ => apply IH in E
  | W : quiet ?a, E : unwrap_location ?a = Ok _ |- _ =>
      apply (unwrap_location_quiet _ _ W) in E
  | W1 : quiet ?a, W2 : quiet ?b, E : binop_node _ ?a ?b = Ok _ |- _ =>
      apply (binop_node_quiet _ _ _ _ W1 W2) in E
  | W1 : quiet ?a, W2 : quiet ?b, E : compare_node _ ?a ?b = Ok _ |- _ =>
      apply (compare_node_quiet _ _ _ _ W1 W2) in E
  | W1 : quiet ?a, W2 : quiet ?b, E : boolop_node _ ?a ?b = Ok _ |- _ =>
      apply (boolop_node_quiet _ _ _ _ W1 W2) in E
  | W : quiet ?a, E : unaryop_node _ ?a = Ok _ |- _ =>
      apply (unaryop_node_quiet _ _ _ W) in E
  | W : quiet ?a, E : clamp_by_type ?a = Ok _ |- _ =>
      apply (clamp_by_type_quiet _ _ W) in E
  | W : quiet ?a, E : floor_node ?a = Ok _ |- _ =>
      apply (floor_node_quiet _ _ W) in E
  | W : quiet ?a, E : decimal_node ?a = Ok _ |- _ =>
      apply (decimal_node_quiet _ _ W) in E
  | W : quiet ?a, E : as_number_node ?a = Ok _ |- _ =>
      apply (as_number_node_quiet _ _ W) in E
  | W : quiet ?a, E : add_variable_offset ?a (KStr _) = Ok _ |- _ =>
      apply (add_variable_offset_quiet _ _ _ W) in E; [|discriminate]
  | W : quiet ?a, W2 : quiet ?k,
    E : add_variable_offset ?a (KNode ?k) = Ok _ |- _ =>
      apply (add_variable_offset_quiet _ _ _ W) in E;
      [|let k' := fresh in let Ek := fresh in intros k' Ek; injection Ek as <-; exact W2]
  end.

Section QuietExpr.
Context {Ops : OpcodesModule} {Types : TypesModule}.

Lemma dict_loop_quiet (parse : ast.expr -> result LLLnode) (values : list ast.expr) :
  Forall (fun v => forall n, parse v = Ok n -> quiet n) values ->
  forall keys o o',
    Forall (fun kv => quiet (snd kv)) o ->
    dict_loop parse keys values o = Ok o' ->
    Forall (fun kv => quiet (snd kv)) o'.
Proof.
  induction 1 as [|v values Hv _ IH]; intros keys o o' Ho Hl.
  - destruct keys; injection Hl as <-; assumption.
  - destruct keys as [|key keys]; [injection Hl as <-; assumption|].
    cbn in Hl. destruct (is_Name_valid key) as [id|]; [|discriminate].
    inv_ok Hl. eapply IH; [|exact Hl].
    apply Forall_app. split; [assumption|].
    constructor; [|constructor]. cbn. auto.
Qed.

Lemma members_get_quiet (o : list (string * LLLnode)) (key : string) (n : LLLnode) :
  Forall (fun kv => quiet (snd kv)) o ->
  members_get o key = Some n -> quiet n.
Proof.
  induction 1 as [|[k m] o Hm _ IH]; cbn; [discriminate|].
  destruct (eqs key k); [intros [= <-]; exact Hm | exact IH].
Qed.

(** Expressions: every node that [parse_expr] returns is well formed. *)
Lemma parse_expr_quiet (e : ast.expr) :
  expr_quiet e ->
  forall context n, parse_expr e context = Ok n -> quiet n.
Proof.
  induction e as [k|s|c|id|v a IHv|v sl IHv IHs|l op r IHl IHr|l ops cs IHl IHcs
                  |op vs IHvs|op o IHo|f xs IHf IHxs|elts IHelts|ks vs IHks IHvs|d|m]
    using expr_ind'; intros Hok context n Hn; cbn [parse_expr] in Hn.
  - eapply num_node_quiet; eassumption.
  - eapply str_node_quiet; eassumption.
  - eapply nameconstant_node_quiet; eassumption.
  - eapply name_node_quiet; eassumption.
  - (* Attribute *)
    inversion Hok; subst.
    specialize (IHv ltac:(assumption)).
    assert (Hmember : forall r,
      bind (bind (parse_expr v context)
                 (fun o => bind (raise_if (is_None (location o)) (PyError Exception_))
                                (fun _ => Ok o)))
           (fun sub => match typ sub with
                       | Some (StructType members) =>
                           bind (raise_if (negb (in_strs a (sorted (members_keys members))))
                                          TypeMismatchException)
                                (fun _ => add_variable_offset sub (KStr a))
                       | _ => Err TypeMismatchException
                       end) = Ok r -> quiet r).
    { intros r Hr. inv_ok Hr. q_step.
      inv_cases Hr. q_step. assumption. }
    destruct (eqs a "balance").
    + inv_ok Hn. repeat q_step. q_close Hn.
    + destruct v; try (apply Hmember; exact Hn).
      destruct (eqs id "self").
      * inv_cases Hn; q_close Hn.
      * destruct (in_strs id ["msg"; "block"; "tx"]).
        -- eapply keyword_node_quiet; eassumption.
        -- apply Hmember; exact Hn.
  - (* Subscript *)
    inversion Hok; subst.
    + specialize (IHv ltac:(assumption)).
      specialize (IHs i eq_refl ltac:(assumption)).
      inv_ok Hn. repeat q_step. assumption.
    + inv_ok Hn; discriminate.
  - (* BinOp *)
    inversion Hok; subst.
    specialize (IHl ltac:(assumption)). specialize (IHr ltac:(assumption)).
    inv_ok Hn. repeat q_step. assumption.
  - (* Compare *)
    inversion Hok as [| | | | | | | |? ? ? Hl Hcs| | | | | | |]; subst.
    specialize (IHl Hl).
    inv_ok Hn. destruct cs as [|c0 cs]; [discriminate|].
    inversion IHcs as [|? ? IHc0 _]; subst. inversion Hcs; subst.
    specialize (IHc0 ltac:(assumption)).
    inv_ok E1. repeat q_step. assumption.
  - (* BoolOp *)
    inversion Hok as [| | | | | | | | |? ? Hvs| | | | | |]; subst.
    destruct vs as [|x [|y [|z vs]]]; try discriminate.
    inversion IHvs as [|? ? IHx IHvs']; subst. inversion IHvs' as [|? ? IHy _]; subst.
    inversion Hvs as [|? ? Hx Hvs']; subst. inversion Hvs' as [|? ? Hy _]; subst.
    specialize (IHx Hx). specialize (IHy Hy).
    inv_ok Hn. repeat q_step. assumption.
  - (* UnaryOp *)
    inversion Hok; subst. specialize (IHo ltac:(assumption)).
    inv_ok Hn. repeat q_step. assumption.
  - (* Call *)
    inversion Hok as [| | | | | | | | | | |? ? Hxs| | | |]; subst.
    destruct f; try discriminate.
    destruct xs as [|x xs].
    { inv_cases Hn; discriminate. }
    inversion IHxs as [|? ? IHx _]; subst. inversion Hxs as [|? ? Hx _]; subst.
    specialize (IHx Hx).
    destruct (eqs id "floor").
    { destruct xs; [|discriminate]. inv_ok Hn. repeat q_step. assumption. }
    destruct (eqs id "decimal").
    { destruct xs; [|discriminate]. inv_ok Hn. repeat q_step. assumption. }
    destruct (eqs id "as_number"); [|discriminate].
    inv_ok Hn. repeat q_step. assumption.
  - (* List *)
    inversion Hok as [| | | | | | | | | | | |? Helts| | |]; subst.
    inv_ok Hn. eapply from_list_quiet; [|exact Hn].
    constructor. constructor; [constructor; reflexivity|].
    apply Forall_fmap.
    eapply (mapM_Forall _ expr_quiet (obj_quiet ∘ ONode)); [|exact E0].
    clear - IHelts Helts.
    induction Helts as [|x elts Hx Helts IH]; constructor.
    + inversion IHelts; subst. split; [assumption|]. intros b Hb.
      constructor. eauto.
    + apply IH. inversion IHelts; assumption.
  - (* Dict *)
    inversion Hok as [| | | | | | | | | | | | |? ? Hvs| |]; subst.
    inv_ok Hn.
    assert (Ho : Forall (fun kv => quiet (snd kv)) a).
    { eapply (dict_loop_quiet _ vs); [|constructor|exact E].
      clear - IHvs Hvs.
      induction Hvs as [|x vs Hx Hvs IH]; constructor.
      - inversion IHvs; subst. intros n Hn. eauto.
      - apply IH. inversion IHvs; assumption. }
    eapply from_list_quiet; [|exact Hn].
    constructor. constructor; [constructor; reflexivity|].
    eapply (mapM_Forall _ (fun _ => True)); [|exact E0].
    apply Forall_forall. intros key _. split; [exact I|].
    intros b Hb. destruct (members_get a key) eqn:Hg; [|discriminate].
    injection Hb as <-. constructor. eapply members_get_quiet; eassumption.
  - discriminate.
  - injection Hn as <-. inversion Hok; assumption.
Qed.

Lemma parse_value_expr_quiet (e : ast.expr) (context : Context) (n : LLLnode) :
  expr_quiet e -> parse_value_expr e context = Ok n -> quiet n.
Proof.
  intros Hok Hn. unfold parse_value_expr in Hn. inv_ok Hn.
  apply parse_expr_quiet in E; [|assumption].
  eapply unwrap_location_quiet; eassumption.
Qed.

Lemma parse_variable_location_quiet (e : ast.expr) (context : Context) (n : LLLnode) :
  expr_quiet e -> parse_variable_location e context = Ok n -> quiet n.
Proof.
  intros Hok Hn. unfold parse_variable_location in Hn. inv_ok Hn.
  apply parse_expr_quiet in E; [|assumption]. injection Hn as <-. assumption.
Qed.

End QuietExpr.

(** More saturation: literals, indexing, the translators of operands. *)
Ltac q_more :=
  match goal with
  | E : from_list (OInt _) _ _ = Ok _ |- _ =>
      apply from_list_quiet in E; [|constructor]
  | E : from_list (OStr _) _ _ = Ok _ |- _ =>
      apply from_list_quiet in E; [|constructor; reflexivity]
  | E : from_list ONone _ _ = Ok _ |- _ =>
      apply from_list_quiet in E; [|constructor]
  | W : quiet ?x, E : index (args ?x) _ = Ok _ |- _ =>
      apply index_Ok, nth_error_In in E;
      apply (proj1 (List.Forall_forall _ _) (quiet_args x W)) in E
  | W : quiet ?a, E : base_type_conversion ?a _ _ = Ok _ |- _ =>
      apply (base_type_conversion_quiet _ _ _ _ W) in E
  | E : from_list (OList _) _ _ = Ok _ |- _ =>
      apply from_list_quiet in E;
      [|solve [repeat (once constructor; try assumption)]]
  | O : expr_quiet ?e, E : parse_expr ?e _ = Ok _ |- _ =>
      apply (parse_expr_quiet _ O) in E
  | O : expr_quiet ?e, E : parse_value_expr ?e _ = Ok _ |- _ =>
      apply (parse_value_expr_quiet _ _ _ O) in E
  | O : expr_quiet ?e, E : parse_variable_location ?e _ = Ok _ |- _ =>
      apply (parse_variable_location_quiet _ _ _ O) in E
  | _ => q_step
  end.

Section QuietStmt.
Context {Ops : OpcodesModule} {Types : TypesModule}.

(** A setter that does not write to storage is quiet. *)
Lemma make_setter_fuel_quiet (fuel : nat) :
  forall (left right : LLLnode) loc o,
    quiet left -> quiet right -> is_storage loc = false ->
    make_setter_fuel fuel left right loc = Ok o ->
    obj_quiet (obj_of o).
Proof.
  induction fuel as [|fuel IH]; intros left right loc o Hl Hr Hloc Ho; [discriminate|].
  cbn [make_setter_fuel] in Ho.
  assert (Hsubs : forall (A : Type) (f : A -> result (option LLLnode)) (l : list A) subs,
             (forall a b, f a = Ok b -> obj_quiet (obj_of b)) ->
             mapM f l = Ok subs ->
             Forall obj_quiet (map obj_of subs)).
  { intros A f l subs Hf Hm. apply Forall_fmap. eapply mapM_all; eassumption. }
  destruct (typ left) as [[k u p|sub count|kt vt|members| | |m]|];
    try discriminate; try (injection Ho as <-; constructor).
  - (* basic types *)
    inv_ok Ho. q_more.
    destruct loc as [[]|]; try discriminate Hloc;
      inv_ok Ho; injection Ho as <-; cbn [obj_of];
      [apply oq_node ..|constructor|constructor];
      match goal with
      | E : from_list _ _ _ = Ok ?a |- quiet ?a => q_close E
      end.
  - (* arrays *)
    inv_ok Ho. repeat q_more.
    destruct (value_is right "multi"); [|destruct (isinstance_NullType (typ right))];
      inv_ok Ho; repeat q_more; injection Ho as <-; cbn [obj_of]; apply oq_node;
      (eapply from_list_quiet; [|eassumption]);
      repeat (once constructor; try assumption);
      (eapply Hsubs; [|eassumption]);
      intros i b Hb; cbn beta in Hb; inv_ok Hb; repeat q_more;
      refine (IH _ _ _ _ _ _ Hloc Hb); assumption.
  - (* structs *)
    inv_ok Ho. repeat q_more.
    destruct (value_is right "multi"); [|destruct (isinstance_NullType (typ right))];
      inv_ok Ho; repeat q_more; injection Ho as <-; cbn [obj_of]; apply oq_node;
      (eapply from_list_quiet; [|eassumption]);
      repeat (once constructor; try assumption);
      (eapply Hsubs; [|eassumption]);
      intros i b Hb; cbn beta in Hb; inv_ok Hb; repeat q_more;
      refine (IH _ _ _ _ _ _ Hloc Hb); assumption.
Qed.

Lemma make_setter_quiet (left right : LLLnode) loc o :
  quiet left -> quiet right -> is_storage loc = false ->
  make_setter left right loc = Ok o -> obj_quiet (obj_of o).
Proof. unfold make_setter. apply make_setter_fuel_quiet. Qed.

(** In a constant function no call statement is translated to a tree. *)
Lemma call_stmt_quiet (func : ast.expr) (xs : list ast.expr) (context : Context) o :
  is_constant context = true ->
  call_stmt func xs context = Ok o -> o = None.
Proof.
  intros Hc Ho. unfold call_stmt in Ho. rewrite Hc in Ho.
  destruct func; try discriminate.
  destruct (eqs id "send"); [discriminate|].
  destruct (in_strs id ["suicide"; "selfdestruct"]).
  - inv_ok Ho. discriminate.
  - injection Ho as <-. reflexivity.
Qed.

Lemma assign_stmt_quiet (targets : list ast.expr) (v : ast.expr) (context : Context)
    o context' :
  is_constant context = true ->
  Forall expr_quiet targets -> expr_quiet v ->
  assign_stmt targets v context = Ok (o, context') -> obj_quiet (obj_of o).
Proof.
  intros Hc Hts Hv Ho. unfold assign_stmt in Ho. inv_ok Ho.
  assert (Ht : expr_quiet a1).
  { apply index_Ok, nth_error_In in E1. eapply List.Forall_forall; eassumption. }
  repeat q_more.
  assert (Hold : forall r,
    bind (parse_variable_location a1 context)
      (fun target =>
         bind (raise_if (is_storage (location target) && is_constant context)
                        ConstancyViolationException)
           (fun _ => bind (make_setter target a0 (location target))
                          (fun o => Ok (o, context)))) = Ok (r, context') ->
    obj_quiet (obj_of r)).
  { intros r Hr. inv_ok Hr. repeat q_more. injection Hr as <- _.
    rewrite Hc, andb_true_r in *.
    eapply make_setter_quiet; [| | |eassumption]; assumption. }
  destruct a1; try (apply Hold; exact Ho).
  destruct (negb (has_key (vars context) id)); [|apply Hold; exact Ho].
  inv_ok Ho. repeat q_more.
  injection Ho as <- _.
  eapply make_setter_quiet; [| | |eassumption]; first [assumption|reflexivity].
Qed.

Lemma return_stmt_quiet (v : option ast.expr) (context : Context) o :
  (forall e, v = Some e -> expr_quiet e) ->
  return_stmt v context = Ok o -> obj_quiet (obj_of o).
Proof.
  intros Hv Ho. unfold return_stmt in Ho.
  destruct (return_type context) as [rt|], v as [e|]; try discriminate.
  - specialize (Hv e eq_refl).
    inv_ok Ho. repeat q_more.
    inv_cases Ho; repeat q_more;
      injection Ho as <-; cbn [obj_of]; apply oq_node; assumption.
  - inv_ok Ho. repeat q_more. injection Ho as <-. cbn [obj_of]. apply oq_node.
    assumption.
Qed.

Lemma for_range_quiet (target iter : ast.expr) (context : Context) varname start rounds :
  expr_quiet iter ->
  for_range target iter context = Ok (varname, start, rounds) ->
  quiet start /\ obj_quiet rounds.
Proof.
  intros Hi Hr. unfold for_range in Hr.
  destruct iter as [?|?|?|?|? ?|? ?|? ? ?|? ? ?|? ?|? ?|f xs|?|? ?|?|?];
    try discriminate.
  inversion Hi as [| | | | | | | | | | |? ? Hxs| | | |]; subst.
  assert (Hnum : forall k, obj_quiet (number_obj k)).
  { intros []; constructor. }
  assert (Hsub : forall k1 k2, obj_quiet (number_sub k1 k2)).
  { intros [] []; constructor. }
  assert (H0 : forall a0 rest, xs = a0 :: rest -> expr_quiet a0).
  { intros a0 rest ->. inversion Hxs; assumption. }
  repeat match type of Hr with
         | match ?x with _ => _ end = Ok _ => destruct x eqn:?; try discriminate
         | (if ?c then _ else _) = Ok _ => destruct c; try discriminate
         end;
    inv_ok Hr; injection Hr as _ <- <-;
    repeat match goal with
           | E : from_list (number_obj _) _ _ = Ok _ |- _ =>
               apply from_list_quiet in E; [|apply Hnum]
           | E : from_list (number_sub _ _) _ _ = Ok _ |- _ =>
               apply from_list_quiet in E; [|apply Hsub]
           end;
    repeat q_more;
    try (split; [assumption | first [apply Hnum | constructor; assumption]]).
  all: match goal with
       | E : parse_value_expr ?a _ = Ok _ |- _ =>
           apply parse_value_expr_quiet in E;
           [split; [assumption | apply Hnum] | eapply H0; reflexivity]
       end.
Qed.

Lemma augassign_stmt_quiet (target : ast.expr) (op : ast.operator) (v : ast.expr)
    (context : Context) o :
  is_constant context = true ->
  expr_quiet target -> expr_quiet v ->
  augassign_stmt target op v context = Ok o -> obj_quiet (obj_of o).
Proof.
  intros Hc Ht Hv Ho. unfold augassign_stmt in Ho. rewrite Hc in Ho.
  inv_ok Ho. repeat q_more.
  assert (Hbin : forall l sub r,
            quiet l -> quiet sub ->
            parse_value_expr (ast.BinOp (ast.LLL l) op (ast.LLL sub)) context = Ok r ->
            quiet r).
  { intros l sub r Hl Hsub Hr. eapply parse_value_expr_quiet; [|exact Hr].
    constructor; constructor; assumption. }
  destruct (is_storage (location a)); [|destruct (is_memory (location a))].
  - inv_ok Ho. discriminate.
  - inv_ok Ho. repeat q_more.
    match goal with
    | E : parse_value_expr _ _ = Ok _ |- _ => apply Hbin in E; [| assumption..]
    end.
    repeat q_more. injection Ho as <-. cbn [obj_of]. apply oq_node. assumption.
  - injection Ho as <-. constructor.
Qed.

Lemma parse_stmts_quiet
    (ps : ast.stmt -> Context -> result (option LLLnode * Context))
    (code : list ast.stmt) :
  Forall (fun s => forall c o c', is_constant c = true -> ps s c = Ok (o, c') ->
                                  obj_quiet (obj_of o)) code ->
  (forall s c o c', ps s c = Ok (o, c') -> is_constant c' = is_constant c) ->
  forall context os context',
    is_constant context = true ->
    parse_stmts ps code context = Ok (os, context') ->
    Forall obj_quiet (map obj_of os).
Proof.
  intros Hcode Hps.
  induction Hcode as [|s code Hs _ IH]; intros context os context' Hc Hos; cbn in Hos.
  - injection Hos as <- _. constructor.
  - apply bind_Ok in Hos as ([o c1] & E1 & Hos).
    apply bind_Ok in Hos as ([os1 c2] & E2 & Hos). injection Hos as <- _.
    cbn. constructor; [eapply Hs; eassumption|].
    eapply IH; [|exact E2]. erewrite Hps by exact E1. exact Hc.
Qed.

(** Statements of a constant function: every tree that [parse_stmt]
    returns is quiet. *)
Lemma parse_stmt_quiet (s : ast.stmt) :
  stmt_quiet s ->
  forall context o context',
    is_constant context = true ->
    parse_stmt s context = Ok (o, context') -> obj_quiet (obj_of o).
Proof.
  induction s as [v| |t a|ts v|t b e IHb IHe|t|t i b IHb|t op v| |v|] using stmt_ind';
    intros Hok context o context' Hc Ho; cbn [parse_stmt] in Ho;
    inversion Hok; subst.
  - (* Expr *)
    destruct v; try discriminate. inv_ok Ho. injection Ho as <- _.
    match goal with
    | E : call_stmt _ _ _ = Ok _ |- _ => apply call_stmt_quiet in E; [subst|exact Hc]
    end.
    constructor.
  - inv_ok Ho. repeat q_more. injection Ho as <- _. constructor. assumption.
  - inv_ok Ho. repeat q_more. injection Ho as <- _. constructor. assumption.
  - eapply assign_stmt_quiet; eassumption.
  - (* If *)
    assert (Hblock : forall c os c',
      is_constant c = true ->
      parse_stmts parse_stmt b c = Ok (os, c') ->
      Forall obj_quiet (map obj_of os)).
    { apply parse_stmts_quiet; [|intros; eapply parse_stmt_is_constant; eassumption].
      match goal with H : Forall stmt_quiet b |- _ => revert H end.
      clear - IHb. induction IHb; intros Hb; constructor; inversion Hb; subst; eauto. }
    destruct e as [|e0 e].
    + inv_ok Ho.
      match goal with E : parse_stmts _ b _ = Ok _ |- _ => apply Hblock in E; [|exact Hc] end.
      repeat q_more.
      injection Ho as <- _. cbn [obj_of]. apply oq_node. assumption.
    + inv_ok Ho.
      match goal with
      | E : parse_stmts _ b _ = Ok (_, ?c1) |- _ =>
          assert (Hc1 : is_constant c1 = true)
            by (erewrite parse_stmts_is_constant;
                [exact Hc| |exact E];
                apply Forall_forall; intros; eapply parse_stmt_is_constant; eassumption);
          apply Hblock in E; [|exact Hc]
      end.
      inversion IHe as [|? ? IHe0 _]; subst.
      match goal with H : Forall stmt_quiet (e0 :: e) |- _ => inversion H; subst end.
      match goal with
      | E : parse_stmt e0 _ = Ok _ |- _ => apply IHe0 in E; [|assumption|exact Hc1]
      end.
      repeat q_more.
      injection Ho as <- _. cbn [obj_of]. apply oq_node. assumption.
  - inv_ok Ho. repeat q_more. injection Ho as <- _. cbn [obj_of]. apply oq_node.
    assumption.
  - (* For *)
    assert (Hblock : forall c os c',
      is_constant c = true ->
      parse_stmts parse_stmt b c = Ok (os, c') ->
      Forall obj_quiet (map obj_of os)).
    { apply parse_stmts_quiet; [|intros; eapply parse_stmt_is_constant; eassumption].
      match goal with H : Forall stmt_quiet b |- _ => revert H end.
      clear - IHb. induction IHb; intros Hb; constructor; inversion Hb; subst; eauto. }
    inv_ok Ho.
    match goal with
    | E : parse_stmts _ b ?c1 = Ok _ |- _ =>
        assert (Hc1 : is_constant c1 = true);
        [|apply Hblock in E; [|exact Hc1]]
    end.
    { match goal with
      | E : (if ?c then _ else _) = Ok _ |- _ => destruct c
      end.
      - match goal with
        | E : match ?x with _ => _ end = Ok _ |- _ =>
            destruct x as [[]|]; try discriminate; injection E as _ <-
        end. exact Hc.
      - erewrite new_variable_is_constant by eassumption. exact Hc. }
    match goal with
    | E : for_range _ _ _ = Ok _ |- _ =>
        apply for_range_quiet in E as [Hstart Hrounds]; [|assumption]
    end.
    repeat q_more.
    injection Ho as <- _. cbn [obj_of]. apply oq_node. assumption.
  - inv_ok Ho. injection Ho as <- _.
    eapply augassign_stmt_quiet; [| | |eassumption]; assumption.
  - inv_ok Ho. repeat q_more. injection Ho as <- _. constructor. assumption.
  - inv_ok Ho. injection Ho as <- _. eapply return_stmt_quiet; eassumption.
  - discriminate.
Qed.

End QuietStmt.

Section QuietFunctions.
Context {Ops : OpcodesModule} {Types : TypesModule} {Hash : HashModule}.

Lemma parse_block_quiet (code : list ast.stmt) (context : Context) os context' :
  is_constant context = true -> Forall stmt_quiet code ->
  parse_stmts parse_stmt code context = Ok (os, context') ->
  Forall obj_quiet (map obj_of os).
Proof.
  intros Hc Hcode. revert context os context' Hc.
  apply parse_stmts_quiet; [|intros; eapply parse_stmt_is_constant; eassumption].
  eapply Forall_impl; [exact Hcode|].
  intros s Hs c o c'. apply parse_stmt_quiet, Hs.
Qed.

(** X21. The code of a function declared constant has no node that writes
    to storage, calls out, creates a contract, destroys the contract or
    writes a log. *)
Theorem constant_function_quiet (code : ast.FunctionDef) g v d n :
  get_func_details code = Ok d -> fd_const d = true ->
  Forall stmt_quiet (ast.body code) ->
  parse_func code g v = Ok n -> quiet n.
Proof.
  intros Hd Hconst Hcode Hn. unfold parse_func in Hn. rewrite Hd in Hn.
  cbn [bind] in Hn.
  apply bind_Ok in Hn as (u & _ & Hn). cbn beta zeta in Hn.
  destruct (eqs (fd_name d) "__init__").
  - apply bind_Ok in Hn as ([b c] & Hb & Hn). injection Hn as <-.
    unfold parse_body in Hb.
    apply bind_Ok in Hb as ([os c1] & Hos & Hb).
    apply bind_Ok in Hb as (m & Hm & Hb). injection Hb as <- _.
    apply parse_block_quiet in Hos; [|exact Hconst|exact Hcode].
    apply from_list_quiet in Hm; [exact Hm|].
    constructor. constructor; [constructor; reflexivity|exact Hos].
  - apply bind_Ok in Hn as ([os c] & Hos & Hn).
    apply parse_block_quiet in Hos; [|exact Hconst|exact Hcode].
    apply from_list_quiet in Hn; [exact Hn|].
    assert (Hstr : forall s, noisy (VStr s) = false -> obj_quiet (OStr s))
      by (intros; constructor; assumption).
    apply oq_list, List.Forall_cons; [apply Hstr; reflexivity|].
    apply List.Forall_cons; [|apply List.Forall_cons; [|apply List.Forall_nil]].
    + apply oq_list, List.Forall_cons; [apply Hstr; reflexivity|].
      apply List.Forall_cons; [|apply List.Forall_cons; [apply oq_int|apply List.Forall_nil]].
      apply oq_list, List.Forall_cons; [apply Hstr; reflexivity|].
      apply List.Forall_cons; [apply oq_int|apply List.Forall_nil].
    + apply oq_list, List.Forall_cons; [apply Hstr; reflexivity|exact Hos].
Qed.

End QuietFunctions.


(** ** The further properties on sample programs *)

Section OnTheFixture.
#[local] Existing Instance Fixture.opcodes_module.
#[local] Existing Instance Fixture.types_module.
#[local] Existing Instance Keccak.hash_module.

Lemma get_defs_and_globals_Ok_witness :
  exists defs _globals decls,
    get_defs_and_globals module_f_g = Ok (defs, _globals)
    /\ module_f_g = map declaration decls ++ map TopDef defs.
Proof.
  destruct (get_defs_and_globals module_f_g) as [[defs g]|e] eqn:H;
    [|vm_compute in H; discriminate].
  destruct (get_defs_and_globals_Ok module_f_g defs g H) as (decls & Hc & _).
  exists defs, g, decls. split; [reflexivity|exact Hc].
Defined.

Lemma function_names_differ_witness :
  parse_tree_to_lll module_f_f = Err VariableDeclarationException.
Proof.
  assert (H : get_defs_and_globals module_f_f = Ok ([def_pass "f"; def_pass "f"], ∅))
    by reflexivity.
  apply (proj1 (function_names_differ module_f_f) _ _ H).
  intros Hnd. apply NoDup_cons in Hnd as [Hni _]. apply Hni. left.
Defined.

Lemma parse_tree_to_lll_well_formed_witness :
  exists n, parse_tree_to_lll module_f_g = Ok n /\ well_formed n.
Proof.
  destruct (parse_tree_to_lll module_f_g) as [n|e] eqn:H;
    [|vm_compute in H; discriminate].
  exists n. split; [reflexivity|].
  apply (parse_tree_to_lll_well_formed module_f_g n); [|exact H].
  repeat constructor.
Defined.

Lemma parse_func_dispatch_witness :
  exists n d,
    parse_func (def_pass "f") ∅ None = Ok n
    /\ get_func_details (def_pass "f") = Ok d.
Proof.
  destruct (parse_func (def_pass "f") ∅ None) as [n|e] eqn:H;
    [|vm_compute in H; discriminate].
  destruct (proj2 (parse_func_dispatch (def_pass "f") ∅ None) n H) as (d & Hd & _).
  exists n, d. split; [reflexivity|exact Hd].
Defined.

Lemma mk_full_signature_entries_witness :
  exists entries defs _globals,
    mk_full_signature module_f_g = Ok entries
    /\ get_defs_and_globals module_f_g = Ok (defs, _globals)
    /\ length entries = length defs.
Proof.
  destruct (mk_full_signature module_f_g) as [entries|e] eqn:H;
    [|vm_compute in H; discriminate].
  destruct (mk_full_signature_entries module_f_g entries H) as (defs & g & Hg & Hall).
  exists entries, defs, g. split; [reflexivity|]. split; [exact Hg|].
  symmetry. eapply Forall2_length, Hall.
Defined.

Lemma from_list_to_list_witness :
  exists n,
    from_list add_1_2 (TTyp None) None = Ok n
    /\ to_list n = LList (VStr "add") [LList (VInt 1) []; LList (VInt 2) []].
Proof.
  destruct (from_list add_1_2 (TTyp None) None) as [n|e] eqn:H;
    [|vm_compute in H; discriminate].
  exists n. split; [reflexivity|].
  exact (proj1 (from_list_to_list add_1_2 (TTyp None) None n H)).
Defined.

Lemma to_list_from_list_witness :
  exists n m,
    from_list add_1_2 (TTyp None) None = Ok n
    /\ from_list (unshape (to_list n)) (TTyp None) None = Ok m
    /\ to_list m = to_list n.
Proof.
  destruct (from_list add_1_2 (TTyp None) None) as [n|e] eqn:H;
    [|vm_compute in H; discriminate].
  assert (Hwf : well_formed n).
  { eapply from_list_well_formed; [|exact H]. repeat constructor. }
  assert (Hnull : no_null (to_list n) = true).
  { vm_compute in H. injection H as <-. reflexivity. }
  destruct (to_list_from_list n Hwf Hnull (TTyp None) None) as (m & Hm & Hs & _).
  exists n, m. split; [reflexivity|]. split; [exact Hm|exact Hs].
Defined.

Lemma value_or_location_witness :
  exists n,
    parse_value_expr (ast.Num (ast.Int 1)) Fixture.empty_context = Ok n
    /\ location n = None.
Proof.
  destruct (parse_value_expr (ast.Num (ast.Int 1)) Fixture.empty_context)
    as [n|e] eqn:H; [|vm_compute in H; discriminate].
  exists n. split; [reflexivity|].
  exact (proj1 (proj1 (value_or_location _ _ n) H)).
Defined.

Lemma base_type_conversion_type_witness :
  exists orig n,
    parse_expr (ast.Num (ast.Int 1)) Fixture.empty_context = Ok orig
    /\ base_type_conversion orig (typ orig) (Some (BaseType1 "decimal")) = Ok n
    /\ typ n = Some (BaseType1 "decimal").
Proof.
  destruct (parse_expr (ast.Num (ast.Int 1)) Fixture.empty_context)
    as [orig|e] eqn:Ho; [|vm_compute in Ho; discriminate].
  destruct (base_type_conversion orig (typ orig) (Some (BaseType1 "decimal")))
    as [n|e] eqn:H.
  - exists orig, n. split; [reflexivity|]. split; [exact H|].
    exact (proj1 (base_type_conversion_type _ _ _ n H)).
  - vm_compute in Ho. injection Ho as <-. vm_compute in H. discriminate.
Defined.

Lemma non_numeric_operands_witness :
  parse_expr (ast.BinOp (ast.NameConstant ast.CTrue) ast.Add (ast.Num (ast.Int 1)))
             Fixture.empty_context
  = Err (PyError UnboundLocalError).
Proof.
  destruct (parse_value_expr (ast.NameConstant ast.CTrue) Fixture.empty_context)
    as [l|e] eqn:Hl; [|vm_compute in Hl; discriminate].
  destruct (parse_value_expr (ast.Num (ast.Int 1)) Fixture.empty_context)
    as [r|e] eqn:Hr; [|vm_compute in Hr; discriminate].
  refine (proj1 (non_numeric_operands _ _ _ l r Hl Hr _) ast.Add).
  vm_compute in Hl. injection Hl as <-. reflexivity.
Defined.

Lemma list_literal_witness :
  exists n xs,
    parse_expr list_1_2 Fixture.empty_context = Ok n
    /\ to_list n = LList (VStr "multi") (map to_list xs).
Proof.
  destruct (parse_expr list_1_2 Fixture.empty_context) as [n|e] eqn:H;
    [|vm_compute in H; discriminate].
  destruct (proj2 (list_literal _ Fixture.empty_context) n H)
    as (xs & subtype & _ & Hs & _).
  exists n, xs. split; [reflexivity|exact Hs].
Defined.

Lemma struct_literal_members_witness :
  exists n,
    parse_expr dict_a_b Fixture.empty_context = Ok n
    /\ nth_error (map to_list (args n)) 1 = Some (LList (VInt 2) []).
Proof.
  destruct (parse_expr dict_a_b Fixture.empty_context) as [n|e] eqn:H;
    [|vm_compute in H; discriminate].
  exists n. split; [reflexivity|].
  destruct (struct_literal_members _ _ Fixture.empty_context n H)
    as (o & Hall & _ & _ & _ & Hchild).
  destruct (Hchild 1%nat "b" (ast.Num (ast.Int 2)) eq_refl eq_refl)
    as (m & i & Hm & Hi & Hnth).
  cbn [combine] in Hall.
  inversion Hall as [|? [ka ma] ? ? [Ha _] Hall1]; subst.
  inversion Hall1 as [|? [kb mb] ? ? [Hb _] Hall2]; subst.
  inversion Hall2; subst.
  cbn [fst] in Ha, Hb. injection Ha as <-. injection Hb as <-.
  vm_compute in Hi. injection Hi as <-.
  vm_compute in Hm. injection Hm as <-. exact Hnth.
Defined.

Lemma struct_members_apart_witness :
  exists n1 n2,
    add_variable_offset struct_a_b (KStr "a") = Ok n1
    /\ add_variable_offset struct_a_b (KStr "b") = Ok n2
    /\ to_list n1 <> to_list n2.
Proof.
  destruct (add_variable_offset struct_a_b (KStr "a")) as [n1|e] eqn:H1;
    [|vm_compute in H1; discriminate].
  destruct (add_variable_offset struct_a_b (KStr "b")) as [n2|e] eqn:H2;
    [|vm_compute in H2; discriminate].
  exists n1, n2. split; [reflexivity|]. split; [reflexivity|].
  destruct (struct_members_apart struct_a_b "a" "b" n1 n2 eq_refl H1 H2)
    as (i1 & i2 & Hi & -> & ->); [discriminate|].
  intros [= E]. apply Hi. lia.
Defined.

Lemma global_variable_slot_witness :
  exists t,
    parse_expr (ast.Attribute (ast.Name "self") "x") context_x
    = Ok (mkLLLnode (VInt 0) [] (Some t) (Some storage) 1).
Proof.
  assert (H : get_defs_and_globals module_f_g
              = Ok ([def_pass "f"; def_pass "g"], globals context_x))
    by (vm_compute; reflexivity).
  destruct (global_variable_slot module_f_g _ _ 0 "x" (ast.Name "num") context_x H)
    as (t & _ & Ht); [reflexivity|reflexivity|discriminate|].
  exists t. exact Ht.
Defined.

Lemma constant_function_quiet_witness :
  exists n, parse_func def_get ∅ None = Ok n /\ quiet n.
Proof.
  destruct (get_func_details def_get) as [d|e] eqn:Hd; [|vm_compute in Hd; discriminate].
  destruct (parse_func def_get ∅ None) as [n|e] eqn:Hn;
    [|vm_compute in Hn; discriminate].
  exists n. split; [reflexivity|].
  refine (constant_function_quiet def_get ∅ None d n Hd _ _ Hn).
  - vm_compute in Hd. injection Hd as <-. reflexivity.
  - repeat constructor. intros e [= <-]. repeat constructor.
Defined.

End OnTheFixture.
